(** * OIB_Sleep bracelet firmware ([pulsera/src/main.cpp])

    A shallow embedding of the Arduino sketch that drives the bracelet:
    sensor bring-up ([setup]), the cooperative main loop ([loop]) with its
    broker reconnection, the heart-rate estimator around the [rates] ring
    buffer, and the accelerometer classification.

    Conventions of the embedding.
    - C++ [int]/[long] (32 bits on the ESP32-C3) and [unsigned long] are
      integers of [Z] with the wrap-around written out ([wrap_int],
      [u32]); [byte] is a [Z] in [0, 256).
    - C++ [float] and [double] are IEEE-754 binary32 and binary64 values,
      represented by [spec_float] and computed with the operations of the
      standard library's [SpecFloat].
    - The external collaborators (Wi-Fi, the MQTT client, the three sensor
      drivers, [millis], [checkForBeat]) are oracles: each call site reads
      the answer from an input record, and every call and every publication
      is recorded in an event trace. *)

From Stdlib Require Import ZArith List String Bool Lia QArith Qround Qabs.
From Stdlib Require Import Floats.SpecFloat.
From stdpp Require Import base list.
Import ListNotations.

Open Scope string_scope.
Open Scope list_scope.
Open Scope Z_scope.

(** ** IEEE-754 values of the two C++ floating-point types *)

Module IEEE.

(** [float]: binary32. *)
Definition fprec : Z := 24.
Definition femax : Z := 128.
(** [double]: binary64. *)
Definition dprec : Z := 53.
Definition demax : Z := 1024.

(** An integer constant or variable converted to [float] / [double]. *)
Definition float_of_Z (z : Z) : spec_float := binary_normalize fprec femax z 0 false.
Definition double_of_Z (z : Z) : spec_float := binary_normalize dprec demax z 0 false.

(** The float and the double literal [m * 2^e]. *)
Definition float_lit (m e : Z) : spec_float := binary_normalize fprec femax m e false.
Definition double_lit (m e : Z) : spec_float := binary_normalize dprec demax m e false.

(** Promotion [float -> double] (exact) and the rounding conversion
    [double -> float] performed by an assignment to a [float]. *)
Definition convert (prec emax : Z) (x : spec_float) : spec_float :=
  match x with
  | S754_finite s m e => binary_round prec emax s m e
  | _ => x
  end.
Definition double_of_float : spec_float -> spec_float := convert dprec demax.
Definition float_of_double : spec_float -> spec_float := convert fprec femax.

(** Comparison operators of C++ on two values of one format: every
    comparison with a NaN is false. *)
Definition flt (a b : spec_float) : bool := SFltb a b.
Definition fgt (a b : spec_float) : bool := SFltb b a.
Definition fle (a b : spec_float) : bool := SFleb a b.
Definition fge (a b : spec_float) : bool := SFleb b a.

Definition isnan (x : spec_float) : bool :=
  match x with S754_nan => true | _ => false end.

(** Truncation toward zero of a finite value [m * 2^e]. *)
Definition trunc_mag (m : positive) (e : Z) : Z :=
  if 0 <=? e then Z.shiftl (Zpos m) e else Z.shiftr (Zpos m) (- e).

Definition int_max : Z := 2147483647.
Definition int_min : Z := -2147483648.

(** [(int)x]: truncation toward zero.  C++ defines the conversion only
    when the truncated value fits an [int]; on an infinity, a NaN or a
    value beyond that range the behaviour is undefined, and no result is
    given here. *)
Definition to_int (x : spec_float) : option Z :=
  match x with
  | S754_zero _ => Some 0
  | S754_finite s m e =>
      let t := cond_Zopp s (trunc_mag m e) in
      if (int_min <=? t) && (t <=? int_max) then Some t else None
  | _ => None
  end.

(** [(byte)x]: the truncation, reduced modulo 256.  The program converts
    only values that passed the range test of the estimator, on which the
    conversion is defined and fits a byte (see [accepted_int_defined]);
    where [(int)x] is undefined the function is given the value 0 to be
    total, and that value is never stored. *)
Definition to_byte (x : spec_float) : Z :=
  match to_int x with
  | Some t => t mod 256
  | None => 0
  end.

End IEEE.

(** ** Machine integers *)

Definition u32 (z : Z) : Z := z mod 4294967296.

(** Conversion of an [unsigned long] to [long], and of the result of an
    [int] operation to [int]: two's complement on 32 bits. *)
Definition to_long (z : Z) : Z :=
  let u := u32 z in if u <? 2147483648 then u else u - 4294967296.
Definition wrap_int (z : Z) : Z := to_long z.

Definition to_u8 (z : Z) : Z := z mod 256.

(** ** Publications and the event trace *)

Inductive sensor := HTU21D | MAX30105 | MMA8452Q.

(** The Arduino [String] values handed to [client.publish] are kept as the
    sequence of the pieces they are concatenated from: a literal,
    [String(n)] of an integer, [String(x, d)] of a float with [d]
    decimals, and the text of an integer that comes from a conversion
    which C++ leaves undefined, of which nothing is known. *)
Inductive frag :=
| FLit (s : string)
| FInt (n : Z)
| FFloat (x : spec_float) (decimals : nat)
| FUndefined.

Definition payload := list frag.

Inductive event :=
| EPublish (topic : string) (p : payload)   (* client.publish(topic, p) *)
| EDelay (ms : Z)                           (* delay(ms) *)
| EWifiBegin                                (* WiFi.begin(ssid, password) *)
| EConnect (ok : bool)                      (* client.connect(...) and its result *)
| EPump                                     (* client.loop() *)
| EBegin (s : sensor) (ok : bool)           (* <driver>.begin() and its result *)
| EConfig (s : sensor)                      (* the set-up calls after a successful begin *)
| ERead (s : sensor).                       (* measure / getIR / available: a driver read *)

Definition publish (topic msg : string) : event := EPublish topic [FLit msg].

(** The double-quote character of the JSON payloads. *)
Definition dq : string := String (Ascii.ascii_of_nat 34) EmptyString.

(** ** Program state: the globals and the two [static] locals of [loop] *)

Definition RATE_SIZE : Z := 4.

Record State := mkState {
  htu21d_ok : bool;
  max30102_ok : bool;
  accel_ok : bool;
  rates : list Z;               (* byte rates[RATE_SIZE] *)
  rateSpot : Z;                 (* byte *)
  lastBeat : Z;                 (* long *)
  beatsPerMinute : spec_float;  (* float *)
  beatAvg : Z;                  (* int *)
  lastMsg : Z;                  (* static unsigned long *)
  contador : Z                  (* static int *)
}.

(** Zero-initialised globals, before [setup]. *)
Definition boot_state : State :=
  {| htu21d_ok := false; max30102_ok := false; accel_ok := false;
     rates := [0; 0; 0; 0]; rateSpot := 0; lastBeat := 0;
     beatsPerMinute := S754_zero false; beatAvg := 0;
     lastMsg := 0; contador := 0 |}.

Definition sensor_ok (s : sensor) (st : State) : bool :=
  match s with
  | HTU21D => htu21d_ok st
  | MAX30105 => max30102_ok st
  | MMA8452Q => accel_ok st
  end.

(** ** The environment *)

(** The broker link as [reconnect] sees it: whether [client.connected()]
    holds on entry, and the outcome of the k-th [client.connect] attempt.
    After a successful attempt [client.connected()] holds. *)
Record Link := mkLink {
  link_up : bool;
  connect_ok : nat -> bool
}.

Record BootInput := mkBoot {
  wifi_up : nat -> bool;        (* WiFi.status() == WL_CONNECTED at the k-th poll *)
  boot_link : Link;
  htu_begin : bool;             (* htu21d.begin() *)
  max_begin : bool;             (* max30102.begin(Wire, I2C_SPEED_FAST) *)
  accel_begin : bool            (* accel.begin() *)
}.

Definition begin_ok (s : sensor) (b : BootInput) : bool :=
  match s with
  | HTU21D => htu_begin b
  | MAX30105 => max_begin b
  | MMA8452Q => accel_begin b
  end.

(** What one iteration of [loop] reads from its collaborators.  A field is
    consulted only where the code makes the corresponding call. *)
Record LoopInput := mkInput {
  in_link : Link;
  in_now : Z;                   (* millis() at the top of loop *)
  in_measure : bool;            (* htu21d.measure() *)
  in_temperatura : spec_float;  (* htu21d.getTemperature() *)
  in_humedad : spec_float;      (* htu21d.getHumidity() *)
  in_ir : Z;                    (* long irValue = max30102.getIR() *)
  in_beat : bool;               (* checkForBeat(irValue) *)
  in_beat_ms : Z;               (* millis() in  delta = millis() - lastBeat *)
  in_beat_ms' : Z;              (* millis() in  lastBeat = millis() *)
  in_available : bool;          (* accel.available() *)
  in_x : spec_float;            (* accel.getCalculatedX() *)
  in_y : spec_float;
  in_z : spec_float;
  in_ip : string;               (* WiFi.localIP().toString() *)
  in_wifi : bool;               (* WiFi.status() == WL_CONNECTED *)
  in_uptime_ms : Z              (* millis() of the uptime report *)
}.

(** ** setup_wifi and reconnect *)

(** The polling loop of [setup_wifi] with [n] waits left; [k] is
    [intentos], and [up k] is what the poll of [WiFi.status()] before the
    wait number [k] finds.  After the last wait the condition polls the
    status once more, whatever the answer the loop is left: that poll
    leaves no trace. *)
Fixpoint wifi_poll (n : nat) (up : nat -> bool) (k : nat) : list event :=
  match n with
  | O => []
  | S n' => if up k then [] else EDelay 500 :: wifi_poll n' up (S k)
  end.

Definition setup_wifi (up : nat -> bool) : list event :=
  EDelay 10 :: EWifiBegin :: wifi_poll 30 up 0.

Definition status_msg : string := "ESP32 conectado - Iniciando lecturas de sensores".

(** The body of [while (!client.connected())] from the k-th attempt on.
    The loop has no bound in the source; [fuel] bounds the attempts that
    are observed, and the boolean tells whether the loop was left.  The
    client library is not among the sources: a [client.connect] that
    returns true is taken to leave [client.connected()] true, so that the
    loop is left after the first success. *)
Fixpoint connect_loop (fuel : nat) (ok : nat -> bool) (k : nat) : list event * bool :=
  match fuel with
  | O => ([], false)
  | S f =>
      if ok k then ([EConnect true; publish "sensores/status" status_msg], true)
      else let '(ev, r) := connect_loop f ok (S k) in
           (EConnect false :: EDelay 5000 :: ev, r)
  end.

Definition reconnect (fuel : nat) (l : Link) : list event * bool :=
  if link_up l then ([], true) else connect_loop fuel (connect_ok l) 0.

(** ** setup *)

Definition resumen (st : State) : string :=
  ("Sensores activos: "
   ++ (if htu21d_ok st then "HTU21D " else EmptyString)
   ++ (if max30102_ok st then "MAX30105 " else EmptyString)
   ++ (if accel_ok st then "MMA8452Q " else EmptyString)
   ++ (if negb (htu21d_ok st) && negb (max30102_ok st) && negb (accel_ok st)
       then "NINGUNO" else EmptyString))%string.

Definition set_flags (h m a : bool) (st : State) : State :=
  {| htu21d_ok := h; max30102_ok := m; accel_ok := a;
     rates := rates st; rateSpot := rateSpot st; lastBeat := lastBeat st;
     beatsPerMinute := beatsPerMinute st; beatAvg := beatAvg st;
     lastMsg := lastMsg st; contador := contador st |}.

Definition init_htu21d (ok : bool) : list event :=
  EBegin HTU21D ok ::
  (if ok then [publish "sensores/htu21d" "HTU21D inicializado correctamente"]
   else [publish "sensores/error" "HTU21D no encontrado"]).

Definition init_max30105 (ok : bool) : list event :=
  EBegin MAX30105 ok ::
  (if ok then [EConfig MAX30105;
               publish "sensores/max30105" "MAX30105 inicializado correctamente"]
   else [publish "sensores/error" "MAX30105 no encontrado"]).

Definition init_mma8452q (ok : bool) : list event :=
  EBegin MMA8452Q ok ::
  (if ok then [EConfig MMA8452Q;
               publish "sensores/mma8452q" "MMA8452Q inicializado correctamente - Escala 2g"]
   else [publish "sensores/error" "MMA8452Q no encontrado"]).

(** [setup]: the trace, and the state it leaves when it returns ([None]
    while [reconnect] has not returned within the observed attempts).  The
    bus and broker configuration calls ([Wire.begin], [Wire.setClock],
    [client.setServer]) have no result and leave no event. *)
Definition setup (fuel : nat) (b : BootInput) : list event * option State :=
  let ev_wifi := setup_wifi (wifi_up b) in
  let '(ev_conn, returned) := reconnect fuel (boot_link b) in
  if returned then
    let st := set_flags (htu_begin b) (max_begin b) (accel_begin b) boot_state in
    (ev_wifi ++ ev_conn
       ++ [publish "sensores/info" "Inicializando sensores en ESP32-C3";
           publish "sensores/config" "I2C: SDA=GPIO6, SCL=GPIO7, 100kHz"]
       ++ init_htu21d (htu_begin b)
       ++ init_max30105 (max_begin b)
       ++ init_mma8452q (accel_begin b)
       ++ [publish "sensores/resumen" (resumen st)],
     Some st)
  else (ev_wifi ++ ev_conn, None).

(** ** The heart-rate estimator *)

(** [beatsPerMinute = 60 / (delta / 1000.0)]: both divisions are carried
    out in [double]; the assignment rounds to [float]. *)
Definition bpm_of_delta (delta : Z) : spec_float :=
  IEEE.float_of_double
    (SFdiv IEEE.dprec IEEE.demax (IEEE.double_of_Z 60)
       (SFdiv IEEE.dprec IEEE.demax (IEEE.double_of_Z delta) (IEEE.double_of_Z 1000))).

(** [if (beatsPerMinute < 255 && beatsPerMinute > 20)] *)
Definition bpm_accepted (bpm : spec_float) : bool :=
  IEEE.flt bpm (IEEE.float_of_Z 255) && IEEE.fgt bpm (IEEE.float_of_Z 20).

(** [beatAvg = 0; for (byte x = 0; x < RATE_SIZE; x++) beatAvg += rates[x];] *)
Definition sum_rates (r : list Z) : Z :=
  fold_left (fun acc x => wrap_int (acc + r !!! x)) (seq 0 (Z.to_nat RATE_SIZE)) 0.

(** The body of [if (checkForBeat(irValue) == true)]; [ms] and [ms'] are
    the two readings of [millis()].  The write [rates[rateSpot++]] is in
    bounds: [rateSpot] stays below [RATE_SIZE] (see [heart_inv]). *)
Definition on_beat (ms ms' : Z) (st : State) : State :=
  let delta := to_long (u32 ms - u32 (lastBeat st)) in
  let lastBeat' := to_long ms' in
  let bpm := bpm_of_delta delta in
  if bpm_accepted bpm then
    let rates' := <[Z.to_nat (rateSpot st) := IEEE.to_byte bpm]> (rates st) in
    let spot' := to_u8 (Z.rem (to_u8 (rateSpot st + 1)) RATE_SIZE) in
    {| htu21d_ok := htu21d_ok st; max30102_ok := max30102_ok st; accel_ok := accel_ok st;
       rates := rates'; rateSpot := spot'; lastBeat := lastBeat';
       beatsPerMinute := bpm;
       beatAvg := Z.quot (sum_rates rates') RATE_SIZE;
       lastMsg := lastMsg st; contador := contador st |}
  else
    {| htu21d_ok := htu21d_ok st; max30102_ok := max30102_ok st; accel_ok := accel_ok st;
       rates := rates st; rateSpot := rateSpot st; lastBeat := lastBeat';
       beatsPerMinute := bpm; beatAvg := beatAvg st;
       lastMsg := lastMsg st; contador := contador st |}.

(** [String finger_status = (irValue < 50000) ? "no_detectado" : "detectado"] *)
Definition finger_status (irValue : Z) : string :=
  if irValue <? 50000 then "no_detectado" else "detectado".

(** [String((int)beatsPerMinute)] *)
Definition bpm_text (bpm : spec_float) : frag :=
  match IEEE.to_int bpm with
  | Some n => FInt n
  | None => FUndefined
  end.

Definition heart_json (irValue : Z) (st : State) : payload :=
  [FLit ("{" ++ dq ++ "ir" ++ dq ++ ":")%string; FInt irValue;
   FLit ("," ++ dq ++ "bpm" ++ dq ++ ":")%string; bpm_text (beatsPerMinute st);
   FLit ("," ++ dq ++ "bpm_avg" ++ dq ++ ":")%string; FInt (beatAvg st);
   FLit ("," ++ dq ++ "finger" ++ dq ++ ":" ++ dq)%string; FLit (finger_status irValue);
   FLit (dq ++ "}")%string].

(** The block [if (max30102_ok) { ... }]. *)
Definition read_max30105 (i : LoopInput) (st : State) : State * list event :=
  if max30102_ok st then
    let irValue := in_ir i in
    let st' := if in_beat i then on_beat (in_beat_ms i) (in_beat_ms' i) st else st in
    (st',
     [ERead MAX30105;
      EPublish "sensores/ir_value" [FInt irValue];
      EPublish "sensores/bpm" [bpm_text (beatsPerMinute st')];
      EPublish "sensores/bpm_avg" [FInt (beatAvg st')];
      publish "sensores/finger_status" (finger_status irValue);
      EPublish "sensores/heart_data" (heart_json irValue st')])
  else (st, []).

(** ** The environment sensor *)

Definition temperatura_valida (t : spec_float) : bool :=
  negb (IEEE.isnan t) && IEEE.fge t (IEEE.float_of_Z (-40)) && IEEE.fle t (IEEE.float_of_Z 125).

Definition humedad_valida (h : spec_float) : bool :=
  negb (IEEE.isnan h) && IEEE.fge h (IEEE.float_of_Z 0) && IEEE.fle h (IEEE.float_of_Z 100).

(** The block [if (htu21d_ok) { ... }]. *)
Definition read_htu21d (i : LoopInput) (st : State) : list event :=
  if htu21d_ok st then
    ERead HTU21D ::
    (if in_measure i then
       let temperatura := in_temperatura i in
       let humedad := in_humedad i in
       [if temperatura_valida temperatura
        then EPublish "sensores/temperatura" [FFloat temperatura 2]
        else publish "sensores/error" "HTU21D: temperatura invalida";
        if humedad_valida humedad
        then EPublish "sensores/humedad" [FFloat humedad 2]
        else publish "sensores/error" "HTU21D: humedad invalida"]
     else [publish "sensores/error" "HTU21D: fallo en medicion"])
  else [].

(** ** The accelerometer and the motion classifier *)

Definition fmul := SFmul IEEE.fprec IEEE.femax.
Definition fadd := SFadd IEEE.fprec IEEE.femax.

(** [if (v >= -4 && v <= 4)] *)
Definition axis_ok (v : spec_float) : bool :=
  IEEE.fge v (IEEE.float_of_Z (-4)) && IEEE.fle v (IEEE.float_of_Z 4).

(** [float magnitud = sqrt(x*x + y*y + z*z)]: the sum is a [float], the
    root is taken in [double] and rounded back. *)
Definition magnitud (x y z : spec_float) : spec_float :=
  IEEE.float_of_double
    (SFsqrt IEEE.dprec IEEE.demax
       (IEEE.double_of_float (fadd (fadd (fmul x x) (fmul y y)) (fmul z z)))).

(** The literal [0.5], a [double]; a [float] compared with it is promoted. *)
Definition half : spec_float := IEEE.double_lit 1 (-1).

(** [abs(z) > abs(x) && abs(z) > abs(y)].  Arduino's [abs], whether the
    macro [((x)>0?(x):-(x))] or [std::abs], is the absolute value of the
    [float] up to the sign of a zero, which no comparison sees. *)
Definition z_dominates (x y z : spec_float) : bool :=
  IEEE.fgt (SFabs z) (SFabs x) && IEEE.fgt (SFabs z) (SFabs y).

Definition z_above_half (z : spec_float) : bool := IEEE.fgt (IEEE.double_of_float z) half.
Definition z_below_minus_half (z : spec_float) : bool :=
  IEEE.flt (IEEE.double_of_float z) (SFopp half).

Definition orientacion (x y z : spec_float) : string :=
  if z_dominates x y z then
    if z_above_half z then "boca_arriba"
    else if z_below_minus_half z then "boca_abajo"
    else "indefinida"
  else "indefinida".

(** [(magnitud > 1.5) ? "SI" : "NO"] *)
Definition movimiento (mag : spec_float) : string :=
  if IEEE.fgt (IEEE.double_of_float mag) (IEEE.double_lit 3 (-1)) then "SI" else "NO".

Definition accel_json (x y z mag : spec_float) : payload :=
  [FLit ("{" ++ dq ++ "x" ++ dq ++ ":")%string; FFloat x 3;
   FLit ("," ++ dq ++ "y" ++ dq ++ ":")%string; FFloat y 3;
   FLit ("," ++ dq ++ "z" ++ dq ++ ":")%string; FFloat z 3;
   FLit ("," ++ dq ++ "mag" ++ dq ++ ":")%string; FFloat mag 3;
   FLit "}"].

Definition publish_axis (topic : string) (v : spec_float) : list event :=
  if axis_ok v then [EPublish topic [FFloat v 3]] else [].

(** The block [if (accel_ok) { ... }]. *)
Definition read_mma8452q (i : LoopInput) (st : State) : list event :=
  if accel_ok st then
    ERead MMA8452Q ::
    (if in_available i then
       let x := in_x i in
       let y := in_y i in
       let z := in_z i in
       let mag := magnitud x y z in
       publish_axis "sensores/accel_x" x
       ++ publish_axis "sensores/accel_y" y
       ++ publish_axis "sensores/accel_z" z
       ++ [EPublish "sensores/accel_mag" [FFloat mag 3];
           publish "sensores/orientacion" (orientacion x y z);
           publish "sensores/movimiento" (movimiento mag);
           EPublish "sensores/accel_datos" (accel_json x y z mag)]
     else [publish "sensores/error" "MMA8452Q: sin nuevos datos"])
  else [].

(** ** The acquisition tick and the main loop *)

Definition estado (b : bool) : string := if b then "OK" else "ERROR".

Definition set_tick (now : Z) (st : State) : State :=
  {| htu21d_ok := htu21d_ok st; max30102_ok := max30102_ok st; accel_ok := accel_ok st;
     rates := rates st; rateSpot := rateSpot st; lastBeat := lastBeat st;
     beatsPerMinute := beatsPerMinute st; beatAvg := beatAvg st;
     lastMsg := u32 now; contador := wrap_int (contador st + 1) |}.

(** The body of [if (now - lastMsg > 2000)]. *)
Definition tick (i : LoopInput) (st : State) : State * list event :=
  let st1 := set_tick (in_now i) st in
  let ev_contador := [EPublish "sensores/contador" [FInt (contador st1)]] in
  let ev_resumen :=
    if Z.rem (contador st1) 10 =? 1
    then [publish "sensores/resumen" (resumen st1)] else [] in
  let ev_htu := read_htu21d i st1 in
  let '(st2, ev_max) := read_max30105 i st1 in
  let ev_accel := read_mma8452q i st2 in
  let ev_sistema :=
    [publish "sistema/wifi_ip" (in_ip i);
     publish "sistema/wifi_status" (if in_wifi i then "conectado" else "desconectado");
     EPublish "sistema/uptime" [FInt (u32 (in_uptime_ms i) / 1000)]] in
  let ev_estado :=
    if Z.rem (contador st1) 5 =? 0
    then [publish "sensores/estado_htu21d" (estado (htu21d_ok st2));
          publish "sensores/estado_max30105" (estado (max30102_ok st2));
          publish "sensores/estado_mma8452q" (estado (accel_ok st2))]
    else [] in
  (st2, ev_contador ++ ev_resumen ++ ev_htu ++ ev_max ++ ev_accel ++ ev_sistema ++ ev_estado).

(** [now - lastMsg > 2000] on [unsigned long]. *)
Definition tick_due (i : LoopInput) (st : State) : bool :=
  2000 <? u32 (u32 (in_now i) - lastMsg st).

(** One call of [loop]: the trace, and the state when it returns ([None]
    while [reconnect] has not returned within the observed attempts). *)
Definition loop (fuel : nat) (i : LoopInput) (st : State) : list event * option State :=
  let '(ev_conn, returned) := reconnect fuel (in_link i) in
  if returned then
    if tick_due i st then
      let '(st', ev) := tick i st in (ev_conn ++ EPump :: ev, Some st')
    else (ev_conn ++ [EPump], Some st)
  else (ev_conn, None).

(** The Arduino runtime calls [loop] again and again. *)
Fixpoint run (fuel : nat) (inputs : list LoopInput) (st : State) : list event * option State :=
  match inputs with
  | [] => ([], Some st)
  | i :: rest =>
      match loop fuel i st with
      | (ev, Some st') => let '(ev', r) := run fuel rest st' in (ev ++ ev', r)
      | (ev, None) => (ev, None)
      end
  end.

(** A session: [setup], then the calls of [loop]. *)
Definition session (fuel : nat) (b : BootInput) (inputs : list LoopInput)
  : list event * option State :=
  match setup fuel b with
  | (ev, Some st) => let '(ev', r) := run fuel inputs st in (ev ++ ev', r)
  | (ev, None) => (ev, None)
  end.

(** States in which [loop] can be entered. *)
Inductive reachable : State -> Prop :=
| reach_setup fuel b ev st :
    setup fuel b = (ev, Some st) -> reachable st
| reach_loop fuel i ev st st' :
    reachable st -> loop fuel i st = (ev, Some st') -> reachable st'.

(** ** Reading the trace *)

(** The payloads published on a topic, in order. *)
Fixpoint payloads_on (topic : string) (evs : list event) : list payload :=
  match evs with
  | [] => []
  | EPublish t p :: rest =>
      if String.eqb t topic then p :: payloads_on topic rest else payloads_on topic rest
  | _ :: rest => payloads_on topic rest
  end.

(** The topics that carry sample readings of a sensor. *)
Definition reading_topics (s : sensor) : list string :=
  match s with
  | HTU21D => ["sensores/temperatura"; "sensores/humedad"]
  | MAX30105 => ["sensores/ir_value"; "sensores/bpm"; "sensores/bpm_avg";
                 "sensores/finger_status"; "sensores/heart_data"]
  | MMA8452Q => ["sensores/accel_x"; "sensores/accel_y"; "sensores/accel_z";
                 "sensores/accel_mag"; "sensores/orientacion"; "sensores/movimiento";
                 "sensores/accel_datos"]
  end.

(** An event that touches sensor [s]: a driver call on it, or a publication
    on one of its reading topics. *)
Definition touches (s : sensor) (e : event) : bool :=
  match e with
  | EPublish t _ => existsb (String.eqb t) (reading_topics s)
  | EBegin s' _ | EConfig s' | ERead s' =>
      match s, s' with
      | HTU21D, HTU21D | MAX30105, MAX30105 | MMA8452Q, MMA8452Q => true
      | _, _ => false
      end
  | _ => false
  end.

(** ** Notions used by the properties *)

(** The arithmetic mean of the ring buffer, as a rational. *)
Definition slot_sum (r : list Z) : Z := fold_right Z.add 0 r.

Definition mean_of (r : list Z) : Q :=
  Qdiv (inject_Z (slot_sum r)) (inject_Z (Z.of_nat (length r))).

(** What a slot of the ring buffer can hold: the initial zero, or the
    truncation of an accepted BPM. *)
Definition slot_ok (v : Z) : Prop := v = 0 \/ 20 <= v <= 254.

(** The invariant of the heart-rate state. *)
Definition heart_inv (st : State) : Prop :=
  length (rates st) = 4%nat /\
  Forall slot_ok (rates st) /\
  0 <= rateSpot st < RATE_SIZE /\
  beatAvg st = Z.quot (sum_rates (rates st)) RATE_SIZE.

(** The first and the last block of a tick's trace. *)
Definition tick_head (i : LoopInput) (st : State) : list event :=
  let st1 := set_tick (in_now i) st in
  [EPublish "sensores/contador" [FInt (contador st1)]]
  ++ (if Z.rem (contador st1) 10 =? 1
      then [publish "sensores/resumen" (resumen st1)] else []).

Definition tick_tail (i : LoopInput) (st : State) : list event :=
  let st1 := set_tick (in_now i) st in
  [publish "sistema/wifi_ip" (in_ip i);
   publish "sistema/wifi_status" (if in_wifi i then "conectado" else "desconectado");
   EPublish "sistema/uptime" [FInt (u32 (in_uptime_ms i) / 1000)]]
  ++ (if Z.rem (contador st1) 5 =? 0
      then [publish "sensores/estado_htu21d" (estado (htu21d_ok st));
            publish "sensores/estado_max30105" (estado (max30102_ok st));
            publish "sensores/estado_mma8452q" (estado (accel_ok st))]
      else []).

(** The trace of [n] failed connection attempts. *)
Definition failed_attempts (n : nat) : list event :=
  concat (repeat [EConnect false; EDelay 5000] n).

Definition is_publish (e : event) : bool :=
  match e with EPublish _ _ => true | _ => false end.

(** No event of the trace touches sensor [s]. *)
Definition quiet (s : sensor) (evs : list event) : Prop :=
  forallb (fun e => negb (touches s e)) evs = true.

(** Finite data: zeros and finite non-zero values. *)
Definition is_finite (x : spec_float) : bool :=
  match x with
  | S754_zero _ | S754_finite _ _ _ => true
  | _ => false
  end.

(** The value of a finite datum in units of 2^-1074.  No member of
    binary32 or binary64 has an exponent below -1074, so this integer is
    exact for both formats. *)
Definition scaled (x : spec_float) : Z :=
  match x with
  | S754_finite s m e => cond_Zopp s (Zpos m * 2 ^ (e + 1074))
  | _ => 0
  end.

(** The value of a finite datum, as a rational. *)
Definition value (x : spec_float) : Q := Qmake (scaled x) (2 ^ 1074)%positive.

(** ** Concrete environments *)

Definition link_connected : Link := mkLink true (fun _ => true).
(** Not connected yet; the first attempt succeeds. *)
Definition link_fresh : Link := mkLink false (fun _ => true).
(** Not connected, and no attempt ever succeeds. *)
Definition link_dead : Link := mkLink false (fun _ => false).
(** Not connected; the attempts fail until the third one. *)
Definition link_back : Link := mkLink false (fun k => (2 <=? k)%nat).

Definition boot_with (l : Link) (h m a : bool) : BootInput :=
  mkBoot (fun _ => true) l h m a.

(** Wi-Fi never associates and the broker is never reached. *)
Definition boot_offline : BootInput :=
  mkBoot (fun _ => false) link_dead true true true.

(** An iteration at time [now] on which no sensor reports anything. *)
Definition quiet_input (l : Link) (now : Z) : LoopInput :=
  mkInput l now false S754_nan S754_nan 0 false 0 0 false
    (S754_zero false) (S754_zero false) (S754_zero false) "0.0.0.0" true now.

(** A beat detected at time [now], with the finger on the sensor. *)
Definition beat_input (now : Z) : LoopInput :=
  mkInput link_connected now false S754_nan S754_nan 80000 true now now false
    (S754_zero false) (S754_zero false) (S754_zero false) "0.0.0.0" true now.

(** A reading of the environment sensor. *)
Definition env_input (now : Z) (t h : spec_float) : LoopInput :=
  mkInput link_connected now true t h 0 false 0 0 false
    (S754_zero false) (S754_zero false) (S754_zero false) "0.0.0.0" true now.

(** A reading of the accelerometer. *)
Definition accel_input (now : Z) (x y z : spec_float) : LoopInput :=
  mkInput link_connected now false S754_nan S754_nan 0 false 0 0 true
    x y z "0.0.0.0" true now.

(** The device lying face up and still: x = 1/128, y = -1/64, z = 1. *)
Definition still_x : spec_float := IEEE.float_lit 1 (-7).
Definition still_y : spec_float := IEEE.float_lit (-1) (-6).
Definition still_z : spec_float := IEEE.float_of_Z 1.

(** The state after [n] ticks of a session without sensors, one tick every
    three seconds. *)
Definition counting_state (n : Z) : State :=
  {| htu21d_ok := false; max30102_ok := false; accel_ok := false;
     rates := [0; 0; 0; 0]; rateSpot := 0; lastBeat := 0;
     beatsPerMinute := S754_zero false; beatAvg := 0;
     lastMsg := u32 (3000 * n); contador := n |}.

(** The state after a first beat 2800 ms after boot (BPM 21.43). *)
Definition state_bpm21 : State :=
  {| htu21d_ok := false; max30102_ok := true; accel_ok := false;
     rates := [21; 0; 0; 0]; rateSpot := 1; lastBeat := 2800;
     beatsPerMinute := bpm_of_delta 2800; beatAvg := 5;
     lastMsg := 2800; contador := 1 |}.

(** The state after a first beat 2900 ms after boot (BPM 20.69). *)
Definition state_bpm20 : State :=
  {| htu21d_ok := false; max30102_ok := true; accel_ok := false;
     rates := [20; 0; 0; 0]; rateSpot := 1; lastBeat := 2900;
     beatsPerMinute := bpm_of_delta 2900; beatAvg := 5;
     lastMsg := 2900; contador := 1 |}.

(** A state with every sensor healthy. *)
Definition state_all_ok : State := set_flags true true true boot_state.

(** ** Further notions: counting and scanning the trace *)

Definition sensor_eqb (a b : sensor) : bool :=
  match a, b with
  | HTU21D, HTU21D | MAX30105, MAX30105 | MMA8452Q, MMA8452Q => true
  | _, _ => false
  end.

(** The number of driver reads of sensor [s] in a trace. *)
Definition is_read (s : sensor) (e : event) : bool :=
  match e with ERead s' => sensor_eqb s s' | _ => false end.
Definition reads (s : sensor) (evs : list event) : nat :=
  length (List.filter (is_read s) evs).

(** The time spent in [delay], in milliseconds. *)
Fixpoint delay_total (evs : list event) : Z :=
  match evs with
  | [] => 0
  | EDelay ms :: rest => ms + delay_total rest
  | _ :: rest => delay_total rest
  end.

(** Every publication of the trace comes after a successful
    [client.connect], [connected] telling whether the client was connected
    before the trace starts. *)
Fixpoint publishes_connected (connected : bool) (evs : list event) : bool :=
  match evs with
  | [] => true
  | EConnect true :: rest => publishes_connected true rest
  | EPublish _ _ :: rest => connected && publishes_connected connected rest
  | _ :: rest => publishes_connected connected rest
  end.

Definition estado_topic (s : sensor) : string :=
  match s with
  | HTU21D => "sensores/estado_htu21d"
  | MAX30105 => "sensores/estado_max30105"
  | MMA8452Q => "sensores/estado_mma8452q"
  end.

Definition init_topic (s : sensor) : string :=
  match s with
  | HTU21D => "sensores/htu21d"
  | MAX30105 => "sensores/max30105"
  | MMA8452Q => "sensores/mma8452q"
  end.

Definition init_msg (s : sensor) : string :=
  match s with
  | HTU21D => "HTU21D inicializado correctamente"
  | MAX30105 => "MAX30105 inicializado correctamente"
  | MMA8452Q => "MMA8452Q inicializado correctamente - Escala 2g"
  end.

Definition not_found (s : sensor) : string :=
  match s with
  | HTU21D => "HTU21D no encontrado"
  | MAX30105 => "MAX30105 no encontrado"
  | MMA8452Q => "MMA8452Q no encontrado"
  end.

(** A run of detected beats, each given by its two readings of
    [millis()]. *)
Fixpoint beats (bs : list (Z * Z)) (st : State) : State :=
  match bs with
  | [] => st
  | (ms, ms') :: rest => beats rest (on_beat ms ms' st)
  end.

(** Every beat of the run passes the range test. *)
Fixpoint all_accepted (bs : list (Z * Z)) (st : State) : bool :=
  match bs with
  | [] => true
  | (ms, ms') :: rest =>
      bpm_accepted (beatsPerMinute (on_beat ms ms' st))
      && all_accepted rest (on_beat ms ms' st)
  end.

(** The payloads [c+1], [c+2], ..., [c+n] of the tick counter. *)
Definition count_from (c : Z) (n : nat) : list payload :=
  map (fun k => [FInt (c + 1 + Z.of_nat k)]) (seq 0 n).

(** The number of ticks that a run of [loop] calls fires. *)
Fixpoint ticks_fired (fuel : nat) (inputs : list LoopInput) (st : State) : nat :=
  match inputs with
  | [] => 0%nat
  | i :: rest =>
      match loop fuel i st with
      | (_, Some st') =>
          ((if tick_due i st then 1 else 0) + ticks_fired fuel rest st')%nat
      | (_, None) => 0%nat
      end
  end.

(** The label the other way up. *)
Definition flipped (o : string) : string :=
  if String.eqb o "boca_arriba" then "boca_abajo"
  else if String.eqb o "boca_abajo" then "boca_arriba"
  else o.

(** One row of the table of beat intervals: the interval [d], in
    milliseconds, is accepted exactly when 236 <= d <= 2999, and the byte
    stored for an accepted one is 60000 / d. *)
Definition interval_row (d : Z) : bool :=
  let bpm := bpm_of_delta d in
  Bool.eqb (bpm_accepted bpm) ((236 <=? d) && (d <=? 2999))
  && (negb (bpm_accepted bpm) || (IEEE.to_byte bpm =? 60000 / d)).

(** A state whose last tick was taken 1000 ms before the clock wraps. *)
Definition near_wrap_state : State :=
  {| htu21d_ok := false; max30102_ok := true; accel_ok := false;
     rates := [0; 0; 0; 0]; rateSpot := 0; lastBeat := to_long 4294966296;
     beatsPerMinute := S754_zero false; beatAvg := 0;
     lastMsg := 4294966296; contador := 7 |}.

(** The state of a session with every sensor healthy after a first tick,
    3000 ms after boot, on which the sensors had nothing to report. *)
Definition state_after_tick : State :=
  {| htu21d_ok := true; max30102_ok := true; accel_ok := true;
     rates := [0; 0; 0; 0]; rateSpot := 0; lastBeat := 0;
     beatsPerMinute := S754_zero false; beatAvg := 0;
     lastMsg := 3000; contador := 1 |}.

(** A finite value above zero. *)
Definition positive_finite (x : spec_float) : bool :=
  match x with S754_finite false _ _ => true | _ => false end.

Definition in_bpm_range (v : Z) : Prop := 20 <= v <= 254.

(** A check of every integer of [d, d + n). *)
Fixpoint all_from (f : Z -> bool) (d : Z) (n : nat) : bool :=
  match n with
  | O => true
  | S n' => f d && all_from f (d + 1) n'
  end.

(** A datum that is zero or a finite value of magnitude at most [2^k]. *)
Definition at_most_pow2 (k : Z) (x : spec_float) : Prop :=
  match x with
  | S754_zero _ => True
  | S754_finite _ m e => e <= k /\ Zpos m <= 2 ^ (k - e)
  | _ => False
  end.

(** A datum that is infinite or a finite value of magnitude at least
    [2^(j-1)]: its leading bit is at position [j] or above. *)
Definition leading_bit_from (j : Z) (x : spec_float) : Prop :=
  match x with
  | S754_infinity _ => True
  | S754_finite _ m e => j <= Zpos (digits2_pos m) + e
  | _ => False
  end.


(** * Properties *)

(** ** Rounding yields canonical values *)

Section Canonical.
Variables prec emax : Z.
Hypothesis prec_pos : 0 < prec.

Local Abbreviation fexp := (SpecFloat.fexp prec emax).
Local Abbreviation emin := (SpecFloat.emin prec emax).

Lemma fexp_mono (a b : Z) : a <= b -> fexp a <= fexp b.
Proof. unfold SpecFloat.fexp; lia. Qed.

Lemma fexp_ge_emin (a : Z) : emin <= fexp a.
Proof. unfold SpecFloat.fexp; lia. Qed.

Lemma digits2_pos_log2 (p : positive) : Zpos (digits2_pos p) = Z.log2 (Zpos p) + 1.
Proof.
  induction p as [p IH | p IH | ]; simpl digits2_pos; try reflexivity.
  - rewrite Pos2Z.inj_succ, IH.
    change (Zpos p~1) with (2 * Zpos p + 1).
    rewrite Z.log2_succ_double by lia. reflexivity.
  - rewrite Pos2Z.inj_succ, IH.
    change (Zpos p~0) with (2 * Zpos p).
    rewrite Z.log2_double by lia. reflexivity.
Qed.

Lemma Zdigits2_log2 (m : Z) : 0 < m -> Zdigits2 m = Z.log2 m + 1.
Proof. destruct m; try lia. intros _. apply digits2_pos_log2. Qed.

Lemma Zdigits2_mono (a b : Z) : 0 < a -> a <= b -> Zdigits2 a <= Zdigits2 b.
Proof.
  intros Ha Hab. rewrite !Zdigits2_log2 by lia.
  pose proof (Z.log2_le_mono a b Hab). lia.
Qed.

Lemma shr_m_shr_1 (r : shr_record) :
  0 <= shr_m r -> shr_m (shr_1 r) = Z.div2 (shr_m r).
Proof.
  destruct r as [m b s]. simpl. destruct m as [ | [p | p | ] | p]; simpl; try reflexivity; lia.
Qed.

Lemma pow2_xO (p : positive) : 2 ^ Zpos p~0 = 2 ^ Zpos p * 2 ^ Zpos p.
Proof. rewrite <- Z.pow_add_r by lia. f_equal. lia. Qed.

Lemma pow2_xI (p : positive) : 2 ^ Zpos p~1 = 2 * (2 ^ Zpos p * 2 ^ Zpos p).
Proof.
  rewrite <- Z.pow_add_r by lia. rewrite <- Z.pow_succ_r by lia. f_equal. lia.
Qed.

Lemma shr_m_iter (p : positive) : forall r : shr_record,
  0 <= shr_m r -> shr_m (SpecFloat.iter_pos shr_1 p r) = shr_m r / 2 ^ Zpos p.
Proof.
  induction p as [p IH | p IH | ]; intros r Hr; simpl SpecFloat.iter_pos.
  - assert (H1 : 0 <= shr_m (shr_1 r)).
    { rewrite shr_m_shr_1 by lia. rewrite Z.div2_div. apply Z.div_pos; lia. }
    assert (H2 : 0 <= shr_m (SpecFloat.iter_pos shr_1 p (shr_1 r))).
    { rewrite IH by lia. apply Z.div_pos; lia. }
    rewrite IH, IH, shr_m_shr_1 by lia.
    rewrite Z.div2_div, !Z.div_div by lia.
    rewrite pow2_xI. reflexivity.
  - assert (H2 : 0 <= shr_m (SpecFloat.iter_pos shr_1 p r)).
    { rewrite IH by lia. apply Z.div_pos; lia. }
    rewrite IH, IH by lia.
    rewrite Z.div_div by lia.
    rewrite pow2_xO. reflexivity.
  - rewrite shr_m_shr_1 by lia. rewrite Z.div2_div. reflexivity.
Qed.

Lemma shr_m_of_loc (m : Z) (l : location) : shr_m (shr_record_of_loc m l) = m.
Proof. destruct l as [ | [ | | ]]; reflexivity. Qed.

(** One alignment step [shr_fexp]: a positive mantissa that is not too
    short comes out canonical, or is shifted away at the least exponent. *)
Lemma shr_fexp_canonical (m e : Z) (l : location) :
  0 < m -> e <= fexp (Zdigits2 m + e) ->
  let '(r, e') := shr_fexp prec emax m e l in
  (shr_m r = 0 /\ e' = emin) \/
  (0 < shr_m r /\ fexp (Zdigits2 (shr_m r) + e') = e').
Proof.
  intros Hm He. unfold shr_fexp, shr.
  remember (fexp (Zdigits2 m + e) - e) as n eqn:Hn.
  destruct n as [ | p | p]; try lia.
  - right. rewrite shr_m_of_loc. split; lia.
  - rewrite shr_m_iter by (rewrite shr_m_of_loc; lia).
    rewrite shr_m_of_loc.
    pose proof (Z.log2_spec m Hm) as [Hlo Hhi].
    assert (Hpp : 0 < 2 ^ Zpos p) by (apply Z.pow_pos_nonneg; lia).
    rewrite Zdigits2_log2 in Hn, He by lia.
    destruct (Z.le_gt_cases (Zpos p) (Z.log2 m)) as [Hle | Hgt].
    + right.
      assert (Hq : 2 ^ (Z.log2 m - Zpos p) <= m / 2 ^ Zpos p < 2 ^ (Z.log2 m - Zpos p + 1)).
      { split.
        - apply Z.div_le_lower_bound; [exact Hpp | ].
          rewrite <- Z.pow_add_r by lia.
          replace (Zpos p + (Z.log2 m - Zpos p)) with (Z.log2 m) by lia. exact Hlo.
        - apply Z.div_lt_upper_bound; [exact Hpp | ].
          rewrite <- Z.pow_add_r by lia.
          replace (Zpos p + (Z.log2 m - Zpos p + 1)) with (Z.log2 m + 1) by lia. exact Hhi. }
      assert (Hpos : 0 < m / 2 ^ Zpos p).
      { assert (0 < 2 ^ (Z.log2 m - Zpos p)) by (apply Z.pow_pos_nonneg; lia). lia. }
      split; [exact Hpos | ].
      rewrite Zdigits2_log2 by exact Hpos.
      rewrite (Z.log2_unique (m / 2 ^ Zpos p) (Z.log2 m - Zpos p)) by (lia || exact Hq).
      replace (Z.log2 m - Zpos p + 1 + (e + Zpos p)) with (Z.log2 m + 1 + e) by lia.
      lia.
    + left. split.
      * apply Z.div_small. split; [lia | ].
        assert (2 ^ (Z.log2 m + 1) <= 2 ^ Zpos p) by (apply Z.pow_le_mono_r; lia). lia.
      * unfold SpecFloat.fexp in *. lia.
Qed.

Lemma round_nearest_even_range (m : Z) (l : location) :
  m <= round_nearest_even m l <= m + 1.
Proof.
  destruct l as [ | [ | | ]]; simpl; try lia. destruct (Z.even m); lia.
Qed.

(** [binary_round_aux] on a mantissa that is not too short. *)
Lemma binary_round_aux_valid (s : bool) (m e : Z) (l : location) :
  0 < m -> e <= fexp (Zdigits2 m + e) ->
  valid_binary prec emax (binary_round_aux prec emax s m e l) = true.
Proof.
  intros Hm He. unfold binary_round_aux.
  pose proof (shr_fexp_canonical m e l Hm He) as H1.
  destruct (shr_fexp prec emax m e l) as [r1 e1].
  pose proof (round_nearest_even_range (shr_m r1) (loc_of_shr_record r1)) as Hr.
  set (m2 := round_nearest_even (shr_m r1) (loc_of_shr_record r1)) in *.
  destruct (Z.eq_dec m2 0) as [Hz | Hnz].
  - rewrite Hz. unfold shr_fexp. simpl Zdigits2.
    destruct (shr _ _ _) as [r3 e3] eqn:Hs.
    unfold shr in Hs.
    destruct (fexp (0 + e1) - e1) as [ | p | p]; inversion Hs; subst; simpl; try reflexivity.
    assert (Hi : forall q r, shr_m r = 0 -> shr_m (SpecFloat.iter_pos shr_1 q r) = 0).
    { intros q r Hr0. rewrite shr_m_iter by lia. rewrite Hr0. apply Z.div_0_l.
      apply Z.pow_nonzero; lia. }
    rewrite Hi by reflexivity. reflexivity.
  - assert (Hm2 : 0 < m2) by (destruct H1; lia).
    assert (He2 : e1 <= fexp (Zdigits2 m2 + e1)).
    { destruct H1 as [[H0 Hemin] | [Hpos Hcan]].
      - subst e1. apply fexp_ge_emin.
      - rewrite <- Hcan at 1. apply fexp_mono.
        pose proof (Zdigits2_mono (shr_m r1) m2 Hpos). lia. }
    pose proof (shr_fexp_canonical m2 e1 loc_Exact Hm2 He2) as H3.
    destruct (shr_fexp prec emax m2 e1 loc_Exact) as [r3 e3].
    destruct (shr_m r3) as [ | p3 | p3] eqn:Hr3; try reflexivity.
    destruct (e3 <=? emax - prec) eqn:Hle; try reflexivity.
    simpl. unfold bounded, canonical_mantissa.
    rewrite Hle, Bool.andb_true_r.
    destruct H3 as [[H0 _] | [_ Hcan]]; [discriminate | ].
    simpl Zdigits2 in Hcan. apply Z.eqb_eq. exact Hcan.
Qed.

Lemma digits2_pos_iter_xO (m d : positive) :
  Zpos (digits2_pos (Pos.iter xO m d)) = Zpos (digits2_pos m) + Zpos d.
Proof.
  induction d as [ | d IH] using Pos.peano_ind.
  - simpl. lia.
  - rewrite Pos.iter_succ. simpl digits2_pos. lia.
Qed.

(** Every rounded value is a valid member of the format. *)
Lemma binary_round_valid (s : bool) (m : positive) (e : Z) :
  valid_binary prec emax (binary_round prec emax s m e) = true.
Proof.
  unfold binary_round, shl_align.
  remember (fexp (Zpos (digits2_pos m) + e)) as e' eqn:He'.
  destruct (e' - e) as [ | d | d] eqn:Hd.
  - apply binary_round_aux_valid; [lia | ]. simpl Zdigits2. lia.
  - apply binary_round_aux_valid; [lia | ]. simpl Zdigits2. lia.
  - apply binary_round_aux_valid; [lia | ]. simpl Zdigits2.
    rewrite digits2_pos_iter_xO.
    replace (Zpos (digits2_pos m) + Zpos d + e') with (Zpos (digits2_pos m) + e) by lia.
    lia.
Qed.

Lemma convert_valid (x : spec_float) :
  valid_binary prec emax (IEEE.convert prec emax x) = true.
Proof. destruct x; simpl; try reflexivity. apply binary_round_valid. Qed.

End Canonical.

(** ** Comparisons and truncation *)

Lemma SFcompare_antisym (x y : spec_float) :
  SFcompare y x = option_map CompOpp (SFcompare x y).
Proof.
  destruct x as [sx | sx | | sx mx ex], y as [sy | sy | | sy my ey]; simpl;
    try reflexivity;
    try (destruct sx; reflexivity); try (destruct sy; reflexivity);
    try (destruct sx, sy; reflexivity).
  change (Pos.compare_cont Eq my mx) with (Pos.compare my mx).
  change (Pos.compare_cont Eq mx my) with (Pos.compare mx my).
  rewrite (Z.compare_antisym ex ey), (Pos.compare_antisym mx my).
  destruct sx, sy; try reflexivity;
    destruct (ex ?= ey); simpl; try reflexivity;
    destruct (mx ?= my)%positive; reflexivity.
Qed.

(** [a <= b] excludes [b < a], NaN included. *)
Lemma fle_not_fgt (a b : spec_float) : IEEE.fle a b = true -> IEEE.fgt a b = false.
Proof.
  unfold IEEE.fle, IEEE.fgt, SFleb, SFltb. rewrite (SFcompare_antisym a b).
  destruct (SFcompare a b) as [[ | | ] | ]; simpl; congruence.
Qed.

Lemma fge_not_flt (a b : spec_float) : IEEE.fge a b = true -> IEEE.flt a b = false.
Proof.
  unfold IEEE.fge, IEEE.flt, SFleb, SFltb. rewrite (SFcompare_antisym a b).
  destruct (SFcompare a b) as [[ | | ] | ]; simpl; congruence.
Qed.

Lemma float_20 : IEEE.float_of_Z 20 = S754_finite false 10485760 (-19).
Proof. reflexivity. Qed.

Lemma float_255 : IEEE.float_of_Z 255 = S754_finite false 16711680 (-16).
Proof. reflexivity. Qed.

Lemma SFltb_pos_pos (m1 m2 : positive) (e1 e2 : Z) :
  SFltb (S754_finite false m1 e1) (S754_finite false m2 e2) = true ->
  e1 < e2 \/ (e1 = e2 /\ Zpos m1 < Zpos m2).
Proof.
  unfold SFltb, SFcompare.
  change (Pos.compare_cont Eq m1 m2) with (Pos.compare m1 m2).
  destruct (Z.compare_spec e1 e2); try discriminate; [ | lia].
  destruct (Pos.compare_spec m1 m2); try discriminate. lia.
Qed.

(** A canonical binary32 value above the least normal exponent has a
    24-bit mantissa. *)
Lemma bounded_normal (m : positive) (e : Z) :
  bounded IEEE.fprec IEEE.femax m e = true -> -149 < e ->
  8388608 <= Zpos m < 16777216.
Proof.
  unfold bounded, canonical_mantissa, SpecFloat.fexp, SpecFloat.emin, IEEE.fprec, IEEE.femax.
  intros H He. apply andb_prop in H as [H _]. apply Z.eqb_eq in H.
  rewrite digits2_pos_log2 in H.
  assert (Hl : Z.log2 (Zpos m) = 23) by lia.
  pose proof (Z.log2_spec (Zpos m) eq_refl) as Hs. rewrite Hl in Hs.
  exact Hs.
Qed.

Lemma trunc_mag_neg (m : positive) (e : Z) :
  e < 0 -> IEEE.trunc_mag m e = Zpos m / 2 ^ (- e).
Proof.
  intros He. unfold IEEE.trunc_mag.
  destruct (Z.leb_spec 0 e); [lia | ]. apply Z.shiftr_div_pow2. lia.
Qed.

(** The conversions of a positive value below one unit in the last
    place of an integer. *)
Lemma to_int_pos (m : positive) (e : Z) :
  e < 0 -> Zpos m <= IEEE.int_max ->
  IEEE.to_int (S754_finite false m e) = Some (Zpos m / 2 ^ (- e)).
Proof.
  intros He Hm. unfold IEEE.to_int, cond_Zopp. rewrite trunc_mag_neg by lia.
  assert (Hp : 0 < 2 ^ (- e)) by (apply Z.pow_pos_nonneg; lia).
  assert (Hq : 0 <= Zpos m / 2 ^ (- e) <= Zpos m).
  { split; [apply Z.div_pos; lia | ].
    apply Z.div_le_upper_bound; [exact Hp | nia]. }
  unfold IEEE.int_min, IEEE.int_max in *.
  destruct (Z.leb_spec (-2147483648) (Zpos m / 2 ^ (- e))); [ | lia].
  destruct (Z.leb_spec (Zpos m / 2 ^ (- e)) 2147483647); [reflexivity | lia].
Qed.

Lemma to_byte_pos (m : positive) (e : Z) :
  e < 0 -> Zpos m <= IEEE.int_max ->
  IEEE.to_byte (S754_finite false m e) = (Zpos m / 2 ^ (- e)) mod 256.
Proof. intros He Hm. unfold IEEE.to_byte. rewrite to_int_pos by assumption. reflexivity. Qed.

(** The range test of the estimator, on a member of the format: the byte that is
    stored lies in [20, 254]. *)
Lemma accepted_byte_range (f : spec_float) :
  valid_binary IEEE.fprec IEEE.femax f = true ->
  bpm_accepted f = true ->
  20 <= IEEE.to_byte f <= 254.
Proof.
  intros Hv Ha. unfold bpm_accepted, IEEE.flt, IEEE.fgt in Ha.
  rewrite float_20, float_255 in Ha.
  apply andb_prop in Ha as [Hlt Hgt].
  destruct f as [s | s | | s m e]; try (destruct s; discriminate); try discriminate.
  destruct s; [discriminate | ].
  apply SFltb_pos_pos in Hlt, Hgt.
  simpl valid_binary in Hv.
  assert (He : -19 <= e <= -16) by lia.
  pose proof (bounded_normal m e Hv ltac:(lia)) as Hm.
  assert (Hm' : (e = -16 -> Zpos m < 16711680) /\ (e = -19 -> 10485760 < Zpos m)) by lia.
  destruct Hm' as [H16 H19].
  rewrite to_byte_pos by (unfold IEEE.int_max; lia).
  assert (Hc : e = -16 \/ e = -17 \/ e = -18 \/ e = -19) by lia.
  destruct Hc as [-> | [-> | [-> | ->]]];
    [ change (2 ^ (- (-16))) with 65536
    | change (2 ^ (- (-17))) with 131072
    | change (2 ^ (- (-18))) with 262144
    | change (2 ^ (- (-19))) with 524288 ];
    Z.div_mod_to_equations; lia.
Qed.

(** On a value that passes the range test the conversion [(int)x] is
    defined, and fits the byte that is stored. *)
Lemma accepted_int_defined (f : spec_float) :
  valid_binary IEEE.fprec IEEE.femax f = true ->
  bpm_accepted f = true ->
  IEEE.to_int f = Some (IEEE.to_byte f).
Proof.
  intros Hv Ha. pose proof (accepted_byte_range f Hv Ha) as Hb.
  unfold IEEE.to_byte in *.
  destruct (IEEE.to_int f) as [t | ] eqn:Ht; [ | lia].
  f_equal. symmetry. apply Z.mod_small.
  unfold bpm_accepted, IEEE.flt, IEEE.fgt in Ha.
  rewrite float_20, float_255 in Ha.
  apply andb_prop in Ha as [Hlt Hgt].
  destruct f as [s | s | | s m e]; try (destruct s; discriminate); try discriminate.
  destruct s; [discriminate | ].
  apply SFltb_pos_pos in Hlt, Hgt.
  simpl valid_binary in Hv.
  assert (He : -19 <= e <= -16) by lia.
  pose proof (bounded_normal m e Hv ltac:(lia)) as Hm.
  rewrite to_int_pos in Ht by (unfold IEEE.int_max; lia).
  injection Ht as <-.
  assert (Hp : 65536 <= 2 ^ (- e)).
  { change 65536 with (2 ^ 16). apply Z.pow_le_mono_r; lia. }
  split; [apply Z.div_pos; lia | ].
  apply Z.div_lt_upper_bound; lia.
Qed.

Lemma bpm_of_delta_valid (delta : Z) :
  valid_binary IEEE.fprec IEEE.femax (bpm_of_delta delta) = true.
Proof. apply convert_valid. reflexivity. Qed.

(** ** The value of a floating-point datum *)

Section Values.
Variables prec emax : Z.
Hypothesis prec_pos : 0 < prec.
Hypothesis emin_ge : -1074 <= SpecFloat.emin prec emax.

Local Abbreviation fexp := (SpecFloat.fexp prec emax).
Local Abbreviation emin := (SpecFloat.emin prec emax).

Lemma bounded_facts (m : positive) (e : Z) :
  bounded prec emax m e = true ->
  emin <= e /\ Zpos m < 2 ^ prec /\ (emin < e -> 2 ^ (prec - 1) <= Zpos m).
Proof.
  unfold bounded, canonical_mantissa. intros H.
  apply andb_prop in H as [H _]. apply Z.eqb_eq in H.
  rewrite digits2_pos_log2 in H. unfold SpecFloat.fexp in H.
  pose proof (Z.log2_spec (Zpos m) eq_refl) as [Hlo Hhi].
  pose proof (Z.log2_nonneg (Zpos m)) as Hnn.
  split; [lia | split].
  - assert (2 ^ (Z.log2 (Zpos m) + 1) <= 2 ^ prec) by (apply Z.pow_le_mono_r; lia). lia.
  - intros He. replace (prec - 1) with (Z.log2 (Zpos m)) by lia. exact Hlo.
Qed.

(** On canonical mantissas the exponent decides. *)
Lemma scaled_lt_of_exponent (m1 m2 : positive) (e1 e2 : Z) :
  bounded prec emax m1 e1 = true -> bounded prec emax m2 e2 = true ->
  e1 < e2 ->
  Zpos m1 * 2 ^ (e1 + 1074) < Zpos m2 * 2 ^ (e2 + 1074).
Proof.
  intros H1 H2 He.
  destruct (bounded_facts m1 e1 H1) as (Hm1 & Hu1 & _).
  destruct (bounded_facts m2 e2 H2) as (Hm2 & _ & Hl2).
  specialize (Hl2 ltac:(lia)).
  assert (Hp : 0 < 2 ^ (e1 + 1074)) by (apply Z.pow_pos_nonneg; lia).
  assert (Hq : 2 * 2 ^ (e1 + 1074) <= 2 ^ (e2 + 1074)).
  { rewrite <- Z.pow_succ_r by lia. apply Z.pow_le_mono_r; lia. }
  assert (Hr : 2 ^ prec = 2 * 2 ^ (prec - 1)).
  { rewrite <- Z.pow_succ_r by lia. f_equal. lia. }
  nia.
Qed.

Lemma compare_finite_pos (m1 m2 : positive) (e1 e2 : Z) :
  bounded prec emax m1 e1 = true -> bounded prec emax m2 e2 = true ->
  match e1 ?= e2 with
  | Lt => Lt
  | Gt => Gt
  | Eq => Pos.compare_cont Eq m1 m2
  end = (Zpos m1 * 2 ^ (e1 + 1074) ?= Zpos m2 * 2 ^ (e2 + 1074)).
Proof.
  intros H1 H2. symmetry.
  destruct (Z.compare_spec e1 e2) as [-> | Hlt | Hgt].
  - change (Pos.compare_cont Eq m1 m2) with (Zpos m1 ?= Zpos m2).
    assert (Hp : 0 < 2 ^ (e2 + 1074)).
    { apply Z.pow_pos_nonneg; [lia | ].
      destruct (bounded_facts m2 e2 H2) as (Hm & _). lia. }
    destruct (Z.compare_spec (Zpos m1) (Zpos m2)) as [Heq | Hlt | Hgt].
    + rewrite Heq. apply Z.compare_refl.
    + apply Z.compare_lt_iff. nia.
    + apply Z.compare_gt_iff. nia.
  - apply Z.compare_lt_iff. apply scaled_lt_of_exponent; assumption.
  - apply Z.compare_gt_iff. apply scaled_lt_of_exponent; assumption.
Qed.

Lemma scaled_finite_pos (m : positive) (e : Z) :
  bounded prec emax m e = true -> 0 < Zpos m * 2 ^ (e + 1074).
Proof.
  intros H. destruct (bounded_facts m e H) as (Hm & _).
  apply Z.mul_pos_pos; [lia | apply Z.pow_pos_nonneg; lia].
Qed.

(** The comparison of two finite members of a format is the comparison
    of their values. *)
Lemma SFcompare_scaled (x y : spec_float) :
  valid_binary prec emax x = true -> valid_binary prec emax y = true ->
  is_finite x = true -> is_finite y = true ->
  SFcompare x y = Some (scaled x ?= scaled y).
Proof.
  intros Vx Vy Fx Fy.
  destruct x as [sx | sx | | sx mx ex], y as [sy | sy | | sy my ey];
    try discriminate; simpl in Vx, Vy; unfold scaled, cond_Zopp, SFcompare.
  - reflexivity.
  - pose proof (scaled_finite_pos my ey Vy). destruct sy; f_equal; symmetry.
    + apply Z.compare_gt_iff. lia.
    + apply Z.compare_lt_iff. lia.
  - pose proof (scaled_finite_pos mx ex Vx). destruct sx; f_equal; symmetry.
    + apply Z.compare_lt_iff. lia.
    + apply Z.compare_gt_iff. lia.
  - pose proof (scaled_finite_pos mx ex Vx). pose proof (scaled_finite_pos my ey Vy).
    destruct sx, sy; f_equal.
    + rewrite Z.compare_opp.
      rewrite (Z.compare_antisym (Zpos mx * 2 ^ (ex + 1074)) (Zpos my * 2 ^ (ey + 1074))).
      rewrite <- (compare_finite_pos mx my ex ey Vx Vy).
      destruct (ex ?= ey); reflexivity.
    + symmetry. apply Z.compare_lt_iff. lia.
    + symmetry. apply Z.compare_gt_iff. lia.
    + apply compare_finite_pos; assumption.
Qed.

Lemma SFltb_scaled (x y : spec_float) :
  valid_binary prec emax x = true -> valid_binary prec emax y = true ->
  is_finite x = true -> is_finite y = true ->
  SFltb x y = (scaled x <? scaled y).
Proof.
  intros Vx Vy Fx Fy. unfold SFltb, Z.ltb.
  rewrite (SFcompare_scaled x y Vx Vy Fx Fy). reflexivity.
Qed.

Lemma SFleb_scaled (x y : spec_float) :
  valid_binary prec emax x = true -> valid_binary prec emax y = true ->
  is_finite x = true -> is_finite y = true ->
  SFleb x y = (scaled x <=? scaled y).
Proof.
  intros Vx Vy Fx Fy. unfold SFleb, Z.leb.
  rewrite (SFcompare_scaled x y Vx Vy Fx Fy).
  destruct (scaled x ?= scaled y); reflexivity.
Qed.

End Values.

(** A mantissa that is already canonical is left alone. *)
Lemma binary_round_aux_exact (prec emax : Z) (s : bool) (p : positive) (e : Z) :
  SpecFloat.fexp prec emax (Zpos (digits2_pos p) + e) = e ->
  e <= emax - prec ->
  binary_round_aux prec emax s (Zpos p) e loc_Exact = S754_finite s p e.
Proof.
  intros Hc He. unfold binary_round_aux, shr_fexp. simpl Zdigits2.
  rewrite Hc, Z.sub_diag. simpl. rewrite Hc, Z.sub_diag. simpl.
  destruct (Z.leb_spec e (emax - prec)); [reflexivity | lia].
Qed.

Lemma Zpos_iter_xO (m d : positive) : Zpos (Pos.iter xO m d) = Zpos m * 2 ^ Zpos d.
Proof.
  induction d as [ | d IH] using Pos.peano_ind.
  - simpl. lia.
  - rewrite Pos.iter_succ, Pos2Z.inj_xO, IH, Pos2Z.inj_succ, Z.pow_succ_r by lia. lia.
Qed.

(** The promotion of a [float] to [double] is exact. *)
Lemma double_of_float_exact (z : spec_float) :
  valid_binary IEEE.fprec IEEE.femax z = true -> is_finite z = true ->
  is_finite (IEEE.double_of_float z) = true /\
  scaled (IEEE.double_of_float z) = scaled z.
Proof.
  intros Hv Hf. destruct z as [s | s | | s m e]; try discriminate; [split; reflexivity | ].
  simpl in Hv.
  assert (He : -149 <= e <= 104 /\ Zpos (digits2_pos m) <= 24).
  { unfold bounded, canonical_mantissa, SpecFloat.fexp, SpecFloat.emin,
      IEEE.fprec, IEEE.femax in Hv.
    apply andb_prop in Hv as [H1 H2]. apply Z.eqb_eq in H1. apply Z.leb_le in H2. lia. }
  destruct He as [He Hd].
  unfold IEEE.double_of_float, IEEE.convert, binary_round, shl_align.
  remember (SpecFloat.fexp IEEE.dprec IEEE.demax (Zpos (digits2_pos m) + e)) as e' eqn:He'.
  assert (Hlt : -1074 <= e' < e).
  { unfold SpecFloat.fexp, SpecFloat.emin, IEEE.dprec, IEEE.demax in He'. lia. }
  destruct (e' - e) as [ | d | d] eqn:Hd'; try lia.
  rewrite binary_round_aux_exact.
  - split; [reflexivity | ].
    unfold scaled. f_equal. rewrite Zpos_iter_xO.
    replace (e + 1074) with (Zpos d + (e' + 1074)) by lia.
    rewrite (Z.pow_add_r 2 (Zpos d) (e' + 1074)) by lia. ring.
  - rewrite digits2_pos_iter_xO.
    replace (Zpos (digits2_pos m) + Zpos d + e') with (Zpos (digits2_pos m) + e) by lia.
    symmetry. exact He'.
  - unfold IEEE.demax, IEEE.dprec. lia.
Qed.

Lemma double_of_float_valid (z : spec_float) :
  valid_binary IEEE.dprec IEEE.demax (IEEE.double_of_float z) = true.
Proof. apply convert_valid. reflexivity. Qed.

Lemma SFabs_facts (prec emax : Z) (x : spec_float) :
  valid_binary prec emax (SFabs x) = valid_binary prec emax x /\
  is_finite (SFabs x) = is_finite x /\
  scaled (SFabs x) = Z.abs (scaled x).
Proof.
  destruct x as [s | s | | s m e]; simpl; repeat split.
  assert (0 <= Zpos m * 2 ^ (e + 1074)).
  { apply Z.mul_nonneg_nonneg; [lia | apply Z.pow_nonneg; lia]. }
  destruct s; simpl; lia.
Qed.

Lemma value_lt (a b : spec_float) : (value a < value b)%Q <-> scaled a < scaled b.
Proof.
  unfold value, Qlt. simpl. split; intros H.
  - apply Z.mul_lt_mono_pos_r in H; [exact H | reflexivity].
  - apply Z.mul_lt_mono_pos_r; [reflexivity | exact H].
Qed.

Lemma value_le (a b : spec_float) : (value a <= value b)%Q <-> scaled a <= scaled b.
Proof.
  unfold value, Qle. simpl. split; intros H.
  - apply Z.mul_le_mono_pos_r in H; [exact H | reflexivity].
  - apply Z.mul_le_mono_pos_r; [reflexivity | exact H].
Qed.

Lemma value_abs (prec emax : Z) (x : spec_float) : Qabs (value x) = value (SFabs x).
Proof.
  unfold value. destruct (SFabs_facts prec emax x) as (_ & _ & ->). reflexivity.
Qed.

Lemma value_half : (value half == 1 # 2)%Q.
Proof. vm_compute. reflexivity. Qed.

Lemma value_minus_half : (value (SFopp half) == - (1 # 2))%Q.
Proof. vm_compute. reflexivity. Qed.

Lemma value_of_Z_examples :
  (value (IEEE.float_of_Z 20) == 20)%Q /\ (value (IEEE.float_of_Z 255) == 255)%Q /\
  (value (IEEE.float_of_Z (-40)) == -40)%Q /\ (value (IEEE.float_of_Z 125) == 125)%Q /\
  (value (IEEE.float_of_Z 0) == 0)%Q /\ (value (IEEE.float_of_Z 100) == 100)%Q /\
  (value (IEEE.float_of_Z (-4)) == -4)%Q /\ (value (IEEE.float_of_Z 4) == 4)%Q.
Proof. repeat split; vm_compute; reflexivity. Qed.

Lemma flt32_scaled (x y : spec_float) :
  valid_binary IEEE.fprec IEEE.femax x = true -> valid_binary IEEE.fprec IEEE.femax y = true ->
  is_finite x = true -> is_finite y = true ->
  SFltb x y = (scaled x <? scaled y).
Proof. apply SFltb_scaled; [reflexivity | vm_compute; discriminate]. Qed.

Lemma fle32_scaled (x y : spec_float) :
  valid_binary IEEE.fprec IEEE.femax x = true -> valid_binary IEEE.fprec IEEE.femax y = true ->
  is_finite x = true -> is_finite y = true ->
  SFleb x y = (scaled x <=? scaled y).
Proof. apply SFleb_scaled; [reflexivity | vm_compute; discriminate]. Qed.

Lemma flt64_scaled (x y : spec_float) :
  valid_binary IEEE.dprec IEEE.demax x = true -> valid_binary IEEE.dprec IEEE.demax y = true ->
  is_finite x = true -> is_finite y = true ->
  SFltb x y = (scaled x <? scaled y).
Proof. apply SFltb_scaled; [reflexivity | vm_compute; discriminate]. Qed.

(** The three tests of the orientation rule, on the values of finite
    inputs. *)
Lemma orientation_tests_values (x z : spec_float) :
  valid_binary IEEE.fprec IEEE.femax x = true -> is_finite x = true ->
  valid_binary IEEE.fprec IEEE.femax z = true -> is_finite z = true ->
  (IEEE.fgt (SFabs z) (SFabs x) = true <-> (Qabs (value x) < Qabs (value z))%Q) /\
  (z_above_half z = true <-> (1 # 2 < value z)%Q) /\
  (z_below_minus_half z = true <-> (value z < - (1 # 2))%Q).
Proof.
  intros Vx Fx Vz Fz.
  destruct (SFabs_facts IEEE.fprec IEEE.femax x) as (Vax & Fax & _).
  destruct (SFabs_facts IEEE.fprec IEEE.femax z) as (Vaz & Faz & _).
  rewrite Vx in Vax. rewrite Vz in Vaz. rewrite Fx in Fax. rewrite Fz in Faz.
  destruct (double_of_float_exact z Vz Fz) as [Fd Sd].
  pose proof (double_of_float_valid z) as Vd.
  split; [ | split].
  - unfold IEEE.fgt. rewrite (flt32_scaled _ _ Vax Vaz Fax Faz).
    rewrite !(value_abs IEEE.fprec IEEE.femax), value_lt. apply Z.ltb_lt.
  - unfold z_above_half, IEEE.fgt.
    rewrite (flt64_scaled half _ eq_refl Vd eq_refl Fd).
    rewrite Sd, <- value_half, value_lt. apply Z.ltb_lt.
  - unfold z_below_minus_half, IEEE.flt.
    rewrite (flt64_scaled _ (SFopp half) Vd eq_refl Fd eq_refl).
    rewrite Sd, <- value_minus_half, value_lt. apply Z.ltb_lt.
Qed.

Lemma scaled_20 : scaled (IEEE.float_of_Z 20) = 20 * 2 ^ 1074.
Proof. vm_compute. reflexivity. Qed.

Lemma scaled_255 : scaled (IEEE.float_of_Z 255) = 255 * 2 ^ 1074.
Proof. vm_compute. reflexivity. Qed.

(** A value that passes the range test of the estimator is finite and lies
    strictly between 20 and 255; the byte that is stored is its integer
    part. *)
Lemma accepted_value (f : spec_float) :
  valid_binary IEEE.fprec IEEE.femax f = true ->
  bpm_accepted f = true ->
  (20 < value f)%Q /\ (value f < 255)%Q /\ IEEE.to_byte f = Qfloor (value f).
Proof.
  intros Hv Ha. pose proof (accepted_byte_range f Hv Ha) as Hb.
  unfold bpm_accepted, IEEE.flt, IEEE.fgt in Ha.
  apply andb_prop in Ha as [Hlt Hgt].
  assert (Hf : is_finite f = true).
  { destruct f as [s | s | | s m e]; try reflexivity; try discriminate;
      destruct s; discriminate. }
  rewrite (flt32_scaled f (IEEE.float_of_Z 255) Hv eq_refl Hf eq_refl) in Hlt.
  rewrite (flt32_scaled (IEEE.float_of_Z 20) f eq_refl Hv eq_refl Hf) in Hgt.
  apply Z.ltb_lt in Hlt, Hgt.
  destruct value_of_Z_examples as (E20 & E255 & _).
  split; [rewrite <- E20; apply value_lt; exact Hgt | ].
  split; [rewrite <- E255; apply value_lt; exact Hlt | ].
  rewrite scaled_20 in Hgt. rewrite scaled_255 in Hlt.
  assert (Hbig : 0 < 2 ^ 1074) by reflexivity.
  destruct f as [s | s | | s m e]; try discriminate Hf.
  - simpl in Hgt. lia.
  - assert (Hnn : 0 <= Zpos m * 2 ^ (e + 1074)).
    { apply Z.mul_nonneg_nonneg; [lia | apply Z.pow_nonneg; lia]. }
    unfold scaled, cond_Zopp in Hgt, Hlt.
    destruct s; [lia | ].
    + assert (He : -149 <= e < 0).
      { simpl in Hv. apply (bounded_facts IEEE.fprec IEEE.femax eq_refl) in Hv.
        destruct Hv as (Hemin & _ & Hlow).
        unfold SpecFloat.emin, IEEE.fprec, IEEE.femax in Hemin, Hlow.
        split; [lia | ].
        destruct (Z.lt_ge_cases e 0) as [Hneg | Hpos]; [exact Hneg | exfalso].
        specialize (Hlow ltac:(lia)).
        change (2 ^ (24 - 1)) with 8388608 in Hlow.
        assert (2 ^ 1074 <= 2 ^ (e + 1074)) by (apply Z.pow_le_mono_r; lia).
        nia. }
      unfold value, Qfloor, scaled, cond_Zopp.
      assert (Hm24 : Zpos m < 16777216).
      { simpl in Hv. apply (bounded_facts IEEE.fprec IEEE.femax eq_refl) in Hv.
        destruct Hv as (_ & Hup & _). exact Hup. }
      rewrite to_byte_pos in * by (unfold IEEE.int_max; lia).
      assert (Hq : Zpos m * 2 ^ (e + 1074) / Zpos (2 ^ 1074) = Zpos m / 2 ^ (- e)).
      { assert (Hsplit : Zpos (2 ^ 1074) = 2 ^ (- e) * 2 ^ (e + 1074)).
        { rewrite <- Z.pow_add_r by lia. replace (- e + (e + 1074)) with 1074 by lia.
          reflexivity. }
        rewrite Hsplit. apply Z.div_mul_cancel_r.
        - apply Z.pow_nonzero; lia.
        - apply Z.pow_nonzero; lia. }
      rewrite Hq.
      assert (Hr : 0 <= Zpos m / 2 ^ (- e)).
      { apply Z.div_pos; [lia | apply Z.pow_pos_nonneg; lia]. }
      set (q := Zpos m / 2 ^ (- e)) in *.
      assert (Hsmall : q < 256).
      { destruct (Z.lt_ge_cases q 256) as [Hs | Hq256]; [exact Hs | exfalso].
        unfold q in Hq256.
        assert (Hpe : 0 < 2 ^ (- e)) by (apply Z.pow_pos_nonneg; lia).
        pose proof (Z.mul_div_le (Zpos m) (2 ^ (- e)) Hpe) as Hmd.
        assert (Hsplit : 2 ^ 1074 = 2 ^ (- e) * 2 ^ (e + 1074)).
        { rewrite <- Z.pow_add_r by lia. f_equal. lia. }
        assert (Hp' : 0 < 2 ^ (e + 1074)) by (apply Z.pow_pos_nonneg; lia).
        rewrite Hsplit in Hlt. nia. }
      Z.div_mod_to_equations. lia.
Qed.

(** Validity of a temperature and of a humidity, on values. *)
Lemma temperatura_valida_value (t : spec_float) :
  valid_binary IEEE.fprec IEEE.femax t = true ->
  (temperatura_valida t = true <->
   is_finite t = true /\ (-40 <= value t)%Q /\ (value t <= 125)%Q).
Proof.
  intros Hv. destruct value_of_Z_examples as (_ & _ & Em40 & E125 & _).
  destruct (is_finite t) eqn:Hf.
  - unfold temperatura_valida, IEEE.fge, IEEE.fle.
    rewrite (fle32_scaled (IEEE.float_of_Z (-40)) t eq_refl Hv eq_refl Hf).
    rewrite (fle32_scaled t (IEEE.float_of_Z 125) Hv eq_refl Hf eq_refl).
    rewrite <- Em40, <- E125, !value_le.
    destruct t as [s | s | | s m e]; try discriminate Hf; simpl IEEE.isnan; simpl negb;
      rewrite !Bool.andb_true_iff, !Z.leb_le; tauto.
  - destruct t as [s | s | | s m e]; try discriminate Hf.
    + split; [destruct s; discriminate | intros [H _]; discriminate].
    + split; [discriminate | intros [H _]; discriminate].
Qed.

Lemma humedad_valida_value (h : spec_float) :
  valid_binary IEEE.fprec IEEE.femax h = true ->
  (humedad_valida h = true <->
   is_finite h = true /\ (0 <= value h)%Q /\ (value h <= 100)%Q).
Proof.
  intros Hv. destruct value_of_Z_examples as (_ & _ & _ & _ & E0 & E100 & _).
  destruct (is_finite h) eqn:Hf.
  - unfold humedad_valida, IEEE.fge, IEEE.fle.
    rewrite (fle32_scaled (IEEE.float_of_Z 0) h eq_refl Hv eq_refl Hf).
    rewrite (fle32_scaled h (IEEE.float_of_Z 100) Hv eq_refl Hf eq_refl).
    rewrite <- E0, <- E100, !value_le.
    destruct h as [s | s | | s m e]; try discriminate Hf; simpl IEEE.isnan; simpl negb;
      rewrite !Bool.andb_true_iff, !Z.leb_le; tauto.
  - destruct h as [s | s | | s m e]; try discriminate Hf.
    + split; [destruct s; discriminate | intros [H _]; discriminate].
    + split; [discriminate | intros [H _]; discriminate].
Qed.

(** An axis passes its sanity check exactly when its value is within
    [-4, 4]. *)
Lemma axis_ok_value (v : spec_float) :
  valid_binary IEEE.fprec IEEE.femax v = true -> is_finite v = true ->
  (axis_ok v = true <-> (-4 <= value v)%Q /\ (value v <= 4)%Q).
Proof.
  intros Hv Hf. destruct value_of_Z_examples as (_ & _ & _ & _ & _ & _ & Em4 & E4).
  unfold axis_ok, IEEE.fge, IEEE.fle.
  rewrite (fle32_scaled (IEEE.float_of_Z (-4)) v eq_refl Hv eq_refl Hf).
  rewrite (fle32_scaled v (IEEE.float_of_Z 4) Hv eq_refl Hf eq_refl).
  rewrite <- Em4, <- E4, !value_le.
  rewrite !Bool.andb_true_iff, !Z.leb_le. tauto.
Qed.

(** ** Machine integers *)

Lemma wrap_int_small (z : Z) : -2147483648 <= z < 2147483648 -> wrap_int z = z.
Proof.
  intros Hz. unfold wrap_int, to_long, u32.
  destruct (Z.ltb_spec (z mod 4294967296) 2147483648); Z.div_mod_to_equations; lia.
Qed.


Lemma u32_sub (a b : Z) : u32 (u32 a - u32 b) = u32 (a - b).
Proof. unfold u32. symmetry. apply Zminus_mod. Qed.

(** ** The heart-rate state *)

Lemma slot_ok_byte (v : Z) : slot_ok v -> 0 <= v < 256.
Proof. unfold slot_ok. lia. Qed.

Lemma sum_rates_four (a b c d : Z) :
  0 <= a < 256 -> 0 <= b < 256 -> 0 <= c < 256 -> 0 <= d < 256 ->
  sum_rates [a; b; c; d] = a + b + c + d.
Proof.
  intros Ha Hb Hc Hd. unfold sum_rates. simpl.
  rewrite (wrap_int_small (0 + a)) by lia.
  rewrite (wrap_int_small (0 + a + b)) by lia.
  rewrite (wrap_int_small (0 + a + b + c)) by lia.
  rewrite (wrap_int_small (0 + a + b + c + d)) by lia.
  lia.
Qed.

Lemma four_slots (r : list Z) :
  length r = 4%nat -> exists a b c d, r = [a; b; c; d].
Proof.
  destruct r as [ | a [ | b [ | c [ | d [ | e r]]]]]; simpl; try discriminate.
  intros _. eauto.
Qed.

Lemma heart_inv_boot (h m a : bool) : heart_inv (set_flags h m a boot_state).
Proof.
  unfold heart_inv. simpl. repeat split; try lia.
  repeat constructor; left; reflexivity.
Qed.

Lemma next_spot_range (s : Z) :
  0 <= s < RATE_SIZE -> 0 <= to_u8 (Z.rem (to_u8 (s + 1)) RATE_SIZE) < RATE_SIZE.
Proof.
  unfold RATE_SIZE. intros Hs.
  assert (Hc : s = 0 \/ s = 1 \/ s = 2 \/ s = 3) by lia.
  destruct Hc as [-> | [-> | [-> | ->]]]; vm_compute; split; congruence.
Qed.

Lemma heart_inv_on_beat (ms ms' : Z) (st : State) :
  heart_inv st -> heart_inv (on_beat ms ms' st).
Proof.
  intros (Hlen & Hall & Hspot & Havg). unfold on_beat.
  destruct (bpm_accepted _) eqn:Hacc; unfold heart_inv; simpl.
  - repeat split.
    + rewrite length_insert. exact Hlen.
    + apply Forall_insert; [exact Hall | ]. right.
      apply accepted_byte_range; [apply bpm_of_delta_valid | exact Hacc].
    + apply next_spot_range. exact Hspot.
    + apply next_spot_range. exact Hspot.
  - repeat split; try assumption; lia.
Qed.

Lemma heart_inv_tick (i : LoopInput) (st : State) :
  heart_inv st -> heart_inv (fst (tick i st)).
Proof.
  intros H. unfold tick, read_max30105. simpl.
  destruct (max30102_ok st); simpl; [ | exact H].
  destruct (in_beat i); [ | exact H].
  apply heart_inv_on_beat. exact H.
Qed.

Lemma loop_returns (fuel : nat) (i : LoopInput) (st st' : State) (ev : list event) :
  loop fuel i st = (ev, Some st') ->
  st' = (if tick_due i st then fst (tick i st) else st).
Proof.
  unfold loop. destruct (reconnect fuel (in_link i)) as [ev0 [ | ]]; [ | discriminate].
  destruct (tick_due i st).
  - destruct (tick i st) as [st2 ev2]. simpl. congruence.
  - congruence.
Qed.

Lemma setup_returns (fuel : nat) (b : BootInput) (st : State) (ev : list event) :
  setup fuel b = (ev, Some st) ->
  st = set_flags (htu_begin b) (max_begin b) (accel_begin b) boot_state.
Proof.
  unfold setup. destruct (reconnect fuel (boot_link b)) as [ev0 [ | ]]; congruence.
Qed.

(** An invariant of [setup] and of every tick holds in every reachable
    state. *)
Lemma reachable_ind_tick (P : State -> Prop) :
  (forall h m a, P (set_flags h m a boot_state)) ->
  (forall i st, P st -> P (fst (tick i st))) ->
  forall st, reachable st -> P st.
Proof.
  intros Hboot Htick st Hr. induction Hr as [fuel b ev st Hs | fuel i ev st st' Hr IH Hl].
  - rewrite (setup_returns _ _ _ _ Hs). apply Hboot.
  - rewrite (loop_returns _ _ _ _ _ Hl). destruct (tick_due i st); auto.
Qed.

Lemma heart_inv_reachable (st : State) : reachable st -> heart_inv st.
Proof.
  apply reachable_ind_tick; [apply heart_inv_boot | apply heart_inv_tick].
Qed.

Lemma run_reachable (fuel : nat) (inputs : list LoopInput) :
  forall st ev st', reachable st -> run fuel inputs st = (ev, Some st') -> reachable st'.
Proof.
  induction inputs as [ | i rest IH]; intros st ev st' Hr Hrun; simpl in Hrun.
  - congruence.
  - destruct (loop fuel i st) as [ev1 [st1 | ]] eqn:Hl; [ | discriminate].
    destruct (run fuel rest st1) as [ev2 r] eqn:Hrest.
    inversion Hrun; subst. eapply IH; [ | exact Hrest].
    eapply reach_loop; eassumption.
Qed.

Lemma session_reachable (fuel : nat) (b : BootInput) (inputs : list LoopInput)
  (ev : list event) (st : State) :
  session fuel b inputs = (ev, Some st) -> reachable st.
Proof.
  unfold session. destruct (setup fuel b) as [ev0 [st0 | ]] eqn:Hs; [ | discriminate].
  destruct (run fuel inputs st0) as [ev1 r] eqn:Hrun. intros H. inversion H; subst.
  eapply run_reachable; [ | exact Hrun]. eapply reach_setup. exact Hs.
Qed.

Lemma reachable_state_bpm21 : reachable state_bpm21.
Proof.
  apply (session_reachable 1 (boot_with link_fresh false true false) [beat_input 2800]
           (fst (session 1 (boot_with link_fresh false true false) [beat_input 2800]))).
  vm_compute. reflexivity.
Qed.

Lemma reachable_state_bpm20 : reachable state_bpm20.
Proof.
  apply (session_reachable 1 (boot_with link_fresh false true false) [beat_input 2900]
           (fst (session 1 (boot_with link_fresh false true false) [beat_input 2900]))).
  vm_compute. reflexivity.
Qed.

(** *** The mean of the four slots *)

Lemma mean_of_four (a b c d : Z) :
  Qfloor (mean_of [a; b; c; d]) = (a + b + c + d) / 4.
Proof.
  unfold mean_of, slot_sum. simpl. unfold Qdiv, Qmult, Qinv, inject_Z, Qfloor. simpl.
  f_equal. lia.
Qed.

(** *** C2 *)

(** A beat whose BPM fails the range test leaves the ring buffer, its write
    index and the average untouched. *)
Lemma on_beat_rejected (ms ms' : Z) (st : State) :
  bpm_accepted (beatsPerMinute (on_beat ms ms' st)) = false ->
  rates (on_beat ms ms' st) = rates st /\
  rateSpot (on_beat ms ms' st) = rateSpot st /\
  beatAvg (on_beat ms ms' st) = beatAvg st.
Proof.
  unfold on_beat.
  destruct (bpm_accepted (bpm_of_delta _)) eqn:Hacc; simpl; intros H; [congruence | auto].
Qed.

Lemma out_of_range_rejected (bpm : spec_float) :
  IEEE.fle bpm (IEEE.float_of_Z 20) = true \/ IEEE.fge bpm (IEEE.float_of_Z 255) = true ->
  bpm_accepted bpm = false.
Proof.
  unfold bpm_accepted. intros [H | H].
  - rewrite (fle_not_fgt _ _ H). apply Bool.andb_false_r.
  - rewrite (fge_not_flt _ _ H). reflexivity.
Qed.

Lemma on_beat_accepted (ms ms' : Z) (st : State) :
  bpm_accepted (beatsPerMinute (on_beat ms ms' st)) = true ->
  rates (on_beat ms ms' st)
    = <[Z.to_nat (rateSpot st) := IEEE.to_byte (beatsPerMinute (on_beat ms ms' st))]>
        (rates st).
Proof.
  unfold on_beat.
  destruct (bpm_accepted (bpm_of_delta _)) eqn:Hacc; simpl; intros H; [reflexivity | congruence].
Qed.

Lemma on_beat_bpm (ms ms' : Z) (st : State) :
  beatsPerMinute (on_beat ms ms' st)
    = bpm_of_delta (to_long (u32 ms - u32 (lastBeat st))).
Proof. unfold on_beat. destruct (bpm_accepted _); reflexivity. Qed.

(** C2 (as amended): in every reachable state each slot of the ring
    buffer holds either its initial 0 or the integer part of an accepted
    BPM, which lies between 20 and 254 inclusive.  A detected beat whose
    computed BPM is <= 20 or >= 255 is never inserted: it leaves the
    buffer, the write index and the average as they were.  A beat that
    does change the buffer has a BPM strictly between 20 and 255 and
    writes the integer part of that BPM at the write index. *)
Theorem C2_slots_zero_or_in_20_254 (st : State) :
  reachable st ->
  Forall slot_ok (rates st) /\
  forall ms ms',
    let st' := on_beat ms ms' st in
    let bpm := beatsPerMinute st' in
    (IEEE.fle bpm (IEEE.float_of_Z 20) = true \/ IEEE.fge bpm (IEEE.float_of_Z 255) = true ->
     rates st' = rates st /\ rateSpot st' = rateSpot st /\ beatAvg st' = beatAvg st) /\
    (rates st' <> rates st ->
     (20 < value bpm)%Q /\ (value bpm < 255)%Q /\
     rates st' = <[Z.to_nat (rateSpot st) := Qfloor (value bpm)]> (rates st)).
Proof.
  intros Hr. split.
  - apply (heart_inv_reachable st Hr).
  - intros ms ms' st' bpm. subst st' bpm. split.
    + intros Hout. apply on_beat_rejected.
      apply out_of_range_rejected. exact Hout.
    + intros Hchg.
      destruct (bpm_accepted (beatsPerMinute (on_beat ms ms' st))) eqn:Hacc.
      * assert (Hv : valid_binary IEEE.fprec IEEE.femax
                       (beatsPerMinute (on_beat ms ms' st)) = true).
        { rewrite on_beat_bpm. apply bpm_of_delta_valid. }
        destruct (accepted_value _ Hv Hacc) as (Hlo & Hhi & Hbyte).
        split; [exact Hlo | ]. split; [exact Hhi | ].
        rewrite <- Hbyte. apply on_beat_accepted. exact Hacc.
      * exfalso. apply Hchg. apply (on_beat_rejected ms ms' st Hacc).
Qed.

Lemma C2_slots_zero_or_in_20_254_witness :
  reachable state_bpm20 /\ Forall slot_ok (rates state_bpm20).
Proof.
  split; [exact reachable_state_bpm20 | ].
  apply (C2_slots_zero_or_in_20_254 state_bpm20 reachable_state_bpm20).
Defined.

(** C2 as stated fails: a first beat 2900 ms after boot has a BPM
    between 20 and 21 (60000 / 2900), passes the range test and is stored
    as 20; the other three slots still hold 0.  No slot lies strictly
    between 20 and 255. *)
Lemma C2_slots_counterexample :
  reachable state_bpm20 /\
  (20 < value (beatsPerMinute state_bpm20))%Q /\
  (value (beatsPerMinute state_bpm20) < 21)%Q /\
  rates state_bpm20 = [20; 0; 0; 0] /\
  ~ Forall (fun v => 20 < v < 255) (rates state_bpm20).
Proof.
  split; [exact reachable_state_bpm20 | ].
  split; [vm_compute; reflexivity | ]. split; [vm_compute; reflexivity | ].
  split; [reflexivity | ].
  intros H. apply Forall_cons_1 in H as [H _]. lia.
Qed.

(** ** The trace of a tick *)

Lemma payloads_on_app (t : string) (a b : list event) :
  payloads_on t (a ++ b) = payloads_on t a ++ payloads_on t b.
Proof.
  induction a as [ | e a IH]; simpl; [reflexivity | ].
  destruct e; try exact IH. destruct (String.eqb topic t); simpl; congruence.
Qed.

Lemma quiet_app (s : sensor) (a b : list event) :
  quiet s a -> quiet s b -> quiet s (a ++ b).
Proof.
  unfold quiet. intros Ha Hb. rewrite forallb_app, Ha, Hb. reflexivity.
Qed.

Lemma quiet_In (s : sensor) (evs : list event) (e : event) :
  quiet s evs -> In e evs -> touches s e = false.
Proof.
  unfold quiet. intros Hq Hin. rewrite forallb_forall in Hq.
  specialize (Hq e Hin). destruct (touches s e); [discriminate | reflexivity].
Qed.

(** The tick never writes a health flag. *)
Lemma tick_flags (i : LoopInput) (st : State) (s : sensor) :
  sensor_ok s (fst (tick i st)) = sensor_ok s st.
Proof.
  unfold tick, read_max30105, on_beat. simpl.
  destruct (max30102_ok st) eqn:Hm; simpl; [ | destruct s; reflexivity].
  destruct (in_beat i); [ | destruct s; reflexivity].
  destruct (bpm_accepted _); destruct s; simpl; congruence.
Qed.

(** The trace of a tick, block by block, in the order of the source. *)
Lemma tick_trace (i : LoopInput) (st : State) :
  let st1 := set_tick (in_now i) st in
  snd (tick i st) =
    tick_head i st ++ read_htu21d i st1 ++ snd (read_max30105 i st1)
      ++ read_mma8452q i st1 ++ tick_tail i st.
Proof.
  intros st1. unfold tick. fold st1.
  pose proof (tick_flags i st) as Hf. unfold tick in Hf. fold st1 in Hf.
  destruct (read_max30105 i st1) as [st2 ev] eqn:Hmax. simpl in *.
  pose proof (Hf HTU21D) as Hh. pose proof (Hf MAX30105) as Hm. pose proof (Hf MMA8452Q) as Ha.
  simpl in Hh, Hm, Ha.
  unfold tick_head, tick_tail. fold st1. rewrite Hh, Hm, Ha.
  assert (Hacc : read_mma8452q i st2 = read_mma8452q i st1).
  { unfold read_mma8452q. rewrite Ha. reflexivity. }
  rewrite Hacc. reflexivity.
Qed.

Ltac by_cases :=
  repeat match goal with
         | |- context [if ?c then _ else _] => destruct c
         end;
  reflexivity.

(** The blocks of a tick that publish nothing on topic [t]. *)
Ltac silent_blocks :=
  repeat match goal with
         | |- context [payloads_on ?t (tick_head ?i ?st)] =>
             replace (payloads_on t (tick_head i st)) with (@nil payload)
               by (unfold tick_head; by_cases)
         | |- context [payloads_on ?t (tick_tail ?i ?st)] =>
             replace (payloads_on t (tick_tail i st)) with (@nil payload)
               by (unfold tick_tail; by_cases)
         | |- context [payloads_on ?t (read_htu21d ?i ?st)] =>
             replace (payloads_on t (read_htu21d i st)) with (@nil payload)
               by (unfold read_htu21d; by_cases)
         | |- context [payloads_on ?t (snd (read_max30105 ?i ?st))] =>
             replace (payloads_on t (snd (read_max30105 i st))) with (@nil payload)
               by (unfold read_max30105; by_cases)
         | |- context [payloads_on ?t (read_mma8452q ?i ?st)] =>
             replace (payloads_on t (read_mma8452q i st)) with (@nil payload)
               by (unfold read_mma8452q, publish_axis; by_cases)
         end.

(** *** C1 *)

Lemma beatAvg_of_inv (st : State) :
  heart_inv st ->
  length (rates st) = 4%nat /\
  beatAvg st = Qfloor (mean_of (rates st)) /\
  beatAvg st = slot_sum (rates st) / 4.
Proof.
  intros (Hlen & Hall & _ & Havg).
  split; [exact Hlen | ].
  destruct (four_slots _ Hlen) as (a & b & c & d & Hrates).
  rewrite Hrates in *.
  assert (Ha : 0 <= a < 256 /\ 0 <= b < 256 /\ 0 <= c < 256 /\ 0 <= d < 256).
  { repeat match goal with
           | H : Forall _ (_ :: _) |- _ => apply Forall_cons_1 in H as [?%slot_ok_byte H]
           end. auto. }
  destruct Ha as (Ha & Hb & Hc & Hd).
  rewrite sum_rates_four in Havg by assumption.
  rewrite Z.quot_div_nonneg in Havg by (unfold RATE_SIZE; lia).
  rewrite mean_of_four. unfold slot_sum, RATE_SIZE in *. simpl.
  split; rewrite Havg; f_equal; lia.
Qed.

Lemma tick_publishes_bpm_avg (i : LoopInput) (st : State) :
  max30102_ok st = true ->
  payloads_on "sensores/bpm_avg" (snd (tick i st)) = [[FInt (beatAvg (fst (tick i st)))]].
Proof.
  intros Hok. rewrite tick_trace, !payloads_on_app. silent_blocks.
  unfold tick, read_max30105. simpl max30102_ok. rewrite Hok. reflexivity.
Qed.

(** C1 (as amended): in every reachable state of the estimator, in
    particular after a BPM value has been accepted into the ring buffer
    and after four writes, the averaged BPM [beatAvg] is the arithmetic
    mean of the four slots rounded down to an integer: the sum of the
    slots divided by 4 with integer division.  The value published on
    sensores/bpm_avg by a tick is that of the slots as the tick leaves
    them. *)
Theorem C1_beatAvg_is_floor_of_mean (st : State) :
  reachable st ->
  length (rates st) = 4%nat /\
  beatAvg st = Qfloor (mean_of (rates st)) /\
  beatAvg st = slot_sum (rates st) / 4 /\
  forall i,
    max30102_ok st = true ->
    payloads_on "sensores/bpm_avg" (snd (tick i st))
      = [[FInt (Qfloor (mean_of (rates (fst (tick i st)))))]].
Proof.
  intros Hr. pose proof (heart_inv_reachable st Hr) as Hinv.
  destruct (beatAvg_of_inv st Hinv) as (Hlen & Hfloor & Hdiv).
  repeat (split; [assumption | ]).
  intros i Hok. rewrite (tick_publishes_bpm_avg i st Hok).
  destruct (beatAvg_of_inv _ (heart_inv_tick i st Hinv)) as (_ & -> & _).
  reflexivity.
Qed.

Lemma C1_beatAvg_is_floor_of_mean_witness :
  reachable state_bpm21 /\ beatAvg state_bpm21 = slot_sum (rates state_bpm21) / 4.
Proof.
  split; [exact reachable_state_bpm21 | ].
  apply (C1_beatAvg_is_floor_of_mean state_bpm21 reachable_state_bpm21).
Defined.

(** C1 as stated fails: after one accepted beat of 21 BPM the slots are
    21, 0, 0, 0, whose mean is 21/4, while [beatAvg] is 5. *)
Lemma C1_mean_counterexample :
  reachable state_bpm21 /\
  rates state_bpm21 = [21; 0; 0; 0] /\
  beatAvg state_bpm21 = 5 /\
  ~ (inject_Z (beatAvg state_bpm21) == mean_of (rates state_bpm21))%Q.
Proof.
  split; [exact reachable_state_bpm21 | ].
  split; [reflexivity | ]. split; [reflexivity | ].
  vm_compute. discriminate.
Qed.

(** *** C4 *)

(** C4: on every tick on which the optical sensor is healthy, exactly one
    finger_status is published; it is "no_detectado" if and only if the
    IR value read on that tick is strictly below 50000, and "detectado"
    otherwise. *)
Theorem C4_finger_status_threshold (i : LoopInput) (st : State) :
  max30102_ok st = true ->
  payloads_on "sensores/finger_status" (snd (tick i st))
    = [[FLit (finger_status (in_ir i))]] /\
  payloads_on "sensores/ir_value" (snd (tick i st)) = [[FInt (in_ir i)]] /\
  (finger_status (in_ir i) = "no_detectado" <-> in_ir i < 50000) /\
  (finger_status (in_ir i) = "detectado" <-> 50000 <= in_ir i).
Proof.
  intros Hok. rewrite tick_trace, !payloads_on_app.
  split; [ | split].
  - silent_blocks. unfold read_max30105. simpl max30102_ok. rewrite Hok. reflexivity.
  - silent_blocks. unfold read_max30105. simpl max30102_ok. rewrite Hok. reflexivity.
  - unfold finger_status. destruct (Z.ltb_spec (in_ir i) 50000); split; split; intros H';
      try reflexivity; try lia; discriminate.
Qed.

Lemma C4_finger_status_threshold_witness :
  max30102_ok state_all_ok = true /\
  payloads_on "sensores/finger_status" (snd (tick (beat_input 3000) state_all_ok))
    = [[FLit (finger_status 80000)]].
Proof.
  split; [reflexivity | ].
  apply (C4_finger_status_threshold (beat_input 3000) state_all_ok). reflexivity.
Defined.

(** *** C9 *)

(** C9 (as amended): a tick publishes sensores/orientacion and
    sensores/movimiento exactly once each when the accelerometer is
    healthy and has new data available, and not at all otherwise. *)
Theorem C9_orientation_needs_accel_data (i : LoopInput) (st : State) :
  payloads_on "sensores/orientacion" (snd (tick i st)) =
    (if accel_ok st && in_available i
     then [[FLit (orientacion (in_x i) (in_y i) (in_z i))]] else []) /\
  payloads_on "sensores/movimiento" (snd (tick i st)) =
    (if accel_ok st && in_available i
     then [[FLit (movimiento (magnitud (in_x i) (in_y i) (in_z i)))]] else []).
Proof.
  rewrite tick_trace, !payloads_on_app.
  split; silent_blocks; unfold read_mma8452q, publish_axis; cbn [accel_ok set_tick];
    destruct (accel_ok st), (in_available i); cbn [andb]; by_cases.
Qed.

(** C9 as stated fails: on a tick of a session whose accelerometer is
    healthy but has no new sample, and on a tick of a session whose
    accelerometer failed at boot, the tick counter is published and
    neither sensores/orientacion nor sensores/movimiento is. *)
Lemma C9_every_tick_counterexample :
  reachable state_all_ok /\
  reachable (counting_state 0) /\
  (let evs := fst (loop 0 (quiet_input link_connected 3000) state_all_ok) in
   payloads_on "sensores/contador" evs = [[FInt 1]] /\
   payloads_on "sensores/orientacion" evs = [] /\
   payloads_on "sensores/movimiento" evs = []) /\
  (let evs := fst (loop 0 (accel_input 3000 (S754_zero false) (S754_zero false)
                             (IEEE.float_of_Z 1)) (counting_state 0)) in
   payloads_on "sensores/contador" evs = [[FInt 1]] /\
   payloads_on "sensores/orientacion" evs = [] /\
   payloads_on "sensores/movimiento" evs = []).
Proof.
  split; [ | split; [ | split]].
  - apply (reach_setup 1 (boot_with link_fresh true true true)
             (fst (setup 1 (boot_with link_fresh true true true)))). reflexivity.
  - apply (reach_setup 1 (boot_with link_fresh false false false)
             (fst (setup 1 (boot_with link_fresh false false false)))). reflexivity.
  - vm_compute. auto.
  - vm_compute. auto.
Qed.

(** *** C10 *)

Lemma non_finite_invalid :
  temperatura_valida S754_nan = false /\
  humedad_valida S754_nan = false /\
  forall s, temperatura_valida (S754_infinity s) = false /\
            humedad_valida (S754_infinity s) = false.
Proof. repeat split; destruct s; reflexivity. Qed.

(** C10: on every tick on which the environment sensor is healthy and its
    measurement succeeds, the temperature is published exactly when it is
    valid whatever the humidity is, the humidity is published exactly when
    it is valid whatever the temperature is, and each invalid value yields
    its own error publication and suppresses nothing else.  A temperature
    is valid exactly when it is finite and within [-40, 125], a humidity
    exactly when it is finite and within [0, 100]. *)
Theorem C10_temperature_humidity_independent (i : LoopInput) (st : State) :
  htu21d_ok st = true -> in_measure i = true ->
  let evs := snd (tick i st) in
  let t := in_temperatura i in
  let h := in_humedad i in
  payloads_on "sensores/temperatura" evs
    = (if temperatura_valida t then [[FFloat t 2]] else []) /\
  payloads_on "sensores/humedad" evs
    = (if humedad_valida h then [[FFloat h 2]] else []) /\
  payloads_on "sensores/error" evs
    = (if temperatura_valida t then [] else [[FLit "HTU21D: temperatura invalida"]])
      ++ (if humedad_valida h then [] else [[FLit "HTU21D: humedad invalida"]])
      ++ payloads_on "sensores/error" (read_mma8452q i (set_tick (in_now i) st)) /\
  (valid_binary IEEE.fprec IEEE.femax t = true ->
   (temperatura_valida t = true <->
    is_finite t = true /\ (-40 <= value t)%Q /\ (value t <= 125)%Q)) /\
  (valid_binary IEEE.fprec IEEE.femax h = true ->
   (humedad_valida h = true <->
    is_finite h = true /\ (0 <= value h)%Q /\ (value h <= 100)%Q)).
Proof.
  intros Hok Hm evs t h. subst evs t h. rewrite tick_trace, !payloads_on_app.
  split; [ | split; [ | split; [ | split;
    [apply temperatura_valida_value | apply humedad_valida_value]]]].
  - silent_blocks. unfold read_htu21d. cbn [htu21d_ok set_tick]. rewrite Hok, Hm. by_cases.
  - silent_blocks. unfold read_htu21d. cbn [htu21d_ok set_tick]. rewrite Hok, Hm. by_cases.
  - replace (payloads_on "sensores/error" (tick_head i st)) with (@nil payload)
      by (unfold tick_head; by_cases).
    replace (payloads_on "sensores/error" (tick_tail i st)) with (@nil payload)
      by (unfold tick_tail; by_cases).
    replace (payloads_on "sensores/error" (snd (read_max30105 i (set_tick (in_now i) st))))
      with (@nil payload) by (unfold read_max30105; by_cases).
    unfold read_htu21d. cbn [htu21d_ok set_tick]. rewrite Hok, Hm.
    rewrite app_nil_r.
    destruct (temperatura_valida _), (humedad_valida _); reflexivity.
Qed.

Lemma C10_temperature_humidity_independent_witness :
  htu21d_ok state_all_ok = true /\
  temperatura_valida S754_nan = false /\
  payloads_on "sensores/humedad"
    (snd (tick (env_input 3000 S754_nan (IEEE.float_of_Z 50)) state_all_ok))
    = [[FFloat (IEEE.float_of_Z 50) 2]].
Proof.
  split; [reflexivity | ]. split; [reflexivity | ].
  apply (C10_temperature_humidity_independent
           (env_input 3000 S754_nan (IEEE.float_of_Z 50)) state_all_ok);
    reflexivity.
Defined.

(** *** C7 *)

(** An out-of-range axis is withheld from its own topic and leaves the
    health flag alone. *)
Lemma out_of_range_axis_own_topic (i : LoopInput) (st : State) :
  accel_ok st = true -> in_available i = true ->
  payloads_on "sensores/accel_x" (snd (tick i st))
    = (if axis_ok (in_x i) then [[FFloat (in_x i) 3]] else []) /\
  payloads_on "sensores/accel_y" (snd (tick i st))
    = (if axis_ok (in_y i) then [[FFloat (in_y i) 3]] else []) /\
  payloads_on "sensores/accel_z" (snd (tick i st))
    = (if axis_ok (in_z i) then [[FFloat (in_z i) 3]] else []) /\
  accel_ok (fst (tick i st)) = true.
Proof.
  intros Hok Hav. rewrite tick_trace, !payloads_on_app.
  repeat split; try (rewrite <- Hok; apply (tick_flags i st MMA8452Q));
    silent_blocks; unfold read_mma8452q, publish_axis; cbn [accel_ok set_tick];
    rewrite Hok, Hav; by_cases.
Qed.

(** The combined object carries the three axes whatever their range. *)
Lemma accel_datos_unconditional (i : LoopInput) (st : State) :
  accel_ok st = true -> in_available i = true ->
  payloads_on "sensores/accel_datos" (snd (tick i st))
    = [accel_json (in_x i) (in_y i) (in_z i) (magnitud (in_x i) (in_y i) (in_z i))].
Proof.
  intros Hok Hav. rewrite tick_trace, !payloads_on_app.
  silent_blocks; unfold read_mma8452q, publish_axis; cbn [accel_ok set_tick];
    rewrite Hok, Hav; by_cases.
Qed.

(** An axis fails its sanity check exactly when its value lies outside
    [-4, 4]. *)
Lemma axis_out_of_range (v : spec_float) :
  valid_binary IEEE.fprec IEEE.femax v = true -> is_finite v = true ->
  (axis_ok v = false <-> (value v < -4 \/ 4 < value v)%Q).
Proof.
  intros Hv Hf. pose proof (axis_ok_value v Hv Hf) as Hin.
  destruct (axis_ok v); split.
  - discriminate.
  - intros [Hlo | Hhi]; exfalso; destruct Hin as [Hin _];
      destruct (Hin eq_refl) as [H1 H2].
    + apply (Qlt_not_le _ _ Hlo). exact H1.
    + apply (Qlt_not_le _ _ Hhi). exact H2.
  - intros _. destruct (Qlt_le_dec (value v) (-4)) as [Hlo | Hlo]; [left; exact Hlo | ].
    destruct (Qlt_le_dec 4 (value v)) as [Hhi | Hhi]; [right; exact Hhi | ].
    destruct Hin as [_ Hin]. discriminate (Hin (conj Hlo Hhi)).
  - reflexivity.
Qed.

(** An infinity or a NaN fails the sanity check of an axis. *)
Lemma axis_ok_non_finite (v : spec_float) : is_finite v = false -> axis_ok v = false.
Proof.
  destruct v as [s | s | | s m e]; try discriminate; intros _;
    [destruct s; reflexivity | reflexivity].
Qed.

(** C7 (as amended): on every tick on which the accelerometer is healthy
    and has a new sample, an axis value that lies outside [-4, 4] g (or
    is no finite number at all) is withheld from its own topic
    (sensores/accel_x, accel_y or accel_z), an axis within the range is
    published there, and the sensor is not marked unhealthy; the magnitude
    and the combined object on sensores/accel_datos are built from the
    three raw values and published whatever their range. *)
Theorem C7_out_of_range_axis_withheld (i : LoopInput) (st : State) :
  accel_ok st = true -> in_available i = true ->
  let evs := snd (tick i st) in
  let mag := magnitud (in_x i) (in_y i) (in_z i) in
  (forall topic v,
     In (topic, v) [("sensores/accel_x", in_x i); ("sensores/accel_y", in_y i);
                    ("sensores/accel_z", in_z i)] ->
     (is_finite v = false -> payloads_on topic evs = []) /\
     (valid_binary IEEE.fprec IEEE.femax v = true -> is_finite v = true ->
      ((value v < -4 \/ 4 < value v)%Q -> payloads_on topic evs = []) /\
      ((-4 <= value v /\ value v <= 4)%Q -> payloads_on topic evs = [[FFloat v 3]]))) /\
  accel_ok (fst (tick i st)) = true /\
  payloads_on "sensores/accel_mag" evs = [[FFloat mag 3]] /\
  payloads_on "sensores/accel_datos" evs = [accel_json (in_x i) (in_y i) (in_z i) mag].
Proof.
  intros Hok Hav evs mag. subst evs mag.
  destruct (out_of_range_axis_own_topic i st Hok Hav) as (Hx & Hy & Hz & Hflag).
  split; [ | split; [exact Hflag | split]].
  - intros topic v Hin.
    assert (Hp : payloads_on topic (snd (tick i st))
                 = if axis_ok v then [[FFloat v 3]] else []).
    { destruct Hin as [E | [E | [E | []]]]; inversion E; subst; assumption. }
    rewrite Hp. split; [intros Hnf; rewrite (axis_ok_non_finite v Hnf); reflexivity | ].
    intros Hv Hf. split.
    + intros Hout. apply (axis_out_of_range v Hv Hf) in Hout. rewrite Hout. reflexivity.
    + intros Hin'. apply (axis_ok_value v Hv Hf) in Hin'. rewrite Hin'. reflexivity.
  - rewrite tick_trace, !payloads_on_app.
    silent_blocks; unfold read_mma8452q, publish_axis; cbn [accel_ok set_tick];
      rewrite Hok, Hav; by_cases.
  - apply accel_datos_unconditional; assumption.
Qed.

Lemma C7_out_of_range_axis_withheld_witness :
  let i := accel_input 3000 (IEEE.float_of_Z 5) (S754_zero false) (IEEE.float_of_Z 1) in
  (4 < value (IEEE.float_of_Z 5))%Q /\
  payloads_on "sensores/accel_x" (snd (tick i state_all_ok)) = [] /\
  payloads_on "sensores/accel_z" (snd (tick i state_all_ok))
    = [[FFloat (IEEE.float_of_Z 1) 3]] /\
  accel_ok (fst (tick i state_all_ok)) = true.
Proof.
  intros i.
  assert (H5 : (4 < value (IEEE.float_of_Z 5))%Q) by (vm_compute; reflexivity).
  assert (H1 : (-4 <= value (IEEE.float_of_Z 1) /\ value (IEEE.float_of_Z 1) <= 4)%Q)
    by (split; vm_compute; discriminate).
  destruct (C7_out_of_range_axis_withheld i state_all_ok eq_refl eq_refl)
    as (Haxis & Hflag & _).
  split; [exact H5 | ]. split; [ | split; [ | exact Hflag]].
  - apply (proj2 (Haxis "sensores/accel_x" (IEEE.float_of_Z 5) ltac:(left; reflexivity)));
      [reflexivity | reflexivity | right; exact H5].
  - apply (proj2 (Haxis "sensores/accel_z" (IEEE.float_of_Z 1)
                    ltac:(right; right; left; reflexivity)));
      [reflexivity | reflexivity | exact H1].
Defined.

(** C7 as stated fails: with x = 5 g (outside [-4, 4]) on a healthy
    accelerometer, sensores/accel_x is withheld and the sensor stays
    healthy, but the value does appear in a payload of that tick, inside
    the sensores/accel_datos object. *)
Lemma C7_out_of_range_axis_in_accel_datos :
  let x := IEEE.float_of_Z 5 in
  let i := accel_input 3000 x (S754_zero false) (IEEE.float_of_Z 1) in
  let evs := snd (tick i state_all_ok) in
  axis_ok x = false /\
  payloads_on "sensores/accel_x" evs = [] /\
  accel_ok (fst (tick i state_all_ok)) = true /\
  exists p, payloads_on "sensores/accel_datos" evs = [p] /\ In (FFloat x 3) p.
Proof.
  repeat split. eexists. split; [vm_compute; reflexivity | ].
  right. left. reflexivity.
Qed.

(** *** C5 *)

(** Above one half excludes below minus one half, whatever the value. *)
Lemma above_excludes_below (d : spec_float) :
  IEEE.fgt d half = true -> IEEE.flt d (SFopp half) = false.
Proof.
  unfold IEEE.fgt, IEEE.flt.
  change half with (S754_finite false 4503599627370496 (-53)).
  change (SFopp _) with (S754_finite true 4503599627370496 (-53)).
  destruct d as [s | s | | s m e]; try destruct s; unfold SFltb, SFcompare;
    congruence.
Qed.

(** The rule on the outcome of the three tests. *)
Lemma orientation_rule_tests (x y z : spec_float) :
  let dominates :=
    IEEE.fgt (SFabs z) (SFabs x) = true /\ IEEE.fgt (SFabs z) (SFabs y) = true in
  let above := z_above_half z = true in
  let below := z_below_minus_half z = true in
  (orientacion x y z = "boca_arriba" <-> dominates /\ above) /\
  (orientacion x y z = "boca_abajo" <-> dominates /\ below) /\
  (orientacion x y z = "indefinida" <-> ~ (dominates /\ above) /\ ~ (dominates /\ below)) /\
  ~ (above /\ below).
Proof.
  intros dominates above below. subst dominates above below.
  pose proof (above_excludes_below (IEEE.double_of_float z)) as Hex.
  unfold orientacion, z_dominates, z_above_half, z_below_minus_half in *.
  destruct (IEEE.fgt (SFabs z) (SFabs x)), (IEEE.fgt (SFabs z) (SFabs y));
    destruct (IEEE.fgt (IEEE.double_of_float z) half);
    destruct (IEEE.flt (IEEE.double_of_float z) (SFopp half));
    simpl; try (specialize (Hex eq_refl); discriminate);
    repeat split; intros; try discriminate; try reflexivity; try tauto;
    intuition discriminate.
Qed.

(** The rule on the values of a finite reading. *)
Lemma orientation_rule_values (x y z : spec_float) :
  valid_binary IEEE.fprec IEEE.femax x = true -> is_finite x = true ->
  valid_binary IEEE.fprec IEEE.femax y = true -> is_finite y = true ->
  valid_binary IEEE.fprec IEEE.femax z = true -> is_finite z = true ->
  (orientacion x y z = "boca_arriba" <->
   (Qabs (value x) < Qabs (value z) /\ Qabs (value y) < Qabs (value z)
    /\ 1 # 2 < value z)%Q) /\
  (orientacion x y z = "boca_abajo" <->
   (Qabs (value x) < Qabs (value z) /\ Qabs (value y) < Qabs (value z)
    /\ value z < - (1 # 2))%Q).
Proof.
  intros Vx Fx Vy Fy Vz Fz.
  destruct (orientation_rule_tests x y z) as (Hup & Hdown & _ & _).
  cbv zeta in Hup, Hdown.
  destruct (orientation_tests_values x z Vx Fx Vz Fz) as (Hx & Ha & Hb).
  destruct (orientation_tests_values y z Vy Fy Vz Fz) as (Hy & _ & _).
  rewrite Hup, Hdown, Hx, Hy, Ha, Hb. split; tauto.
Qed.

(** The label is always one of the three. *)
Lemma orientacion_label (x y z : spec_float) :
  orientacion x y z = "boca_arriba" \/ orientacion x y z = "boca_abajo"
  \/ orientacion x y z = "indefinida".
Proof.
  unfold orientacion.
  destruct (z_dominates x y z), (z_above_half z), (z_below_minus_half z); auto.
Qed.

(** What a tick with a sample publishes on sensores/orientacion. *)
Lemma orientacion_published (i : LoopInput) (st : State) :
  accel_ok st = true -> in_available i = true ->
  payloads_on "sensores/orientacion" (snd (tick i st))
    = [[FLit (orientacion (in_x i) (in_y i) (in_z i))]].
Proof.
  intros Hok Hav. rewrite tick_trace, !payloads_on_app.
  silent_blocks; unfold read_mma8452q, publish_axis; cbn [accel_ok set_tick];
    rewrite Hok, Hav; by_cases.
Qed.

Lemma label_payload (a b : string) : [[FLit a]] = [[FLit b]] <-> a = b.
Proof. split; [intros H; inversion H; reflexivity | intros ->; reflexivity]. Qed.

(** C5: on every tick on which the accelerometer delivers a sample
    (x, y, z), exactly one orientation is published on
    sensores/orientacion, and it is "boca_arriba" exactly when |z| > |x|,
    |z| > |y| and z > 0.5, "boca_abajo" exactly when |z| > |x|, |z| > |y|
    and z < -0.5, and "indefinida" in every other case; the two definite
    labels are never both reported in a tick.  The three values are those
    of the finite floats the driver returns. *)
Theorem C5_orientation_rule (i : LoopInput) (st : State) :
  accel_ok st = true -> in_available i = true ->
  let x := in_x i in
  let y := in_y i in
  let z := in_z i in
  let published := payloads_on "sensores/orientacion" (snd (tick i st)) in
  let face_up := (Qabs (value x) < Qabs (value z) /\ Qabs (value y) < Qabs (value z)
                  /\ 1 # 2 < value z)%Q in
  let face_down := (Qabs (value x) < Qabs (value z) /\ Qabs (value y) < Qabs (value z)
                    /\ value z < - (1 # 2))%Q in
  (published = [[FLit "boca_arriba"]] \/ published = [[FLit "boca_abajo"]]
   \/ published = [[FLit "indefinida"]]) /\
  ~ (published = [[FLit "boca_arriba"]] /\ published = [[FLit "boca_abajo"]]) /\
  (valid_binary IEEE.fprec IEEE.femax x = true -> is_finite x = true ->
   valid_binary IEEE.fprec IEEE.femax y = true -> is_finite y = true ->
   valid_binary IEEE.fprec IEEE.femax z = true -> is_finite z = true ->
   (published = [[FLit "boca_arriba"]] <-> face_up) /\
   (published = [[FLit "boca_abajo"]] <-> face_down) /\
   (published = [[FLit "indefinida"]] <-> ~ face_up /\ ~ face_down)).
Proof.
  intros Hok Hav x y z published face_up face_down.
  subst published face_up face_down x y z.
  rewrite (orientacion_published i st Hok Hav), !label_payload.
  pose proof (orientacion_label (in_x i) (in_y i) (in_z i)) as Hlabel.
  split; [exact Hlabel | ]. split.
  - intros [H1 H2]. rewrite H1 in H2. discriminate.
  - intros Vx Fx Vy Fy Vz Fz.
    destruct (orientation_rule_values _ _ _ Vx Fx Vy Fy Vz Fz) as [Hup Hdown].
    split; [exact Hup | ]. split; [exact Hdown | ].
    rewrite <- Hup, <- Hdown. split.
    + intros ->. split; discriminate.
    + intros [Hn1 Hn2]. destruct Hlabel as [H | [H | H]];
        [contradiction | contradiction | exact H].
Qed.

Lemma C5_orientation_rule_witness :
  payloads_on "sensores/orientacion"
    (snd (tick (accel_input 3000 still_x still_y still_z) state_all_ok))
    = [[FLit "boca_arriba"]] /\
  (Qabs (value still_x) < Qabs (value still_z)
   /\ Qabs (value still_y) < Qabs (value still_z)
   /\ 1 # 2 < value still_z)%Q.
Proof.
  destruct (C5_orientation_rule (accel_input 3000 still_x still_y still_z) state_all_ok
              eq_refl eq_refl) as (_ & _ & Hrule).
  destruct (Hrule eq_refl eq_refl eq_refl eq_refl eq_refl eq_refl) as (Hup & _ & _).
  assert (Hpub : payloads_on "sensores/orientacion"
                   (snd (tick (accel_input 3000 still_x still_y still_z) state_all_ok))
                 = [[FLit "boca_arriba"]]) by reflexivity.
  split; [exact Hpub | ]. apply Hup. exact Hpub.
Defined.

(** *** C6 *)

Lemma connect_loop_never (ok : nat -> bool) :
  (forall k, ok k = false) ->
  forall fuel k, connect_loop fuel ok k = (failed_attempts fuel, false).
Proof.
  intros Hok. induction fuel as [ | f IH]; intros k; simpl; [reflexivity | ].
  rewrite Hok, IH. reflexivity.
Qed.

Lemma connect_loop_success (ok : nat -> bool) (n : nat) :
  forall k fuel,
    (forall j, (j < n)%nat -> ok (k + j)%nat = false) ->
    ok (k + n)%nat = true ->
    (n < fuel)%nat ->
    connect_loop fuel ok k
      = (failed_attempts n ++ [EConnect true; publish "sensores/status" status_msg], true).
Proof.
  induction n as [ | n IH]; intros k fuel Hfail Hok Hfuel.
  - destruct fuel as [ | f]; [lia | ]. simpl. rewrite Nat.add_0_r in Hok.
    rewrite Hok. reflexivity.
  - destruct fuel as [ | f]; [lia | ]. simpl.
    pose proof (Hfail 0%nat ltac:(lia)) as H0. rewrite Nat.add_0_r in H0. rewrite H0.
    rewrite (IH (S k) f).
    + reflexivity.
    + intros j Hj. replace (S k + j)%nat with (k + S j)%nat by lia. apply Hfail. lia.
    + replace (S k + n)%nat with (k + S n)%nat by lia. exact Hok.
    + lia.
Qed.

Lemma failed_attempts_no_publish (n : nat) :
  forallb (fun e => negb (is_publish e)) (failed_attempts n) = true.
Proof. induction n as [ | n IH]; simpl; [reflexivity | exact IH]. Qed.

Lemma reconnect_contador (fuel : nat) (l : Link) :
  payloads_on "sensores/contador" (fst (reconnect fuel l)) = [].
Proof.
  unfold reconnect. destruct (link_up l); [reflexivity | ].
  generalize 0%nat. induction fuel as [ | f IH]; intros k; simpl; [reflexivity | ].
  destruct (connect_ok l k); [reflexivity | ].
  specialize (IH (S k)). destruct (connect_loop f (connect_ok l) (S k)) as [ev r].
  simpl in *. exact IH.
Qed.

Lemma tick_publishes_contador (i : LoopInput) (st : State) :
  payloads_on "sensores/contador" (snd (tick i st))
    = [[FInt (wrap_int (contador st + 1))]].
Proof.
  rewrite tick_trace, !payloads_on_app. silent_blocks.
  unfold tick_head. by_cases.
Qed.

Lemma failed_attempts_payloads (t : string) (n : nat) :
  payloads_on t (failed_attempts n) = [].
Proof. induction n as [ | n IH]; simpl; [reflexivity | exact IH]. Qed.

Lemma wifi_poll_no_publish (up : nat -> bool) (n : nat) :
  forall k, forallb (fun e => negb (is_publish e)) (wifi_poll n up k) = true.
Proof.
  induction n as [ | n IH]; intros k; simpl; [reflexivity | ].
  destruct (up k); [reflexivity | apply IH].
Qed.

Lemma setup_wifi_no_publish (up : nat -> bool) :
  forallb (fun e => negb (is_publish e)) (setup_wifi up) = true.
Proof.
  unfold setup_wifi.
  change (forallb (fun e => negb (is_publish e))
            ([EDelay 10; EWifiBegin] ++ wifi_poll 30 up 0) = true).
  rewrite forallb_app, wifi_poll_no_publish. reflexivity.
Qed.

(** C6 (as amended): while the broker is not connected, [reconnect] does
    not return.  When no connection attempt ever succeeds, [setup] (after
    the bounded wait for the network) and every iteration of the main loop
    consist of nothing but failed attempts five seconds apart: they
    publish nothing, [setup] never initialises a sensor and the loop never
    returns to its top.  As soon as an attempt succeeds (the network is
    back), the online notice is published and [reconnect] returns: [setup]
    goes on with the bring-up of the sensors and its reports, and the loop
    goes on with client.loop() and the tick, which publishes the counter
    and the readings again. *)
Theorem C6_loop_waits_for_broker (b : BootInput) (i : LoopInput) (st : State) :
  link_up (boot_link b) = false ->
  link_up (in_link i) = false ->
  ((forall k, connect_ok (boot_link b) k = false) ->
   forall fuel,
     setup fuel b = (setup_wifi (wifi_up b) ++ failed_attempts fuel, None) /\
     forallb (fun e => negb (is_publish e)) (fst (setup fuel b)) = true) /\
  ((forall k, connect_ok (in_link i) k = false) ->
   forall fuel,
     loop fuel i st = (failed_attempts fuel, None) /\
     forallb (fun e => negb (is_publish e)) (fst (loop fuel i st)) = true) /\
  (forall n,
     (forall j, (j < n)%nat -> connect_ok (boot_link b) j = false) ->
     connect_ok (boot_link b) n = true ->
     forall fuel, (n < fuel)%nat ->
     let st0 := set_flags (htu_begin b) (max_begin b) (accel_begin b) boot_state in
     setup fuel b
       = (setup_wifi (wifi_up b)
            ++ (failed_attempts n
                  ++ [EConnect true; publish "sensores/status" status_msg])
            ++ [publish "sensores/info" "Inicializando sensores en ESP32-C3";
                publish "sensores/config" "I2C: SDA=GPIO6, SCL=GPIO7, 100kHz"]
            ++ init_htu21d (htu_begin b)
            ++ init_max30105 (max_begin b)
            ++ init_mma8452q (accel_begin b)
            ++ [publish "sensores/resumen" (resumen st0)],
          Some st0)) /\
  (forall n,
     (forall j, (j < n)%nat -> connect_ok (in_link i) j = false) ->
     connect_ok (in_link i) n = true ->
     forall fuel, (n < fuel)%nat ->
     loop fuel i st
       = (failed_attempts n
            ++ [EConnect true; publish "sensores/status" status_msg]
            ++ EPump :: (if tick_due i st then snd (tick i st) else []),
          Some (if tick_due i st then fst (tick i st) else st)) /\
     payloads_on "sensores/contador" (fst (loop fuel i st))
       = (if tick_due i st then [[FInt (wrap_int (contador st + 1))]] else [])).
Proof.
  intros Hboot Hdown. split; [ | split; [ | split]].
  - intros Hnever fuel. unfold setup, reconnect. rewrite Hboot.
    rewrite (connect_loop_never _ Hnever). cbv beta iota zeta delta [fst].
    split; [reflexivity | ].
    rewrite forallb_app, setup_wifi_no_publish, failed_attempts_no_publish. reflexivity.
  - intros Hnever fuel. unfold loop, reconnect. rewrite Hdown.
    rewrite (connect_loop_never _ Hnever). simpl.
    split; [reflexivity | apply failed_attempts_no_publish].
  - intros n Hfail Hok fuel Hfuel st0. unfold setup, reconnect. rewrite Hboot.
    rewrite (connect_loop_success _ n 0 fuel Hfail Hok Hfuel). reflexivity.
  - intros n Hfail Hok fuel Hfuel.
    assert (Hloop : loop fuel i st
              = (failed_attempts n
                   ++ [EConnect true; publish "sensores/status" status_msg]
                   ++ EPump :: (if tick_due i st then snd (tick i st) else []),
                 Some (if tick_due i st then fst (tick i st) else st))).
    { unfold loop, reconnect. rewrite Hdown.
      rewrite (connect_loop_success _ n 0 fuel Hfail Hok Hfuel).
      destruct (tick_due i st).
      - destruct (tick i st) as [st' ev]. simpl. rewrite <- app_assoc. reflexivity.
      - rewrite <- app_assoc. reflexivity. }
    split; [exact Hloop | ]. rewrite Hloop. cbn [fst].
    rewrite !payloads_on_app, failed_attempts_payloads.
    destruct (tick_due i st).
    + change (payloads_on "sensores/contador" (EPump :: snd (tick i st)))
        with (payloads_on "sensores/contador" (snd (tick i st))).
      rewrite tick_publishes_contador. reflexivity.
    + reflexivity.
Qed.

Lemma C6_loop_waits_for_broker_witness :
  link_up link_back = false /\
  snd (setup 5 (boot_with link_back true false true))
    = Some (set_flags true false true boot_state) /\
  loop 5 (quiet_input link_back 3000) boot_state
    = (failed_attempts 2
         ++ [EConnect true; publish "sensores/status" status_msg]
         ++ EPump :: snd (tick (quiet_input link_back 3000) boot_state),
       Some (fst (tick (quiet_input link_back 3000) boot_state))) /\
  payloads_on "sensores/contador" (fst (loop 5 (quiet_input link_back 3000) boot_state))
    = [[FInt 1]].
Proof.
  split; [reflexivity | ].
  destruct (C6_loop_waits_for_broker (boot_with link_back true false true)
              (quiet_input link_back 3000) boot_state eq_refl eq_refl)
    as (_ & _ & Hsetup & Hloop).
  assert (Hfail : forall j, (j < 2)%nat -> connect_ok link_back j = false).
  { intros j Hj. destruct j as [ | [ | j]]; [reflexivity | reflexivity | lia]. }
  split; [ | exact (Hloop 2%nat Hfail eq_refl 5%nat ltac:(lia))].
  rewrite (Hsetup 2%nat Hfail eq_refl 5%nat ltac:(lia)). reflexivity.
Defined.

(** C6 as stated fails: with a broker that is never reached, no call of
    [loop] (and not even [setup]) ever returns, however many attempts are
    observed. *)
Lemma C6_loop_keeps_running_counterexample :
  ~ (exists fuel st', snd (loop fuel (quiet_input link_dead 3000) boot_state) = Some st') /\
  ~ (exists fuel st', snd (setup fuel boot_offline) = Some st').
Proof.
  split; intros (fuel & st' & H).
  - unfold loop, reconnect in H. simpl in H.
    rewrite (connect_loop_never _ (fun _ => eq_refl)) in H. discriminate.
  - unfold setup, reconnect in H. simpl in H.
    rewrite (connect_loop_never _ (fun _ => eq_refl)) in H. discriminate.
Qed.

(** *** C8 *)

Lemma tick_contador (i : LoopInput) (st : State) :
  contador (fst (tick i st)) = wrap_int (contador st + 1).
Proof.
  unfold tick, read_max30105, on_beat. simpl.
  destruct (max30102_ok st); simpl; [ | reflexivity].
  destruct (in_beat i); [ | reflexivity].
  destruct (bpm_accepted _); reflexivity.
Qed.








(** *** C3 *)

Lemma quiet_reconnect (s : sensor) (fuel : nat) (l : Link) :
  quiet s (fst (reconnect fuel l)).
Proof.
  unfold reconnect. destruct (link_up l); [reflexivity | ].
  generalize 0%nat. induction fuel as [ | f IH]; intros k; simpl; [reflexivity | ].
  destruct (connect_ok l k); [destruct s; reflexivity | ].
  specialize (IH (S k)). destruct (connect_loop f (connect_ok l) (S k)) as [ev r].
  simpl in *. exact IH.
Qed.

(** A tick does not touch a sensor whose flag is down. *)
Lemma quiet_tick (s : sensor) (i : LoopInput) (st : State) :
  sensor_ok s st = false -> quiet s (snd (tick i st)).
Proof.
  intros Hs. rewrite tick_trace.
  apply quiet_app; [ | apply quiet_app; [ | apply quiet_app; [ | apply quiet_app]]].
  - unfold tick_head, quiet. destruct s; by_cases.
  - unfold read_htu21d, quiet.
    change (htu21d_ok (set_tick (in_now i) st)) with (htu21d_ok st).
    destruct s; simpl in Hs; try rewrite Hs; by_cases.
  - unfold read_max30105, quiet.
    change (max30102_ok (set_tick (in_now i) st)) with (max30102_ok st).
    destruct s; simpl in Hs; try rewrite Hs; by_cases.
  - unfold read_mma8452q, publish_axis, quiet.
    change (accel_ok (set_tick (in_now i) st)) with (accel_ok st).
    destruct s; simpl in Hs; try rewrite Hs; by_cases.
  - unfold tick_tail, quiet. destruct s; by_cases.
Qed.

Lemma quiet_loop (s : sensor) (fuel : nat) (i : LoopInput) (st : State) :
  sensor_ok s st = false ->
  quiet s (fst (loop fuel i st)) /\
  forall st', snd (loop fuel i st) = Some st' -> sensor_ok s st' = false.
Proof.
  intros Hs. unfold loop.
  pose proof (quiet_reconnect s fuel (in_link i)) as Hq.
  destruct (reconnect fuel (in_link i)) as [ev0 [ | ]]; simpl in Hq.
  - destruct (tick_due i st).
    + pose proof (quiet_tick s i st Hs) as Ht. pose proof (tick_flags i st s) as Hf.
      destruct (tick i st) as [st2 ev2]. simpl in *. split.
      * apply quiet_app; [exact Hq | ]. change (EPump :: ev2) with ([EPump] ++ ev2).
        apply quiet_app; [destruct s; reflexivity | exact Ht].
      * intros st' H. inversion H; subst. congruence.
    + simpl. split.
      * apply quiet_app; [exact Hq | destruct s; reflexivity].
      * intros st' H. inversion H; subst. exact Hs.
  - simpl. split; [exact Hq | discriminate].
Qed.

Lemma quiet_run (s : sensor) (fuel : nat) (inputs : list LoopInput) :
  forall st, sensor_ok s st = false ->
  quiet s (fst (run fuel inputs st)) /\
  forall st', snd (run fuel inputs st) = Some st' -> sensor_ok s st' = false.
Proof.
  induction inputs as [ | i rest IH]; intros st Hs; simpl.
  - split; [reflexivity | ]. intros st' H. inversion H; subst. exact Hs.
  - destruct (quiet_loop s fuel i st Hs) as [Hq Hnext].
    destruct (loop fuel i st) as [ev [st1 | ]]; simpl in *.
    + specialize (IH st1 (Hnext st1 eq_refl)). destruct IH as [Hq' Hs'].
      destruct (run fuel rest st1) as [ev' r]. simpl in *.
      split; [apply quiet_app; assumption | exact Hs'].
    + split; [exact Hq | discriminate].
Qed.

Lemma quiet_wifi_poll (s : sensor) (up : nat -> bool) (n : nat) :
  forall k, quiet s (wifi_poll n up k).
Proof.
  unfold quiet. induction n as [ | n IH]; intros k; simpl; [reflexivity | ].
  destruct (up k); [reflexivity | apply IH].
Qed.

Lemma quiet_setup_wifi (s : sensor) (up : nat -> bool) : quiet s (setup_wifi up).
Proof.
  unfold setup_wifi.
  change (quiet s ([EDelay 10; EWifiBegin] ++ wifi_poll 30 up 0)).
  apply quiet_app; [reflexivity | apply quiet_wifi_poll].
Qed.

Lemma setup_trace_begin (s : sensor) (fuel : nat) (b : BootInput) (e : event) :
  begin_ok s b = false ->
  In e (fst (setup fuel b)) -> touches s e = true -> e = EBegin s false.
Proof.
  intros Hb Hin Ht. unfold setup in Hin.
  pose proof (quiet_reconnect s fuel (boot_link b)) as Hq.
  destruct (reconnect fuel (boot_link b)) as [ev0 r]. cbn [fst] in Hq.
  pose proof (quiet_setup_wifi s (wifi_up b)) as Hwifi.
  assert (Hno : forall ev, quiet s ev -> In e ev -> False).
  { intros ev Hqe Hine. rewrite (quiet_In s ev e Hqe Hine) in Ht. discriminate. }
  destruct r; cbn [fst] in Hin.
  - rewrite !in_app_iff in Hin.
    destruct Hin as [H | [H | [H | [H | [H | [H | H]]]]]].
    + exact (False_ind _ (Hno _ Hwifi H)).
    + exact (False_ind _ (Hno _ Hq H)).
    + exfalso. refine (Hno _ _ H). destruct s; reflexivity.
    + unfold init_htu21d in H. destruct s; simpl in Hb; try rewrite Hb in H;
        simpl in H; repeat (destruct H as [<- | H]); try discriminate Ht; try tauto;
        destruct (htu_begin b); simpl in H; repeat (destruct H as [<- | H]);
        try discriminate Ht; tauto.
    + unfold init_max30105 in H. destruct s; simpl in Hb; try rewrite Hb in H;
        simpl in H; repeat (destruct H as [<- | H]); try discriminate Ht; try tauto;
        destruct (max_begin b); simpl in H; repeat (destruct H as [<- | H]);
        try discriminate Ht; tauto.
    + unfold init_mma8452q in H. destruct s; simpl in Hb; try rewrite Hb in H;
        simpl in H; repeat (destruct H as [<- | H]); try discriminate Ht; try tauto;
        destruct (accel_begin b); simpl in H; repeat (destruct H as [<- | H]);
        try discriminate Ht; tauto.
    + simpl in H. destruct H as [<- | []]. destruct s; discriminate Ht.
  - rewrite in_app_iff in Hin.
    destruct Hin as [H | H];
      [exact (False_ind _ (Hno _ Hwifi H)) | exact (False_ind _ (Hno _ Hq H))].
Qed.

(** C3: when a sensor's initialize fails at boot, [setup] leaves its flag
    down and calls its driver only for that one failed begin; afterwards,
    whatever the inputs and however many calls of [loop] follow, the flag
    stays down and the trace contains no publication on any of the
    sensor's reading topics and no call of its driver at all: no read, no
    configuration, no second begin. *)
Theorem C3_failed_sensor_stays_silent (s : sensor) (fuel : nat) (b : BootInput)
  (ev0 : list event) (st0 : State) :
  begin_ok s b = false ->
  setup fuel b = (ev0, Some st0) ->
  sensor_ok s st0 = false /\
  (forall e, In e ev0 -> touches s e = true -> e = EBegin s false) /\
  forall fuel' inputs,
    quiet s (fst (run fuel' inputs st0)) /\
    forall st, snd (run fuel' inputs st0) = Some st -> sensor_ok s st = false.
Proof.
  intros Hb Hs.
  assert (Hflag : sensor_ok s st0 = false).
  { rewrite (setup_returns _ _ _ _ Hs). destruct s; simpl in *; exact Hb. }
  split; [exact Hflag | ]. split.
  - intros e Hin. apply (setup_trace_begin s fuel b e Hb). rewrite Hs. exact Hin.
  - intros fuel' inputs. apply quiet_run. exact Hflag.
Qed.

Lemma C3_failed_sensor_stays_silent_witness :
  begin_ok HTU21D (boot_with link_fresh false true true) = false /\
  quiet HTU21D
    (fst (run 1 [env_input 3000 (IEEE.float_of_Z 20) (IEEE.float_of_Z 50)]
            (set_flags false true true boot_state))).
Proof.
  split; [reflexivity | ].
  apply (C3_failed_sensor_stays_silent HTU21D 1 (boot_with link_fresh false true true)
           (fst (setup 1 (boot_with link_fresh false true true)))
           (set_flags false true true boot_state) eq_refl eq_refl).
Defined.

(** * Further properties of the sketch *)

(** ** setup_wifi *)

Lemma wifi_poll_shape (up : nat -> bool) (n : nat) :
  forall k0,
  exists k, (k <= n)%nat /\
    wifi_poll n up k0 = repeat (EDelay 500) k /\
    (forall j, (j < k)%nat -> up (k0 + j)%nat = false) /\
    ((k < n)%nat -> up (k0 + k)%nat = true).
Proof.
  induction n as [ | n IH]; intros k0; simpl.
  - exists 0%nat. split; [lia | ]. split; [reflexivity | ]. split; intros; lia.
  - destruct (up k0) eqn:Hup.
    + exists 0%nat. split; [lia | ]. split; [reflexivity | ]. split.
      * intros j Hj. lia.
      * intros _. rewrite Nat.add_0_r. exact Hup.
    + destruct (IH (S k0)) as (k & Hk & Hshape & Hfail & Hok).
      exists (S k). split; [lia | ]. split; [ | split].
      * simpl. rewrite Hshape. reflexivity.
      * intros j Hj. destruct j as [ | j].
        -- rewrite Nat.add_0_r. exact Hup.
        -- replace (k0 + S j)%nat with (S k0 + j)%nat by lia. apply Hfail. lia.
      * intros Hlt. replace (k0 + S k)%nat with (S k0 + k)%nat by lia. apply Hok. lia.
Qed.

Lemma delay_total_repeat (ms : Z) (k : nat) :
  delay_total (repeat (EDelay ms) k) = ms * Z.of_nat k.
Proof. induction k as [ | k IH]; simpl delay_total; [lia | rewrite IH; lia]. Qed.

(** X1: the association wait of [setup_wifi] is bounded.  It calls
    WiFi.begin once and then waits in steps of 500 ms while the link is
    down, at most 30 of them: with [k] the number of waits, the status
    poll before each of them found the link down and, when k < 30, the
    poll after the last found it up.  The function blocks for
    10 + 500 k ms, never more than 15010 ms, and it returns whether or not
    the network associated. *)
Theorem setup_wifi_bounded (up : nat -> bool) :
  exists k, (k <= 30)%nat /\
    setup_wifi up = EDelay 10 :: EWifiBegin :: repeat (EDelay 500) k /\
    (forall j, (j < k)%nat -> up j = false) /\
    ((k < 30)%nat -> up k = true) /\
    delay_total (setup_wifi up) = 10 + 500 * Z.of_nat k /\
    delay_total (setup_wifi up) <= 15010.
Proof.
  destruct (wifi_poll_shape up 30 0) as (k & Hk & Hshape & Hfail & Hok).
  exists k. unfold setup_wifi. rewrite Hshape.
  split; [exact Hk | ]. split; [reflexivity | ].
  split; [exact Hfail | ]. split; [exact Hok | ].
  simpl delay_total. rewrite delay_total_repeat. lia.
Qed.

(** ** The tick cadence *)

Lemma set_tick_lastMsg (i : LoopInput) (st : State) :
  lastMsg (fst (tick i st)) = u32 (in_now i).
Proof.
  unfold tick, read_max30105, on_beat. simpl.
  destruct (max30102_ok st); simpl; [ | reflexivity].
  destruct (in_beat i); [ | reflexivity].
  destruct (bpm_accepted _); reflexivity.
Qed.

(** X2: the tick cadence survives the wrap-around of [millis()].  If the
    last tick was taken at time [t] and [d] milliseconds (less than 2^32,
    about 49.7 days) have passed since, a tick is due exactly when
    d > 2000, whether or not the 32-bit clock wrapped in between; the
    tick then records the current time. *)
Theorem tick_due_elapsed (i : LoopInput) (st : State) (t d : Z) :
  0 <= d < 4294967296 ->
  lastMsg st = u32 t ->
  in_now i = u32 (t + d) ->
  tick_due i st = (2000 <? d) /\
  lastMsg (fst (tick i st)) = in_now i.
Proof.
  intros Hd Hlast Hnow. split.
  - unfold tick_due. rewrite Hlast, Hnow.
    assert (Hu : u32 (u32 (u32 (t + d)) - u32 t) = d).
    { rewrite u32_sub. unfold u32. rewrite Zminus_mod_idemp_l.
      replace (t + d - t) with d by lia. apply Z.mod_small. exact Hd. }
    rewrite Hu. reflexivity.
  - rewrite set_tick_lastMsg, Hnow. unfold u32. apply Z.mod_mod. lia.
Qed.

Lemma tick_due_elapsed_witness :
  tick_due (quiet_input link_connected 2000) near_wrap_state = true.
Proof.
  apply (proj1 (tick_due_elapsed (quiet_input link_connected 2000)
                  near_wrap_state 4294966296 3000
                  ltac:(lia) eq_refl eq_refl)).
Defined.

(** ** Publications and the broker connection *)

Lemma publishes_connected_true (evs : list event) : publishes_connected true evs = true.
Proof.
  induction evs as [ | e evs IH]; simpl; [reflexivity | ].
  destruct e as [t p | ms | | [ | ] | | s ok | s | s]; exact IH.
Qed.

Lemma publishes_connected_wifi (up : nat -> bool) (rest : list event) :
  publishes_connected false (setup_wifi up ++ rest) = publishes_connected false rest.
Proof.
  destruct (wifi_poll_shape up 30 0) as (k & _ & Hs & _).
  unfold setup_wifi. rewrite Hs. clear Hs. simpl.
  induction k as [ | k IH]; simpl; [reflexivity | exact IH].
Qed.

Lemma publishes_connected_loop (ok : nat -> bool) (rest : list event) (fuel : nat) :
  forall k,
    publishes_connected false
      (fst (connect_loop fuel ok k) ++ (if snd (connect_loop fuel ok k) then rest else []))
    = true.
Proof.
  induction fuel as [ | f IH]; intros k; simpl; [reflexivity | ].
  destruct (ok k).
  - simpl. apply publishes_connected_true.
  - specialize (IH (S k)). destruct (connect_loop f ok (S k)) as [ev r]. simpl in *.
    exact IH.
Qed.

Lemma publishes_connected_reconnect (c : bool) (l : Link) (rest : list event) (fuel : nat) :
  (link_up l = true -> c = true) ->
  publishes_connected c
    (fst (reconnect fuel l) ++ (if snd (reconnect fuel l) then rest else []))
  = true.
Proof.
  intros Hc. destruct c; [apply publishes_connected_true | ].
  unfold reconnect. destruct (link_up l).
  - discriminate (Hc eq_refl).
  - apply publishes_connected_loop.
Qed.

(** X3: nothing is published before the broker is connected.  In the
    trace of [setup] and in the trace of every call of [loop], each
    client.publish comes after a successful client.connect, unless the
    client was already connected on entry; while [reconnect] is still
    retrying, the trace holds no publication at all. *)
Theorem publish_only_when_connected (fuel : nat) (b : BootInput) (i : LoopInput)
  (st : State) :
  publishes_connected (link_up (boot_link b)) (fst (setup fuel b)) = true /\
  publishes_connected (link_up (in_link i)) (fst (loop fuel i st)) = true.
Proof.
  split.
  - unfold setup.
    pose proof (fun rest => publishes_connected_reconnect (link_up (boot_link b))
                              (boot_link b) rest fuel (fun H => H)) as Hr.
    destruct (reconnect fuel (boot_link b)) as [ev r]. simpl in Hr.
    destruct (link_up (boot_link b)) eqn:Hup; [apply publishes_connected_true | ].
    destruct r; cbv beta iota zeta delta [fst].
    + rewrite publishes_connected_wifi. apply Hr.
    + rewrite publishes_connected_wifi. specialize (Hr []). rewrite app_nil_r in *. exact Hr.
  - unfold loop.
    pose proof (fun rest => publishes_connected_reconnect (link_up (in_link i))
                              (in_link i) rest fuel (fun H => H)) as Hr.
    destruct (reconnect fuel (in_link i)) as [ev r]. simpl in Hr.
    destruct r.
    + destruct (tick_due i st).
      * destruct (tick i st) as [st' ev']. simpl. apply Hr.
      * simpl. apply Hr.
    + simpl. specialize (Hr []). rewrite app_nil_r in Hr. exact Hr.
Qed.

Lemma connect_loop_status (ok : nat -> bool) (fuel : nat) :
  forall k,
    payloads_on "sensores/status" (fst (connect_loop fuel ok k))
    = (if snd (connect_loop fuel ok k) then [[FLit status_msg]] else []).
Proof.
  induction fuel as [ | f IH]; intros k; simpl; [reflexivity | ].
  destruct (ok k); [reflexivity | ].
  specialize (IH (S k)). destruct (connect_loop f ok (S k)) as [ev r]. simpl in *.
  exact IH.
Qed.

Lemma tick_no_status (i : LoopInput) (st : State) :
  payloads_on "sensores/status" (snd (tick i st)) = [].
Proof. rewrite tick_trace, !payloads_on_app. silent_blocks. reflexivity. Qed.

(** X4: the online notice is one-shot.  A call of [loop] that returns
    publishes "ESP32 conectado ..." on sensores/status exactly once when
    it had to reconnect the broker, and not at all when the client was
    still connected; no tick ever publishes on that topic. *)
Theorem status_notice_once (fuel : nat) (i : LoopInput) (st st' : State)
  (ev : list event) :
  loop fuel i st = (ev, Some st') ->
  payloads_on "sensores/status" ev
    = (if link_up (in_link i) then [] else [[FLit status_msg]]).
Proof.
  unfold loop, reconnect. destruct (link_up (in_link i)).
  - destruct (tick_due i st).
    + pose proof (tick_no_status i st) as Ht. destruct (tick i st) as [st2 ev2].
      intros H. inversion H; subst. simpl in *. exact Ht.
    + intros H. inversion H; subst. reflexivity.
  - pose proof (connect_loop_status (connect_ok (in_link i)) fuel 0) as Hs.
    destruct (connect_loop fuel (connect_ok (in_link i)) 0) as [ev0 [ | ]];
      [ | discriminate]. simpl in Hs.
    destruct (tick_due i st).
    + pose proof (tick_no_status i st) as Ht. destruct (tick i st) as [st2 ev2].
      intros H. inversion H; subst. simpl in Ht.
      rewrite payloads_on_app, Hs. simpl. rewrite Ht. reflexivity.
    + intros H. inversion H; subst. rewrite payloads_on_app, Hs. reflexivity.
Qed.

Lemma status_notice_once_witness :
  payloads_on "sensores/status" (fst (loop 5 (quiet_input link_back 1000) boot_state))
    = [[FLit status_msg]].
Proof.
  apply (status_notice_once 5 (quiet_input link_back 1000) boot_state boot_state
           (fst (loop 5 (quiet_input link_back 1000) boot_state))).
  reflexivity.
Defined.

(** ** Bring-up reports *)

Lemma payloads_on_reconnect_other (t : string) (fuel : nat) (l : Link) :
  String.eqb "sensores/status" t = false ->
  payloads_on t (fst (reconnect fuel l)) = [].
Proof.
  intros Ht. unfold reconnect. destruct (link_up l); [reflexivity | ].
  generalize 0%nat. induction fuel as [ | f IH]; intros k; cbn [connect_loop];
    [reflexivity | ].
  destruct (connect_ok l k).
  - unfold publish. cbn [fst payloads_on]. rewrite Ht. reflexivity.
  - specialize (IH (S k)). destruct (connect_loop f (connect_ok l) (S k)) as [ev r].
    cbn [fst payloads_on] in *. exact IH.
Qed.

Lemma payloads_on_setup_wifi (t : string) (up : nat -> bool) :
  payloads_on t (setup_wifi up) = [].
Proof.
  destruct (wifi_poll_shape up 30 0) as (k & _ & Hs & _).
  unfold setup_wifi. rewrite Hs. clear Hs. simpl.
  induction k as [ | k IH]; simpl; [reflexivity | exact IH].
Qed.

(** The trace of a [setup] that returns. *)
Lemma setup_trace (fuel : nat) (b : BootInput) (ev : list event) (st : State) :
  setup fuel b = (ev, Some st) ->
  ev = setup_wifi (wifi_up b) ++ fst (reconnect fuel (boot_link b))
         ++ [publish "sensores/info" "Inicializando sensores en ESP32-C3";
             publish "sensores/config" "I2C: SDA=GPIO6, SCL=GPIO7, 100kHz"]
         ++ init_htu21d (htu_begin b)
         ++ init_max30105 (max_begin b)
         ++ init_mma8452q (accel_begin b)
         ++ [publish "sensores/resumen" (resumen st)].
Proof.
  unfold setup. destruct (reconnect fuel (boot_link b)) as [ev0 [ | ]]; [ | discriminate].
  intros H. inversion H; subst. reflexivity.
Qed.

Lemma setup_trace_blocked (fuel : nat) (b : BootInput) (ev : list event) :
  setup fuel b = (ev, None) ->
  ev = setup_wifi (wifi_up b) ++ fst (reconnect fuel (boot_link b)).
Proof.
  unfold setup. destruct (reconnect fuel (boot_link b)) as [ev0 [ | ]]; [discriminate | ].
  intros H. injection H as <-. reflexivity.
Qed.

(** X5: the bring-up report.  A [setup] that returns publishes, for each
    sensor, exactly one result: the text "<sensor> inicializado
    correctamente" (followed by " - Escala 2g" for the accelerometer) on
    the sensor's own topic when its begin succeeded, and nothing on that
    topic otherwise, when "<sensor> no encontrado" goes to sensores/error
    instead; the errors appear in the order HTU21D, MAX30105, MMA8452Q, and
    nothing else is published on sensores/error at boot. *)
Theorem setup_reports (fuel : nat) (b : BootInput) (ev : list event) (st : State) :
  setup fuel b = (ev, Some st) ->
  payloads_on "sensores/error" ev
    = (if htu_begin b then [] else [[FLit (not_found HTU21D)]])
      ++ (if max_begin b then [] else [[FLit (not_found MAX30105)]])
      ++ (if accel_begin b then [] else [[FLit (not_found MMA8452Q)]]) /\
  forall s, payloads_on (init_topic s) ev
              = (if begin_ok s b then [[FLit (init_msg s)]] else []).
Proof.
  intros Hs. rewrite (setup_trace fuel b ev st Hs). split.
  - rewrite !payloads_on_app, payloads_on_setup_wifi.
    rewrite payloads_on_reconnect_other by reflexivity.
    destruct (htu_begin b), (max_begin b), (accel_begin b); reflexivity.
  - intros s. rewrite !payloads_on_app, payloads_on_setup_wifi.
    rewrite payloads_on_reconnect_other by (destruct s; reflexivity).
    destruct s; simpl begin_ok;
      destruct (htu_begin b), (max_begin b), (accel_begin b); reflexivity.
Qed.

Lemma setup_reports_witness :
  payloads_on "sensores/error" (fst (setup 1 (boot_with link_fresh false true false)))
    = [[FLit (not_found HTU21D)]; [FLit (not_found MMA8452Q)]].
Proof.
  apply (setup_reports 1 (boot_with link_fresh false true false)
           (fst (setup 1 (boot_with link_fresh false true false)))
           (set_flags false true false boot_state) eq_refl).
Defined.

(** ** Sensor health over a session *)

Lemma run_flags (s : sensor) (fuel : nat) (inputs : list LoopInput) :
  forall st st', snd (run fuel inputs st) = Some st' -> sensor_ok s st' = sensor_ok s st.
Proof.
  induction inputs as [ | i rest IH]; intros st st' H; simpl in H.
  - inversion H; subst. reflexivity.
  - destruct (loop fuel i st) as [ev [st1 | ]] eqn:Hl; [ | discriminate].
    destruct (run fuel rest st1) as [ev' r] eqn:Hrun. simpl in H. subst r.
    rewrite (IH st1 st'); [ | rewrite Hrun; reflexivity].
    rewrite (loop_returns _ _ _ _ _ Hl).
    destruct (tick_due i st); [apply tick_flags | reflexivity].
Qed.

(** X6: a health flag is decided at boot and never changes.  At every
    point of a session the flag of a sensor equals the result of its begin
    call in [setup]: no transient read failure ever marks a sensor
    unhealthy, and nothing marks it healthy again. *)
Theorem health_is_boot_result (fuel : nat) (b : BootInput) (inputs : list LoopInput)
  (ev : list event) (st : State) (s : sensor) :
  session fuel b inputs = (ev, Some st) ->
  sensor_ok s st = begin_ok s b.
Proof.
  unfold session. destruct (setup fuel b) as [ev0 [st0 | ]] eqn:Hs; [ | discriminate].
  destruct (run fuel inputs st0) as [ev1 r] eqn:Hrun. intros H. inversion H; subst.
  rewrite (run_flags s fuel inputs st0 st); [ | rewrite Hrun; reflexivity].
  rewrite (setup_returns _ _ _ _ Hs). destruct s; reflexivity.
Qed.

Lemma health_is_boot_result_witness :
  sensor_ok HTU21D state_after_tick = true.
Proof.
  apply (health_is_boot_result 1 (boot_with link_fresh true true true)
           [env_input 3000 S754_nan S754_nan]
           (fst (session 1 (boot_with link_fresh true true true)
                   [env_input 3000 S754_nan S754_nan]))
           state_after_tick HTU21D).
  vm_compute. reflexivity.
Defined.

Lemma resumen_flags (st st' : State) :
  (forall s, sensor_ok s st' = sensor_ok s st) -> resumen st' = resumen st.
Proof.
  intros H. unfold resumen.
  rewrite (H HTU21D : htu21d_ok st' = htu21d_ok st).
  rewrite (H MAX30105 : max30102_ok st' = max30102_ok st).
  rewrite (H MMA8452Q : accel_ok st' = accel_ok st). reflexivity.
Qed.

Lemma tick_resumen (i : LoopInput) (st : State) :
  payloads_on "sensores/resumen" (snd (tick i st))
    = (if Z.rem (wrap_int (contador st + 1)) 10 =? 1 then [[FLit (resumen st)]] else []).
Proof.
  rewrite tick_trace, !payloads_on_app. silent_blocks.
  unfold tick_head.
  replace (resumen (set_tick (in_now i) st)) with (resumen st)
    by (apply resumen_flags; intros s; destruct s; reflexivity).
  cbn [contador set_tick]. by_cases.
Qed.

Lemma loop_resumen (fuel : nat) (i : LoopInput) (st : State) :
  Forall (eq [FLit (resumen st)]) (payloads_on "sensores/resumen" (fst (loop fuel i st))).
Proof.
  unfold loop.
  pose proof (payloads_on_reconnect_other "sensores/resumen" fuel (in_link i) eq_refl) as Hc.
  destruct (reconnect fuel (in_link i)) as [ev0 [ | ]]; simpl in Hc.
  - destruct (tick_due i st).
    + pose proof (tick_resumen i st) as Ht. destruct (tick i st) as [st2 ev2].
      simpl in *. rewrite payloads_on_app, Hc. simpl. rewrite Ht.
      destruct (_ =? 1); repeat constructor.
    + simpl. rewrite payloads_on_app, Hc. constructor.
  - simpl. rewrite Hc. constructor.
Qed.

Lemma run_resumen (fuel : nat) (inputs : list LoopInput) :
  forall st,
    Forall (eq [FLit (resumen st)])
      (payloads_on "sensores/resumen" (fst (run fuel inputs st))).
Proof.
  induction inputs as [ | i rest IH]; intros st; simpl; [constructor | ].
  pose proof (loop_resumen fuel i st) as Hl.
  destruct (loop fuel i st) as [ev [st1 | ]] eqn:Hloop; simpl in Hl.
  - specialize (IH st1).
    assert (Hsame : resumen st1 = resumen st).
    { apply resumen_flags. intros s.
      apply (run_flags s fuel [i] st st1). simpl. rewrite Hloop. reflexivity. }
    rewrite Hsame in IH.
    destruct (run fuel rest st1) as [ev' r]. simpl in *.
    rewrite payloads_on_app. apply Forall_app. split; assumption.
  - simpl. exact Hl.
Qed.

(** X7: the summary of active sensors never changes during a session.
    Every publication on sensores/resumen, the one at the end of [setup]
    and each periodic one in [loop], carries the same text, the one that
    lists the sensors whose begin succeeded at boot ("NINGUNO" when none
    did). *)
Theorem resumen_constant (fuel : nat) (b : BootInput) (inputs : list LoopInput) :
  let st0 := set_flags (htu_begin b) (max_begin b) (accel_begin b) boot_state in
  Forall (eq [FLit (resumen st0)])
    (payloads_on "sensores/resumen" (fst (session fuel b inputs))) /\
  (resumen st0 = "Sensores activos: NINGUNO" <->
   htu_begin b = false /\ max_begin b = false /\ accel_begin b = false).
Proof.
  intros st0. split.
  - unfold session. destruct (setup fuel b) as [ev0 [st | ]] eqn:Hs.
    + pose proof (setup_returns _ _ _ _ Hs) as Hst. fold st0 in Hst. subst st.
      pose proof (run_resumen fuel inputs st0) as Hrun.
      destruct (run fuel inputs st0) as [ev1 r]. simpl in *.
      rewrite payloads_on_app. apply Forall_app. split; [ | exact Hrun].
      rewrite (setup_trace fuel b ev0 st0 Hs).
      rewrite !payloads_on_app, payloads_on_setup_wifi.
      rewrite payloads_on_reconnect_other by reflexivity.
      destruct (htu_begin b), (max_begin b), (accel_begin b); repeat constructor.
    + cbn [fst]. rewrite (setup_trace_blocked fuel b ev0 Hs).
      rewrite payloads_on_app, payloads_on_setup_wifi.
      rewrite payloads_on_reconnect_other by reflexivity. constructor.
  - subst st0. unfold resumen. simpl.
    destruct (htu_begin b), (max_begin b), (accel_begin b); simpl;
      split; intros H; try discriminate H; try reflexivity; try tauto;
      destruct H as (H1 & H2 & H3); discriminate.
Qed.

(** ** What every tick publishes *)

Lemma wrap_next (c : Z) : 0 <= c < IEEE.int_max -> wrap_int (c + 1) = c + 1.
Proof. unfold IEEE.int_max. intros H. apply wrap_int_small. lia. Qed.

Lemma rem_mod_nonneg (a b : Z) : 0 <= a -> 0 < b -> Z.rem a b = a mod b.
Proof. intros Ha Hb. apply Z.rem_mod_nonneg; lia. Qed.

(** X8: the periodic reports.  With the tick counter at [c] before a tick
    (0 <= c < 2^31 - 1), the tick publishes the summary on sensores/resumen
    exactly when c + 1 = 1 modulo 10 (ticks 1, 11, 21, ...), and the health
    echo of each sensor exactly when c + 1 is a multiple of 5; the echo
    reads "OK" when the sensor's flag is up and "ERROR" otherwise. *)
Theorem periodic_reports (i : LoopInput) (st : State) (s : sensor) :
  0 <= contador st < IEEE.int_max ->
  payloads_on "sensores/resumen" (snd (tick i st))
    = (if (contador st + 1) mod 10 =? 1 then [[FLit (resumen st)]] else []) /\
  payloads_on (estado_topic s) (snd (tick i st))
    = (if (contador st + 1) mod 5 =? 0
       then [[FLit (if sensor_ok s st then "OK" else "ERROR")]] else []).
Proof.
  intros Hc. split.
  - rewrite tick_resumen, (wrap_next _ Hc), rem_mod_nonneg by lia. reflexivity.
  - rewrite tick_trace, !payloads_on_app.
    destruct s; cbn [estado_topic sensor_ok]; silent_blocks;
      unfold tick_tail, estado; cbn [contador set_tick];
      rewrite (wrap_next _ Hc), rem_mod_nonneg by lia;
      destruct (_ =? 0); [ | reflexivity | | reflexivity | | reflexivity];
      destruct (htu21d_ok st), (max30102_ok st), (accel_ok st); reflexivity.
Qed.

Lemma periodic_reports_witness :
  payloads_on (estado_topic HTU21D)
    (snd (tick (quiet_input link_connected 20000) (counting_state 4)))
    = [[FLit "ERROR"]].
Proof.
  apply (proj2 (periodic_reports (quiet_input link_connected 20000) (counting_state 4)
                  HTU21D ltac:(unfold IEEE.int_max; simpl; lia))).
Defined.

(** X9: the device reports itself alive on every tick, sensors or not.
    Whatever the health flags and the sensor readings, a tick publishes
    exactly one value on each of sensores/contador, sistema/wifi_ip,
    sistema/wifi_status and sistema/uptime; the uptime is the clock in
    whole seconds. *)
Theorem tick_heartbeat (i : LoopInput) (st : State) :
  payloads_on "sensores/contador" (snd (tick i st))
    = [[FInt (wrap_int (contador st + 1))]] /\
  payloads_on "sistema/wifi_ip" (snd (tick i st)) = [[FLit (in_ip i)]] /\
  payloads_on "sistema/wifi_status" (snd (tick i st))
    = [[FLit (if in_wifi i then "conectado" else "desconectado")]] /\
  payloads_on "sistema/uptime" (snd (tick i st)) = [[FInt (u32 (in_uptime_ms i) / 1000)]] /\
  0 <= u32 (in_uptime_ms i) / 1000 <= 4294967.
Proof.
  split; [apply tick_publishes_contador | ].
  split; [ | split; [ | split]].
  - rewrite tick_trace, !payloads_on_app. silent_blocks. unfold tick_tail. by_cases.
  - rewrite tick_trace, !payloads_on_app. silent_blocks. unfold tick_tail. by_cases.
  - rewrite tick_trace, !payloads_on_app. silent_blocks. unfold tick_tail. by_cases.
  - unfold u32. Z.div_mod_to_equations. lia.
Qed.

(** ** Polling of the drivers *)

Lemma reads_app (s : sensor) (a b : list event) :
  reads s (a ++ b) = (reads s a + reads s b)%nat.
Proof. unfold reads. rewrite List.filter_app, length_app. reflexivity. Qed.

(** The guarded block of a sensor is entered on a tick exactly when its
    flag is up. *)
Lemma reads_of_tick (s : sensor) (i : LoopInput) (st : State) :
  reads s (snd (tick i st)) = (if sensor_ok s st then 1 else 0)%nat.
Proof.
  rewrite tick_trace, !reads_app.
  replace (reads s (tick_head i st)) with 0%nat
    by (unfold tick_head; destruct s; by_cases).
  replace (reads s (tick_tail i st)) with 0%nat
    by (unfold tick_tail; destruct s; by_cases).
  unfold read_htu21d, read_max30105, read_mma8452q, publish_axis.
  change (htu21d_ok (set_tick (in_now i) st)) with (htu21d_ok st).
  change (max30102_ok (set_tick (in_now i) st)) with (max30102_ok st).
  change (accel_ok (set_tick (in_now i) st)) with (accel_ok st).
  destruct s; cbn [sensor_ok];
    destruct (htu21d_ok st), (max30102_ok st), (accel_ok st); by_cases.
Qed.

(** X11: a failed measurement of the environment sensor is reported once
    and costs nothing else.  On a tick on which the sensor is healthy and
    htu21d.measure() fails, exactly "HTU21D: fallo en medicion" is
    published for it on sensores/error, neither temperature nor humidity
    is published, and the sensor stays healthy, so that it is measured
    again on the next tick. *)
Theorem measure_failure_is_transient (i : LoopInput) (st : State) :
  htu21d_ok st = true -> in_measure i = false ->
  payloads_on "sensores/error" (read_htu21d i (set_tick (in_now i) st))
    = [[FLit "HTU21D: fallo en medicion"]] /\
  payloads_on "sensores/temperatura" (snd (tick i st)) = [] /\
  payloads_on "sensores/humedad" (snd (tick i st)) = [] /\
  htu21d_ok (fst (tick i st)) = true /\
  forall i', reads HTU21D (snd (tick i' (fst (tick i st)))) = 1%nat.
Proof.
  intros Hok Hm.
  assert (Hflag : htu21d_ok (fst (tick i st)) = true).
  { rewrite <- Hok. apply (tick_flags i st HTU21D). }
  split; [ | split; [ | split; [ | split]]].
  - unfold read_htu21d. cbn [htu21d_ok set_tick]. rewrite Hok, Hm. reflexivity.
  - rewrite tick_trace, !payloads_on_app. silent_blocks.
    unfold read_htu21d. cbn [htu21d_ok set_tick]. rewrite Hok, Hm. reflexivity.
  - rewrite tick_trace, !payloads_on_app. silent_blocks.
    unfold read_htu21d. cbn [htu21d_ok set_tick]. rewrite Hok, Hm. reflexivity.
  - exact Hflag.
  - intros i'. rewrite reads_of_tick. cbn [sensor_ok]. rewrite Hflag. reflexivity.
Qed.

Lemma measure_failure_is_transient_witness :
  payloads_on "sensores/temperatura"
    (snd (tick (quiet_input link_connected 3000) state_all_ok)) = [].
Proof.
  apply (measure_failure_is_transient (quiet_input link_connected 3000) state_all_ok
           eq_refl eq_refl).
Defined.

(** X12: an accelerometer without a new sample publishes nothing but its
    notice.  On a tick on which the accelerometer is healthy and
    accel.available() is false, none of its reading topics is published
    (no axis, no magnitude, no orientation, no movement, no combined
    object), "MMA8452Q: sin nuevos datos" is published once on
    sensores/error, and the sensor stays healthy. *)
Theorem no_sample_no_readings (i : LoopInput) (st : State) :
  accel_ok st = true -> in_available i = false ->
  (forall t, In t (reading_topics MMA8452Q) -> payloads_on t (snd (tick i st)) = []) /\
  payloads_on "sensores/error" (read_mma8452q i (set_tick (in_now i) st))
    = [[FLit "MMA8452Q: sin nuevos datos"]] /\
  accel_ok (fst (tick i st)) = true.
Proof.
  intros Hok Hav. split; [ | split].
  - intros t Ht. simpl in Ht.
    repeat (destruct Ht as [<- | Ht]); try contradiction;
      rewrite tick_trace, !payloads_on_app; silent_blocks;
      unfold read_mma8452q; cbn [accel_ok set_tick]; rewrite Hok, Hav; reflexivity.
  - unfold read_mma8452q. cbn [accel_ok set_tick]. rewrite Hok, Hav. reflexivity.
  - rewrite <- Hok. apply (tick_flags i st MMA8452Q).
Qed.

Lemma no_sample_no_readings_witness :
  accel_ok (fst (tick (quiet_input link_connected 3000) state_all_ok)) = true.
Proof.
  apply (no_sample_no_readings (quiet_input link_connected 3000) state_all_ok
           eq_refl eq_refl).
Defined.

(** ** The tick counter over a session *)

Lemma map_seq_from (A : Type) (m : nat) :
  forall (g : nat -> A) (a : nat),
    map g (seq a m) = map (fun k => g (a + k)%nat) (seq 0 m).
Proof.
  induction m as [ | m IH]; intros g a; simpl; [reflexivity | ].
  rewrite Nat.add_0_r. f_equal.
  rewrite (IH g (S a)), (IH (fun k => g (a + k)%nat) 1%nat).
  apply map_ext. intros k. f_equal. lia.
Qed.

Lemma count_from_app (c : Z) (n m : nat) :
  count_from c (n + m) = count_from c n ++ count_from (c + Z.of_nat n) m.
Proof.
  unfold count_from. rewrite seq_app, map_app. f_equal.
  rewrite map_seq_from. apply map_ext. intros k. do 2 f_equal. lia.
Qed.

Lemma loop_contador (fuel : nat) (i : LoopInput) (st : State) :
  0 <= contador st ->
  (tick_due i st = true -> contador st < IEEE.int_max) ->
  payloads_on "sensores/contador" (fst (loop fuel i st))
    = match snd (loop fuel i st) with
      | Some _ => count_from (contador st) (if tick_due i st then 1 else 0)
      | None => []
      end /\
  forall st', snd (loop fuel i st) = Some st' ->
    contador st' = contador st + (if tick_due i st then 1 else 0).
Proof.
  intros Hc Hdue. unfold loop.
  pose proof (reconnect_contador fuel (in_link i)) as Hconn.
  destruct (reconnect fuel (in_link i)) as [ev0 [ | ]]; simpl in Hconn.
  - destruct (tick_due i st).
    + pose proof (tick_contador i st) as Hk. pose proof (tick_publishes_contador i st) as Hp.
      destruct (tick i st) as [st2 ev2]. simpl in *.
      rewrite (wrap_next _ (conj Hc (Hdue eq_refl))) in Hk, Hp. split.
      * rewrite payloads_on_app, Hconn. simpl. rewrite Hp.
        unfold count_from. simpl. do 3 f_equal. lia.
      * intros st' H. inversion H; subst. exact Hk.
    + simpl. split.
      * rewrite payloads_on_app, Hconn. reflexivity.
      * intros st' H. inversion H; subst. lia.
  - simpl. split; [exact Hconn | discriminate].
Qed.

(** A call of [loop] that does not return publishes no counter. *)
Lemma loop_blocked_contador (fuel : nat) (i : LoopInput) (st : State) :
  snd (loop fuel i st) = None ->
  payloads_on "sensores/contador" (fst (loop fuel i st)) = [].
Proof.
  unfold loop. pose proof (reconnect_contador fuel (in_link i)) as Hconn.
  destruct (reconnect fuel (in_link i)) as [ev0 [ | ]]; simpl in Hconn.
  - destruct (tick_due i st); [destruct (tick i st) | ]; discriminate.
  - intros _. exact Hconn.
Qed.

(** X13: over a session the published tick counters are consecutive.
    Starting from a counter [c], a run of [loop] calls that fires [n]
    ticks (with c + n below 2^31) publishes on sensores/contador exactly
    c+1, c+2, ..., c+n, in that order, however many calls fired no tick
    and however often the broker had to be reconnected in between; the
    counter ends at c + n. *)
Theorem contador_sequence (fuel : nat) (inputs : list LoopInput) :
  forall st,
    let n := ticks_fired fuel inputs st in
    0 <= contador st ->
    contador st + Z.of_nat n <= IEEE.int_max ->
    (n <= length inputs)%nat /\
    payloads_on "sensores/contador" (fst (run fuel inputs st))
      = count_from (contador st) n /\
    forall st', snd (run fuel inputs st) = Some st' ->
      contador st' = contador st + Z.of_nat n.
Proof.
  induction inputs as [ | i rest IH]; intros st n Hc Hmax; subst n.
  - simpl. split; [lia | ]. split; [reflexivity | ].
    intros st' H. inversion H; subst. lia.
  - simpl in Hmax |- *.
    pose proof (loop_blocked_contador fuel i st) as Hblocked.
    pose proof (loop_contador fuel i st Hc) as Hreturned.
    destruct (loop fuel i st) as [ev [st1 | ]] eqn:Hloop; simpl in Hblocked, Hreturned.
    + assert (Hstep : 0 <= (if tick_due i st then 1 else 0) <= 1)
        by (destruct (tick_due i st); lia).
      assert (Hdue : tick_due i st = true -> contador st < IEEE.int_max).
      { intros Hd. rewrite Hd in Hmax. lia. }
      destruct (Hreturned Hdue) as [Hp Hk]. specialize (Hk st1 eq_refl).
      assert (Hmax1 : contador st1 + Z.of_nat (ticks_fired fuel rest st1) <= IEEE.int_max).
      { rewrite Hk. destruct (tick_due i st); lia. }
      destruct (IH st1 ltac:(lia) Hmax1) as (Hn & Hq & Hend).
      destruct (run fuel rest st1) as [ev' r] eqn:Hrun. simpl in *.
      split; [destruct (tick_due i st); lia | ]. split.
      * rewrite payloads_on_app, Hp, Hq, count_from_app, Hk.
        destruct (tick_due i st); reflexivity.
      * intros st' H. rewrite (Hend st' H), Hk.
        destruct (tick_due i st); lia.
    + simpl. split; [lia | ]. split; [exact (Hblocked eq_refl) | discriminate].
Qed.

Lemma contador_sequence_witness :
  payloads_on "sensores/contador"
    (fst (run 5 [quiet_input link_connected 3000; quiet_input link_connected 4000;
                 quiet_input link_back 9000] boot_state))
    = [[FInt 1]; [FInt 2]].
Proof.
  apply (contador_sequence 5
           [quiet_input link_connected 3000; quiet_input link_connected 4000;
            quiet_input link_back 9000] boot_state).
  - simpl. lia.
  - vm_compute. discriminate.
Defined.

(** ** The heart-rate estimator *)

Lemma heart_payloads (i : LoopInput) (st : State) :
  max30102_ok st = true ->
  let st' := fst (tick i st) in
  payloads_on "sensores/ir_value" (snd (tick i st)) = [[FInt (in_ir i)]] /\
  payloads_on "sensores/bpm" (snd (tick i st))
    = [[bpm_text (beatsPerMinute st')]] /\
  payloads_on "sensores/bpm_avg" (snd (tick i st)) = [[FInt (beatAvg st')]] /\
  payloads_on "sensores/finger_status" (snd (tick i st))
    = [[FLit (finger_status (in_ir i))]] /\
  payloads_on "sensores/heart_data" (snd (tick i st)) = [heart_json (in_ir i) st'].
Proof.
  intros Hok st'. subst st'. rewrite tick_trace, !payloads_on_app.
  repeat split; silent_blocks; unfold tick, read_max30105; simpl max30102_ok;
    rewrite Hok; reflexivity.
Qed.

Lemma tick_heart_state (i : LoopInput) (st : State) :
  let st1 := if max30102_ok st && in_beat i
             then on_beat (in_beat_ms i) (in_beat_ms' i) st else st in
  rates (fst (tick i st)) = rates st1 /\
  rateSpot (fst (tick i st)) = rateSpot st1 /\
  lastBeat (fst (tick i st)) = lastBeat st1 /\
  beatsPerMinute (fst (tick i st)) = beatsPerMinute st1 /\
  beatAvg (fst (tick i st)) = beatAvg st1.
Proof.
  unfold tick, read_max30105, on_beat. simpl.
  destruct (max30102_ok st); simpl; [ | repeat split].
  destruct (in_beat i); [ | repeat split].
  destruct (bpm_accepted _); repeat split.
Qed.

(** X14: a tick without a beat leaves the estimator alone.  When
    checkForBeat reports no beat (as with the finger off the sensor), the
    ring buffer, its write index, the time of the last beat, the
    instantaneous BPM and the average are unchanged, and the tick
    republishes the previous BPM and average. *)
Theorem no_beat_no_change (i : LoopInput) (st : State) :
  max30102_ok st = true -> in_beat i = false ->
  let st' := fst (tick i st) in
  rates st' = rates st /\ rateSpot st' = rateSpot st /\ lastBeat st' = lastBeat st /\
  beatsPerMinute st' = beatsPerMinute st /\ beatAvg st' = beatAvg st /\
  payloads_on "sensores/bpm" (snd (tick i st)) = [[bpm_text (beatsPerMinute st)]] /\
  payloads_on "sensores/bpm_avg" (snd (tick i st)) = [[FInt (beatAvg st)]].
Proof.
  intros Hok Hb st'. subst st'.
  destruct (tick_heart_state i st) as (H1 & H2 & H3 & H4 & H5).
  rewrite Hok, Hb in *. simpl in *.
  destruct (heart_payloads i st Hok) as (_ & Hbpm & Havg & _).
  rewrite H4 in Hbpm. rewrite H5 in Havg. repeat split; assumption.
Qed.

Lemma no_beat_no_change_witness :
  rates (fst (tick (quiet_input link_connected 9000) state_bpm21)) = [21; 0; 0; 0].
Proof.
  apply (no_beat_no_change (quiet_input link_connected 9000) state_bpm21 eq_refl eq_refl).
Defined.

Lemma u32_to_long (z : Z) : u32 (to_long z) = u32 z.
Proof.
  unfold to_long, u32.
  destruct (Z.ltb_spec (z mod 4294967296) 2147483648); Z.div_mod_to_equations; lia.
Qed.

Lemma on_beat_accepted_state (ms ms' : Z) (st : State) :
  bpm_accepted (beatsPerMinute (on_beat ms ms' st)) = true ->
  rates (on_beat ms ms' st)
    = <[Z.to_nat (rateSpot st) := IEEE.to_byte (beatsPerMinute (on_beat ms ms' st))]>
        (rates st) /\
  rateSpot (on_beat ms ms' st) = to_u8 (Z.rem (to_u8 (rateSpot st + 1)) RATE_SIZE) /\
  in_bpm_range (IEEE.to_byte (beatsPerMinute (on_beat ms ms' st))).
Proof.
  intros Hacc. split; [apply on_beat_accepted; exact Hacc | ]. split.
  - revert Hacc. unfold on_beat.
    destruct (bpm_accepted (bpm_of_delta _)) eqn:H; simpl; [reflexivity | congruence].
  - apply accepted_byte_range; [ | exact Hacc].
    rewrite on_beat_bpm. apply bpm_of_delta_valid.
Qed.

Lemma next_spot_cases (s : Z) :
  0 <= s < 4 ->
  to_u8 (Z.rem (to_u8 (s + 1)) RATE_SIZE) = (if s =? 3 then 0 else s + 1).
Proof.
  intros Hs. assert (Hc : s = 0 \/ s = 1 \/ s = 2 \/ s = 3) by lia.
  destruct Hc as [-> | [-> | [-> | ->]]]; reflexivity.
Qed.

Lemma slot_sum_bounds (lo hi a b c d : Z) :
  Forall (fun v => lo <= v <= hi) [a; b; c; d] ->
  lo <= slot_sum [a; b; c; d] / 4 <= hi.
Proof.
  intros H.
  repeat match goal with
         | H : Forall _ (_ :: _) |- _ => apply Forall_cons_1 in H as [? H]
         end.
  unfold slot_sum. simpl. Z.div_mod_to_equations. lia.
Qed.

(** X16: the average stays within the slots.  In every reachable state
    the published average lies between the smallest and the largest value
    of the ring buffer: if every slot is within [lo, hi], so is [beatAvg];
    in particular four equal slots give exactly that value, and the
    average is always between 0 and 254.  The write index is always a
    valid index of the buffer. *)
Theorem average_within_slots (st : State) (lo hi : Z) :
  reachable st ->
  Forall (fun v => lo <= v <= hi) (rates st) ->
  lo <= beatAvg st <= hi /\
  0 <= beatAvg st <= 254 /\
  (0 <= rateSpot st < 4 /\ (Z.to_nat (rateSpot st) < length (rates st))%nat).
Proof.
  intros Hr Hall. pose proof (heart_inv_reachable st Hr) as Hinv.
  destruct (beatAvg_of_inv st Hinv) as (Hlen & _ & Havg).
  destruct Hinv as (_ & Hslots & Hspot & _).
  destruct (four_slots _ Hlen) as (a & b & c & d & Hrates).
  rewrite Hrates in *. rewrite Havg.
  split; [apply slot_sum_bounds; exact Hall | ]. split.
  - apply slot_sum_bounds.
    eapply Forall_impl; [exact Hslots | ]. intros v Hv. unfold slot_ok in Hv. lia.
  - unfold RATE_SIZE in Hspot. split; [exact Hspot | ]. simpl. lia.
Qed.

Lemma average_within_slots_witness :
  0 <= beatAvg state_bpm21 <= 21.
Proof.
  apply (average_within_slots state_bpm21 0 21 reachable_state_bpm21).
  repeat constructor; simpl; lia.
Defined.

Lemma beats_inv (bs : list (Z * Z)) :
  forall st, heart_inv st -> heart_inv (beats bs st).
Proof.
  induction bs as [ | [ms ms'] rest IH]; intros st H; simpl; [exact H | ].
  apply IH. apply heart_inv_on_beat. exact H.
Qed.

(** X17: the warm-up ends after four accepted beats.  From any state of
    the estimator, four beats that all pass the range test overwrite
    every slot of the ring buffer: afterwards each of the four slots holds
    a value between 20 and 254 (no initial zero is left), the average is
    between 20 and 254 as well, and the write index is back where it
    started. *)
Theorem warm_up_ends (st : State) (bs : list (Z * Z)) :
  heart_inv st ->
  length bs = 4%nat ->
  all_accepted bs st = true ->
  Forall in_bpm_range (rates (beats bs st)) /\
  in_bpm_range (beatAvg (beats bs st)) /\
  rateSpot (beats bs st) = rateSpot st.
Proof.
  intros Hinv Hlen Hacc.
  pose proof (beats_inv bs st Hinv) as Hinv4.
  destruct bs as [ | [m1 n1] [ | [m2 n2] [ | [m3 n3] [ | [m4 n4] [ | ? ?]]]]];
    try discriminate Hlen.
  simpl in Hacc, Hinv4 |- *.
  repeat (apply andb_prop in Hacc as [? Hacc]).
  set (st1 := on_beat m1 n1 st) in *.
  set (st2 := on_beat m2 n2 st1) in *.
  set (st3 := on_beat m3 n3 st2) in *.
  set (st4 := on_beat m4 n4 st3) in *.
  destruct (on_beat_accepted_state m1 n1 st) as (R1 & S1 & V1); [assumption | ].
  destruct (on_beat_accepted_state m2 n2 st1) as (R2 & S2 & V2); [assumption | ].
  destruct (on_beat_accepted_state m3 n3 st2) as (R3 & S3 & V3); [assumption | ].
  destruct (on_beat_accepted_state m4 n4 st3) as (R4 & S4 & V4); [assumption | ].
  fold st1 in R1, S1, V1. fold st2 in R2, S2, V2. fold st3 in R3, S3, V3.
  fold st4 in R4, S4, V4.
  destruct Hinv as (Hl & _ & Hspot & _).
  destruct (four_slots _ Hl) as (a & b & c & d & Hrates).
  assert (Hfinal : Forall in_bpm_range (rates st4) /\ rateSpot st4 = rateSpot st).
  { clearbody st1 st2 st3 st4.
    remember (IEEE.to_byte (beatsPerMinute st1)) as v1 eqn:E1.
    remember (IEEE.to_byte (beatsPerMinute st2)) as v2 eqn:E2.
    remember (IEEE.to_byte (beatsPerMinute st3)) as v3 eqn:E3.
    remember (IEEE.to_byte (beatsPerMinute st4)) as v4 eqn:E4.
    clear E1 E2 E3 E4.
    unfold RATE_SIZE in Hspot.
    assert (Hc : rateSpot st = 0 \/ rateSpot st = 1 \/ rateSpot st = 2 \/ rateSpot st = 3)
      by lia.
    rewrite Hrates in R1.
    destruct Hc as [E | [E | [E | E]]]; rewrite E in *;
      rewrite next_spot_cases in S1 by lia; simpl in S1; rewrite S1 in *;
      simpl in R1; rewrite R1 in *;
      rewrite next_spot_cases in S2 by lia; simpl in S2; rewrite S2 in *;
      simpl in R2; rewrite R2 in *;
      rewrite next_spot_cases in S3 by lia; simpl in S3; rewrite S3 in *;
      simpl in R3; rewrite R3 in *;
      rewrite next_spot_cases in S4 by lia; simpl in S4; simpl in R4;
      rewrite R4, S4;
      (split; [repeat (constructor; [assumption | ]); constructor | reflexivity]). }
  destruct Hfinal as [Hall Hback]. split; [exact Hall | ]. split; [ | exact Hback].
  destruct (beatAvg_of_inv st4 Hinv4) as (Hl4 & _ & Havg).
  destruct (four_slots _ Hl4) as (a' & b' & c' & d' & Hr4).
  rewrite Hr4 in *. rewrite Havg. apply slot_sum_bounds. exact Hall.
Qed.

Lemma warm_up_ends_witness :
  rateSpot (beats [(2500, 2500); (5000, 5000); (7500, 7500); (10000, 10000)] boot_state)
    = 0.
Proof.
  apply (warm_up_ends boot_state
           [(2500, 2500); (5000, 5000); (7500, 7500); (10000, 10000)]).
  - apply (heart_inv_boot false false false).
  - reflexivity.
  - vm_compute. reflexivity.
Defined.


(** ** Bounds on rounded quotients *)

Section RoundingBounds.
Variables prec emax : Z.
Hypothesis prec_pos : 0 < prec.

Local Abbreviation fexp := (SpecFloat.fexp prec emax).
Local Abbreviation emin := (SpecFloat.emin prec emax).

(** What [shr_fexp] computes on a mantissa that is not negative. *)
Lemma shr_fexp_value (m e : Z) (l : location) :
  0 <= m ->
  let n := fexp (Zdigits2 m + e) - e in
  let '(r, e') := shr_fexp prec emax m e l in
  (n <= 0 -> shr_m r = m /\ e' = e) /\
  (0 < n -> shr_m r = m / 2 ^ n /\ e' = e + n).
Proof.
  intros Hm n. unfold shr_fexp, shr. fold n.
  destruct n as [ | p | p] eqn:Hn.
  - split; [intros _ | lia]. rewrite shr_m_of_loc. split; reflexivity.
  - split; [lia | intros _].
    rewrite shr_m_iter by (rewrite shr_m_of_loc; exact Hm).
    rewrite shr_m_of_loc. split; reflexivity.
  - split; [intros _ | lia]. rewrite shr_m_of_loc. split; reflexivity.
Qed.

Lemma Zdigits2_le (m b : Z) : 0 <= m -> 0 <= b -> m < 2 ^ b -> Zdigits2 m <= b.
Proof.
  intros Hm Hb Hlt. destruct (Z.eq_dec m 0) as [-> | Hnz]; [simpl; lia | ].
  rewrite Zdigits2_log2 by lia.
  assert (Z.log2 m < b) by (apply Z.log2_lt_pow2; lia). lia.
Qed.

Lemma pow2_split (a n : Z) : 0 <= n -> 0 <= a - n -> 2 ^ a = 2 ^ (a - n) * 2 ^ n.
Proof. intros Hn Ha. rewrite <- Z.pow_add_r by lia. f_equal. lia. Qed.

Lemma shr_fexp_below (k m e : Z) (l : location) :
  0 <= m -> e <= k -> emin <= k -> m < 2 ^ (k - e) ->
  let '(r, e') := shr_fexp prec emax m e l in
  0 <= shr_m r < 2 ^ (k - e') /\ e' <= k.
Proof.
  intros Hm He Hk Hlt.
  pose proof (shr_fexp_value m e l Hm) as Hv. cbv zeta in Hv.
  pose proof (Zdigits2_le m (k - e) Hm ltac:(lia) Hlt) as Hd.
  assert (Hf : fexp (Zdigits2 m + e) <= k) by (unfold SpecFloat.fexp; lia).
  destruct (shr_fexp prec emax m e l) as [r e'].
  destruct Hv as [H0 Hpos].
  destruct (Z.le_gt_cases (fexp (Zdigits2 m + e) - e) 0) as [Hn | Hn].
  - destruct (H0 Hn) as [-> ->]. lia.
  - destruct (Hpos Hn) as [-> ->].
    set (n := fexp (Zdigits2 m + e) - e) in *.
    assert (Hp : 0 < 2 ^ n) by (apply Z.pow_pos_nonneg; lia).
    split; [split | lia].
    + apply Z.div_pos; lia.
    + apply Z.div_lt_upper_bound; [exact Hp | ].
      replace (k - (e + n)) with (k - e - n) by lia.
      rewrite Z.mul_comm, <- (pow2_split (k - e) n) by lia. exact Hlt.
Qed.

Lemma shr_fexp_at_most (k m e : Z) (l : location) :
  0 <= m -> e <= k -> emin <= k -> m <= 2 ^ (k - e) ->
  let '(r, e') := shr_fexp prec emax m e l in
  0 <= shr_m r <= 2 ^ (k - e') /\ e' <= k.
Proof.
  intros Hm He Hk Hle.
  pose proof (shr_fexp_value m e l Hm) as Hv. cbv zeta in Hv.
  assert (Hd : Zdigits2 m <= k - e + 1).
  { apply Zdigits2_le; [lia | lia | ].
    replace (k - e + 1) with (Z.succ (k - e)) by lia.
    rewrite Z.pow_succ_r by lia.
    assert (0 < 2 ^ (k - e)) by (apply Z.pow_pos_nonneg; lia). lia. }
  assert (Hf : fexp (Zdigits2 m + e) <= k) by (unfold SpecFloat.fexp; lia).
  destruct (shr_fexp prec emax m e l) as [r e'].
  destruct Hv as [H0 Hpos].
  destruct (Z.le_gt_cases (fexp (Zdigits2 m + e) - e) 0) as [Hn | Hn].
  - destruct (H0 Hn) as [-> ->]. lia.
  - destruct (Hpos Hn) as [-> ->].
    set (n := fexp (Zdigits2 m + e) - e) in *.
    assert (Hp : 0 < 2 ^ n) by (apply Z.pow_pos_nonneg; lia).
    split; [split | lia].
    + apply Z.div_pos; lia.
    + apply Z.div_le_upper_bound; [exact Hp | ].
      replace (k - (e + n)) with (k - e - n) by lia.
      rewrite Z.mul_comm, <- (pow2_split (k - e) n) by lia. exact Hle.
Qed.

(** Rounding never carries a value that is below a power of two beyond
    that power of two. *)
Lemma round_at_most_pow2 (k : Z) (s : bool) (m e : Z) (l : location) :
  0 <= m -> e <= k -> emin <= k -> k <= emax - prec -> m < 2 ^ (k - e) ->
  at_most_pow2 k (binary_round_aux prec emax s m e l).
Proof.
  intros Hm He Hk Hmax Hlt. unfold binary_round_aux.
  pose proof (shr_fexp_below k m e l Hm He Hk Hlt) as H1.
  destruct (shr_fexp prec emax m e l) as [r1 e1]. destruct H1 as [Hr1 He1].
  pose proof (round_nearest_even_range (shr_m r1) (loc_of_shr_record r1)) as Hr.
  set (m2 := round_nearest_even (shr_m r1) (loc_of_shr_record r1)) in *.
  pose proof (shr_fexp_at_most k m2 e1 loc_Exact ltac:(lia) He1 Hk ltac:(lia)) as H2.
  destruct (shr_fexp prec emax m2 e1 loc_Exact) as [r3 e3]. destruct H2 as [Hr3 He3].
  destruct (shr_m r3) as [ | p | p] eqn:Hp; simpl; [exact I | | lia].
  destruct (Z.leb_spec e3 (emax - prec)); [ | lia]. simpl. lia.
Qed.

Lemma shr_fexp_leading_bit (m e : Z) (l : location) :
  0 < m -> emin <= Zdigits2 m + e - prec ->
  let '(r, e') := shr_fexp prec emax m e l in
  0 < shr_m r /\ Zdigits2 (shr_m r) + e' = Zdigits2 m + e.
Proof.
  intros Hm Hnorm.
  pose proof (shr_fexp_value m e l ltac:(lia)) as Hv. cbv zeta in Hv.
  assert (Hf : fexp (Zdigits2 m + e) = Zdigits2 m + e - prec)
    by (unfold SpecFloat.fexp; lia).
  destruct (shr_fexp prec emax m e l) as [r e'].
  destruct Hv as [H0 Hpos]. rewrite Hf in H0, Hpos.
  destruct (Z.le_gt_cases (Zdigits2 m + e - prec - e) 0) as [Hn | Hn].
  - destruct (H0 Hn) as [-> ->]. split; [exact Hm | reflexivity].
  - destruct (Hpos Hn) as [-> ->].
    set (n := Zdigits2 m + e - prec - e) in *.
    pose proof (Z.log2_spec m Hm) as [Hlo Hhi].
    assert (Hdig : Zdigits2 m = Z.log2 m + 1) by (apply Zdigits2_log2; exact Hm).
    assert (Hnl : n <= Z.log2 m) by (unfold n; lia).
    assert (Hp : 0 < 2 ^ n) by (apply Z.pow_pos_nonneg; lia).
    assert (Hq : 2 ^ (Z.log2 m - n) <= m / 2 ^ n < 2 ^ (Z.log2 m - n + 1)).
    { split.
      - apply Z.div_le_lower_bound; [exact Hp | ].
        rewrite <- Z.pow_add_r by lia.
        replace (n + (Z.log2 m - n)) with (Z.log2 m) by lia. exact Hlo.
      - apply Z.div_lt_upper_bound; [exact Hp | ].
        rewrite <- Z.pow_add_r by lia.
        replace (n + (Z.log2 m - n + 1)) with (Z.log2 m + 1) by lia. exact Hhi. }
    assert (Hpos' : 0 < m / 2 ^ n).
    { assert (0 < 2 ^ (Z.log2 m - n)) by (apply Z.pow_pos_nonneg; lia). lia. }
    split; [exact Hpos' | ].
    rewrite (Zdigits2_log2 (m / 2 ^ n)) by exact Hpos'.
    rewrite (Z.log2_unique (m / 2 ^ n) (Z.log2 m - n)) by (lia || exact Hq).
    lia.
Qed.

(** Rounding a value of the normal range never lowers its leading bit. *)
Lemma round_leading_bit (s : bool) (m e : Z) (l : location) :
  0 < m -> emin <= Zdigits2 m + e - prec ->
  leading_bit_from (Zdigits2 m + e) (binary_round_aux prec emax s m e l).
Proof.
  intros Hm Hnorm. unfold binary_round_aux.
  pose proof (shr_fexp_leading_bit m e l Hm Hnorm) as H1.
  destruct (shr_fexp prec emax m e l) as [r1 e1]. destruct H1 as [Hr1 Hd1].
  pose proof (round_nearest_even_range (shr_m r1) (loc_of_shr_record r1)) as Hr.
  set (m2 := round_nearest_even (shr_m r1) (loc_of_shr_record r1)) in *.
  pose proof (Zdigits2_mono (shr_m r1) m2 Hr1 ltac:(lia)) as Hmono.
  pose proof (shr_fexp_leading_bit m2 e1 loc_Exact ltac:(lia) ltac:(lia)) as H2.
  destruct (shr_fexp prec emax m2 e1 loc_Exact) as [r3 e3]. destruct H2 as [Hr3 Hd3].
  destruct (shr_m r3) as [ | p | p] eqn:Hp; try lia.
  destruct (e3 <=? emax - prec); simpl; [ | exact I].
  simpl Zdigits2 in Hd3. lia.
Qed.

(** The quotient that [SFdiv] hands to the rounding. *)
Lemma SFdiv_core_value (m1 m2 : positive) (e1 e2 : Z) :
  let e' := Z.min (fexp (Zpos (digits2_pos m1) + e1 - (Zpos (digits2_pos m2) + e2)))
              (e1 - e2) in
  exists l,
    SFdiv_core_binary prec emax (Zpos m1) e1 (Zpos m2) e2
      = (Zpos m1 * 2 ^ (e1 - e2 - e') / Zpos m2, e', l).
Proof.
  intros e'. unfold SFdiv_core_binary. simpl Zdigits2. fold e'.
  assert (Hs : 0 <= e1 - e2 - e') by (unfold e'; lia).
  assert (Hm : match e1 - e2 - e' with
               | 0 => Zpos m1
               | Zpos _ => Z.shiftl (Zpos m1) (e1 - e2 - e')
               | Zneg _ => 0
               end = Zpos m1 * 2 ^ (e1 - e2 - e')).
  { destruct (e1 - e2 - e') as [ | p | p] eqn:E.
    - rewrite Z.pow_0_r. lia.
    - apply Z.shiftl_mul_pow2. lia.
    - lia. }
  rewrite Hm. unfold Z.div.
  destruct (Z.div_eucl (Zpos m1 * 2 ^ (e1 - e2 - e')) (Zpos m2)) as [q r].
  eexists. reflexivity.
Qed.

(** A quotient of a value below [2^a] by a value of leading bit above [b]
    is at most [2^(a-b)]. *)
Lemma SFdiv_at_most_pow2 (a b : Z) (s1 s2 : bool) (m1 m2 : positive) (e1 e2 : Z) :
  Zpos m1 < 2 ^ (a - e1) -> e1 <= a ->
  b + 1 <= Zpos (digits2_pos m2) + e2 ->
  emin <= a - b -> a - b <= emax - prec ->
  at_most_pow2 (a - b)
    (SFdiv prec emax (S754_finite s1 m1 e1) (S754_finite s2 m2 e2)).
Proof.
  intros H1 He1 H2 Hk Hmax. unfold SFdiv.
  destruct (SFdiv_core_value m1 m2 e1 e2) as [l Hcore]. cbv zeta in Hcore.
  rewrite Hcore. clear Hcore.
  set (d1 := Zpos (digits2_pos m1)) in *. set (d2 := Zpos (digits2_pos m2)) in *.
  set (e' := Z.min (fexp (d1 + e1 - (d2 + e2))) (e1 - e2)).
  assert (Hd1 : d1 <= a - e1).
  { apply (Zdigits2_le (Zpos m1)); [lia | lia | exact H1]. }
  assert (He' : e' <= a - b).
  { unfold e', SpecFloat.fexp. lia. }
  set (sh := e1 - e2 - e').
  assert (Hsh : 0 <= sh) by (unfold sh, e'; lia).
  assert (Hp2 : 0 < 2 ^ sh) by (apply Z.pow_pos_nonneg; lia).
  apply round_at_most_pow2; try assumption.
  - apply Z.div_pos; lia.
  - (* the quotient is below 2^(a - b - e') *)
    set (q := Zpos m1 * 2 ^ sh / Zpos m2).
    destruct (Z.lt_ge_cases q (2 ^ (a - b - e'))) as [Hlt | Hge]; [exact Hlt | exfalso].
    assert (Hq : Zpos m2 * q <= Zpos m1 * 2 ^ sh) by (apply Z.mul_div_le; lia).
    set (t := Z.max (b - e2) 0).
    assert (Hm2 : 2 ^ t <= Zpos m2).
    { pose proof (Z.log2_spec (Zpos m2) eq_refl) as [Hlo _].
      unfold d2 in H2. rewrite digits2_pos_log2 in H2.
      assert (2 ^ t <= 2 ^ Z.log2 (Zpos m2)).
      { apply Z.pow_le_mono_r; [lia | ]. pose proof (Z.log2_nonneg (Zpos m2)).
        unfold t. lia. }
      lia. }
    assert (Hup : Zpos m1 * 2 ^ sh < 2 ^ (a - e1 + sh)).
    { rewrite Z.pow_add_r by lia. nia. }
    assert (Hlow : 2 ^ (a - e1 + sh) <= 2 ^ t * 2 ^ (a - b - e')).
    { rewrite <- Z.pow_add_r by (unfold t; lia).
      apply Z.pow_le_mono_r; [lia | ]. unfold t, sh. lia. }
    assert (0 < 2 ^ t) by (apply Z.pow_pos_nonneg; unfold t; lia).
    assert (0 <= q) by (apply Z.div_pos; lia).
    nia.
Qed.

(** A quotient of two normal values keeps at least the difference of
    their exponents as its leading bit. *)
Lemma SFdiv_leading_bit (s1 s2 : bool) (m1 m2 : positive) (e1 e2 : Z) :
  Zpos (digits2_pos m1) = prec -> Zpos (digits2_pos m2) = prec ->
  emin <= e1 - e2 - prec ->
  leading_bit_from (e1 - e2)
    (SFdiv prec emax (S754_finite s1 m1 e1) (S754_finite s2 m2 e2)).
Proof.
  intros Hd1 Hd2 Hnorm. unfold SFdiv.
  destruct (SFdiv_core_value m1 m2 e1 e2) as [l Hcore]. cbv zeta in Hcore.
  rewrite Hcore. clear Hcore. rewrite Hd1, Hd2.
  replace (Z.min (fexp (prec + e1 - (prec + e2))) (e1 - e2)) with (e1 - e2 - prec)
    by (unfold SpecFloat.fexp; lia).
  replace (e1 - e2 - (e1 - e2 - prec)) with prec by lia.
  set (q := Zpos m1 * 2 ^ prec / Zpos m2).
  assert (Hq : 2 ^ (prec - 1) <= q).
  { apply Z.div_le_lower_bound; [lia | ].
    pose proof (Z.log2_spec (Zpos m1) eq_refl) as [Hlo1 _].
    pose proof (Z.log2_spec (Zpos m2) eq_refl) as [_ Hhi2].
    rewrite digits2_pos_log2 in Hd1, Hd2.
    replace (Z.log2 (Zpos m1)) with (prec - 1) in Hlo1 by lia.
    replace (Z.succ (Z.log2 (Zpos m2))) with prec in Hhi2 by lia.
    assert (0 < 2 ^ (prec - 1)) by (apply Z.pow_pos_nonneg; lia).
    assert (0 < 2 ^ prec) by (apply Z.pow_pos_nonneg; lia).
    apply Z.le_trans with (2 ^ prec * 2 ^ (prec - 1)).
    - apply Z.mul_le_mono_nonneg_r; lia.
    - rewrite (Z.mul_comm (2 ^ prec)). apply Z.mul_le_mono_nonneg_r; lia. }
  assert (Hqpos : 0 < q).
  { assert (0 < 2 ^ (prec - 1)) by (apply Z.pow_pos_nonneg; lia). lia. }
  assert (Hdq : prec <= Zdigits2 q).
  { rewrite Zdigits2_log2 by exact Hqpos.
    assert (prec - 1 <= Z.log2 q) by (apply Z.log2_le_pow2; lia). lia. }
  pose proof (round_leading_bit (xorb s1 s2) q (e1 - e2 - prec) l Hqpos ltac:(lia)) as Hr.
  destruct (binary_round_aux prec emax (xorb s1 s2) q (e1 - e2 - prec) l)
    as [s | s | | s m e]; simpl in *; try assumption. lia.
Qed.

Lemma shl_align_value (m : positive) (e e' : Z) :
  let '(mz, ez) := shl_align m e e' in
  Zpos (digits2_pos mz) + ez = Zpos (digits2_pos m) + e /\ ez <= e /\
  Zpos mz = Zpos m * 2 ^ (e - ez).
Proof.
  unfold shl_align. destruct (e' - e) as [ | d | d] eqn:Hd.
  - rewrite Z.sub_diag. simpl. lia.
  - rewrite Z.sub_diag. simpl. lia.
  - rewrite digits2_pos_iter_xO, Zpos_iter_xO.
    replace (e - e') with (Zpos d) by lia. lia.
Qed.

Lemma binary_round_leading_bit (s : bool) (m : positive) (e : Z) :
  emin <= Zpos (digits2_pos m) + e - prec ->
  leading_bit_from (Zpos (digits2_pos m) + e) (binary_round prec emax s m e).
Proof.
  intros Hnorm. unfold binary_round.
  pose proof (shl_align_value m e (fexp (Zpos (digits2_pos m) + e))) as Ha.
  destruct (shl_align m e (fexp (Zpos (digits2_pos m) + e))) as [mz ez].
  destruct Ha as (Hd & _ & _). rewrite <- Hd.
  apply (round_leading_bit s (Zpos mz) ez loc_Exact); [lia | ].
  simpl Zdigits2. lia.
Qed.

Lemma binary_round_at_most_pow2 (k : Z) (s : bool) (m : positive) (e : Z) :
  Zpos m < 2 ^ (k - e) -> e <= k -> emin <= k -> k <= emax - prec ->
  at_most_pow2 k (binary_round prec emax s m e).
Proof.
  intros Hlt He Hk Hmax. unfold binary_round.
  pose proof (shl_align_value m e (fexp (Zpos (digits2_pos m) + e))) as Ha.
  destruct (shl_align m e (fexp (Zpos (digits2_pos m) + e))) as [mz ez].
  destruct Ha as (_ & Hez & Hmz).
  apply round_at_most_pow2; try lia.
  rewrite Hmz, (pow2_split (k - ez) (e - ez)) by lia.
  replace (k - ez - (e - ez)) with (k - e) by lia.
  apply Z.mul_lt_mono_pos_r; [apply Z.pow_pos_nonneg; lia | exact Hlt].
Qed.

End RoundingBounds.

(** ** Which beat intervals are accepted *)

Lemma all_from_spec (f : Z -> bool) (n : nat) (d x : Z) :
  all_from f d n = true -> d <= x < d + Z.of_nat n -> f x = true.
Proof.
  revert d. induction n as [ | n IH]; intros d H Hx; [lia | ].
  simpl in H. apply andb_prop in H as [Hd Hrest].
  destruct (Z.eq_dec x d) as [-> | Hne]; [exact Hd | ].
  apply (IH (d + 1)); [exact Hrest | lia].
Qed.

Lemma interval_table : all_from interval_row 1 (Z.to_nat 8191) = true.
Proof. vm_compute. reflexivity. Qed.

Lemma binary_round_aux_not_positive (prec emax : Z) (m e : Z) (l : location) :
  positive_finite (binary_round_aux prec emax true m e l) = false.
Proof.
  unfold binary_round_aux.
  destruct (shr_fexp prec emax m e l) as [r1 e1].
  destruct (shr_fexp prec emax _ e1 loc_Exact) as [r2 e2].
  destruct (shr_m r2); simpl; try reflexivity.
  destruct (e2 <=? emax - prec); reflexivity.
Qed.

Lemma binary_round_not_positive (prec emax : Z) (m : positive) (e : Z) :
  positive_finite (binary_round prec emax true m e) = false.
Proof.
  unfold binary_round. destruct (shl_align _ _ _) as [mz ez].
  apply binary_round_aux_not_positive.
Qed.

Lemma SFdiv_neg_pos (x : spec_float) (m : positive) (e : Z) :
  positive_finite x = false ->
  positive_finite (SFdiv IEEE.dprec IEEE.demax x (S754_finite false m e)) = false.
Proof.
  destruct x as [s | s | | s mx ex]; simpl; try reflexivity.
  destruct s; [ | discriminate]. intros _.
  destruct (SFdiv_core_binary _ _ _ _ _ _) as [[mz ez] lz].
  apply binary_round_aux_not_positive.
Qed.

Lemma SFdiv_pos_neg (x : spec_float) (m : positive) (e : Z) :
  positive_finite x = false ->
  positive_finite (SFdiv IEEE.dprec IEEE.demax (S754_finite false m e) x) = false.
Proof.
  destruct x as [s | s | | s mx ex]; simpl; try reflexivity.
  destruct s; [ | discriminate]. intros _.
  destruct (SFdiv_core_binary _ _ _ _ _ _) as [[mz ez] lz].
  apply binary_round_aux_not_positive.
Qed.

Lemma accepted_positive_finite (f : spec_float) :
  bpm_accepted f = true -> positive_finite f = true.
Proof.
  unfold bpm_accepted, IEEE.flt, IEEE.fgt. rewrite float_20, float_255.
  destruct f as [s | s | | s m e]; try destruct s; simpl; try reflexivity;
    rewrite ?Bool.andb_false_r; discriminate.
Qed.

(** An interval that is zero or negative gives no positive rate. *)
Lemma nonpositive_interval_rejected (d : Z) :
  d <= 0 -> bpm_accepted (bpm_of_delta d) = false.
Proof.
  intros Hd.
  destruct (bpm_accepted (bpm_of_delta d)) eqn:Hacc; [ | reflexivity].
  apply accepted_positive_finite in Hacc.
  assert (Hnp : positive_finite (bpm_of_delta d) = false); [ | congruence].
  unfold bpm_of_delta.
  assert (H1 : positive_finite (IEEE.double_of_Z d) = false).
  { destruct d as [ | p | p]; [reflexivity | lia | ].
    apply binary_round_not_positive. }
  change (IEEE.double_of_Z 1000) with (S754_finite false 8796093022208000 (-43)).
  change (IEEE.double_of_Z 60) with (S754_finite false 8444249301319680 (-47)).
  pose proof (SFdiv_neg_pos _ 8796093022208000 (-43) H1) as H2.
  pose proof (SFdiv_pos_neg _ 8444249301319680 (-47) H2) as H3.
  destruct (SFdiv IEEE.dprec IEEE.demax (S754_finite false 8444249301319680 (-47)) _)
    as [s | s | | s m e]; try reflexivity.
  destruct s; [ | discriminate H3].
  apply binary_round_not_positive.
Qed.

(** The [double] of a positive interval is normal and has the leading bit
    of the interval. *)
Lemma double_of_Z_normal (d : Z) :
  0 < d ->
  match IEEE.double_of_Z d with
  | S754_infinity _ => True
  | S754_finite _ m e => Zpos (digits2_pos m) = 53 /\ Zdigits2 d - 53 <= e
  | _ => False
  end.
Proof.
  intros Hd. destruct d as [ | p | p]; try lia.
  unfold IEEE.double_of_Z, binary_normalize. simpl Zdigits2.
  assert (Hn : SpecFloat.emin IEEE.dprec IEEE.demax
               <= Zpos (digits2_pos p) + 0 - IEEE.dprec)
    by (unfold SpecFloat.emin, IEEE.dprec, IEEE.demax; lia).
  pose proof (binary_round_valid IEEE.dprec IEEE.demax eq_refl false p 0) as Hv.
  pose proof (binary_round_leading_bit IEEE.dprec IEEE.demax eq_refl false p 0 Hn) as Hl.
  destruct (binary_round IEEE.dprec IEEE.demax false p 0) as [s | s | | s m e];
    simpl in Hl; try contradiction; [exact I | ].
  simpl in Hv. unfold bounded, canonical_mantissa in Hv.
  apply andb_prop in Hv as [Hc _]. apply Z.eqb_eq in Hc.
  unfold SpecFloat.fexp, SpecFloat.emin, IEEE.dprec, IEEE.demax in Hc. lia.
Qed.

(** The [double] of an interval of 8192 ms or more has its leading bit at
    2^13 or above. *)
Lemma double_of_Z_large (d : Z) :
  8192 <= d ->
  match IEEE.double_of_Z d with
  | S754_infinity _ => True
  | S754_finite _ m e => Zpos (digits2_pos m) = 53 /\ -39 <= e
  | _ => False
  end.
Proof.
  intros Hd. pose proof (double_of_Z_normal d ltac:(lia)) as Hn.
  assert (Hdig : 14 <= Zdigits2 d).
  { rewrite Zdigits2_log2 by lia.
    assert (13 <= Z.log2 d) by (apply Z.log2_le_pow2; [lia | exact Hd]). lia. }
  destruct (IEEE.double_of_Z d) as [s | s | | s m e]; try assumption.
  destruct Hn as [H53 He]. split; [exact H53 | lia].
Qed.

(** A [float] of magnitude at most 16 is not above 20. *)
Lemma at_most_16_rejected (f : spec_float) :
  valid_binary IEEE.fprec IEEE.femax f = true ->
  at_most_pow2 4 f -> bpm_accepted f = false.
Proof.
  intros Hv Hf. unfold bpm_accepted, IEEE.fgt.
  assert (Hfin : is_finite f = true) by (destruct f; try contradiction; reflexivity).
  rewrite (flt32_scaled (IEEE.float_of_Z 20) f eq_refl Hv eq_refl Hfin), scaled_20.
  assert (Hs : scaled f <= 16 * 2 ^ 1074).
  { destruct f as [s | s | | s m e]; try contradiction; [simpl; lia | ].
    simpl in Hf. destruct Hf as [He Hm].
    simpl in Hv. apply (bounded_facts IEEE.fprec IEEE.femax eq_refl) in Hv.
    destruct Hv as (Hemin & _ & _).
    unfold SpecFloat.emin, IEEE.fprec, IEEE.femax in Hemin.
    assert (Hp : 0 < 2 ^ (e + 1074)) by (apply Z.pow_pos_nonneg; lia).
    assert (Hle : Zpos m * 2 ^ (e + 1074) <= 2 ^ (4 - e) * 2 ^ (e + 1074))
      by (apply Z.mul_le_mono_nonneg_r; lia).
    rewrite <- Z.pow_add_r in Hle by lia.
    replace (4 - e + (e + 1074)) with (4 + 1074) in Hle by lia.
    rewrite (Z.pow_add_r 2 4 1074) in Hle by lia.
    change (2 ^ 4) with 16 in Hle.
    unfold scaled, cond_Zopp. destruct s; lia. }
  destruct (Z.ltb_spec (20 * 2 ^ 1074) (scaled f)) as [Hlt | _].
  - assert (0 < 2 ^ 1074) by reflexivity. lia.
  - apply Bool.andb_false_r.
Qed.

(** An interval of 8192 ms or more gives a rate of at most 16. *)
Lemma long_interval_rejected (d : Z) :
  8192 <= d -> bpm_accepted (bpm_of_delta d) = false.
Proof.
  intros Hd. pose proof (double_of_Z_large d Hd) as Hbig.
  unfold bpm_of_delta.
  change (IEEE.double_of_Z 1000) with (S754_finite false 8796093022208000 (-43)).
  change (IEEE.double_of_Z 60) with (S754_finite false 8444249301319680 (-47)).
  destruct (IEEE.double_of_Z d) as [s | s | | s m e]; try contradiction.
  - destruct s; reflexivity.
  - destruct Hbig as [Hdig He].
    assert (Hn : SpecFloat.emin IEEE.dprec IEEE.demax <= e - -43 - IEEE.dprec)
      by (unfold SpecFloat.emin, IEEE.dprec, IEEE.demax; lia).
    pose proof (SFdiv_leading_bit IEEE.dprec IEEE.demax eq_refl s false m
                  8796093022208000 e (-43) Hdig eq_refl Hn) as Hx.
    destruct (SFdiv _ _ (S754_finite s m e) _) as [sx | sx | | sx mx ex];
      simpl in Hx; try contradiction.
    + destruct sx; reflexivity.
    + assert (Hk : SpecFloat.emin IEEE.dprec IEEE.demax <= 6 - 3
                   /\ 6 - 3 <= IEEE.demax - IEEE.dprec)
        by (unfold SpecFloat.emin, IEEE.dprec, IEEE.demax; lia).
      pose proof (SFdiv_at_most_pow2 IEEE.dprec IEEE.demax eq_refl 6 3 false sx
                    8444249301319680 mx (-47) ex eq_refl ltac:(lia) ltac:(lia)
                    (proj1 Hk) (proj2 Hk)) as Hy.
      change (6 - 3) with 3 in Hy.
      destruct (SFdiv _ _ _ (S754_finite sx mx ex)) as [sy | sy | | sy my ey];
        simpl in Hy; try contradiction.
      * destruct sy; reflexivity.
      * destruct Hy as [Hey Hmy].
        unfold IEEE.float_of_double, IEEE.convert.
        apply at_most_16_rejected; [apply binary_round_valid; reflexivity | ].
        apply binary_round_at_most_pow2;
          unfold SpecFloat.emin, IEEE.fprec, IEEE.femax; try lia.
        replace (4 - ey) with (Z.succ (3 - ey)) by lia.
        rewrite Z.pow_succ_r by lia.
        assert (0 < 2 ^ (3 - ey)) by (apply Z.pow_pos_nonneg; lia). lia.
Qed.

(** X18: which beat intervals enter the average.  Whatever the interval
    [d] between two beats, in milliseconds (zero and negative intervals
    included), the beat is accepted exactly when 236 <= d <= 2999, that
    is when 60000 / d lies strictly between 20 and 255; the byte that an
    accepted beat stores is then exactly 60000 / d rounded down, so the
    floating-point evaluation of 60 / (d / 1000.0) never disturbs the
    integer result. *)
Theorem accepted_intervals (d : Z) :
  bpm_accepted (bpm_of_delta d) = ((236 <=? d) && (d <=? 2999)) /\
  (bpm_accepted (bpm_of_delta d) = true -> IEEE.to_byte (bpm_of_delta d) = 60000 / d).
Proof.
  destruct (Z.le_gt_cases d 0) as [Hneg | Hpos];
    [ | destruct (Z.le_gt_cases 8192 d) as [Hbig | Hsmall]].
  - rewrite (nonpositive_interval_rejected d Hneg).
    split; [ | discriminate].
    destruct (Z.leb_spec 236 d); [lia | reflexivity].
  - rewrite (long_interval_rejected d Hbig).
    split; [ | discriminate].
    destruct (Z.leb_spec d 2999); [lia | apply eq_sym, Bool.andb_false_r].
  - pose proof (all_from_spec interval_row (Z.to_nat 8191) 1 d interval_table) as Ht.
    rewrite Z2Nat.id in Ht by lia. specialize (Ht ltac:(lia)).
    unfold interval_row in Ht. cbv zeta in Ht.
    apply andb_prop in Ht as [Ha Hb]. apply Bool.eqb_prop in Ha.
    split; [exact Ha | ]. intros Hacc. rewrite Hacc in Hb. simpl in Hb.
    apply Z.eqb_eq. exact Hb.
Qed.

Lemma accepted_intervals_witness :
  bpm_accepted (bpm_of_delta 1000) = true /\ IEEE.to_byte (bpm_of_delta 1000) = 60.
Proof.
  destruct (accepted_intervals 1000) as [Ha Hb].
  split; [exact Ha | exact (Hb Ha)].
Defined.

(** ** The published rate of a beat *)

(** A datum of magnitude at most 2^30 converts to an [int]. *)
Lemma at_most_pow2_to_int (k : Z) (f : spec_float) :
  k <= 30 -> at_most_pow2 k f -> exists n, IEEE.to_int f = Some n.
Proof.
  intros Hk Hf. destruct f as [s | s | | s m e]; try contradiction.
  - exists 0. reflexivity.
  - simpl in Hf. destruct Hf as [He Hm]. unfold IEEE.to_int.
    assert (Ht : 0 <= IEEE.trunc_mag m e <= 2 ^ 30).
    { assert (Hk30 : 2 ^ k <= 2 ^ 30) by (apply Z.pow_le_mono_r; lia).
      unfold IEEE.trunc_mag. destruct (Z.leb_spec 0 e).
      - rewrite Z.shiftl_mul_pow2 by lia.
        assert (0 < 2 ^ e) by (apply Z.pow_pos_nonneg; lia).
        assert (Zpos m * 2 ^ e <= 2 ^ (k - e) * 2 ^ e)
          by (apply Z.mul_le_mono_nonneg_r; lia).
        rewrite <- (pow2_split k e) in * by lia. lia.
      - rewrite Z.shiftr_div_pow2 by lia.
        assert (Hp : 0 < 2 ^ (- e)) by (apply Z.pow_pos_nonneg; lia).
        split; [apply Z.div_pos; lia | ].
        apply Z.div_le_upper_bound; [exact Hp | ].
        set (k' := Z.max k 0).
        assert (2 ^ (k - e) <= 2 ^ (k' - e)) by (apply Z.pow_le_mono_r; lia).
        assert (2 ^ (k' - e) = 2 ^ (- e) * 2 ^ k').
        { rewrite <- Z.pow_add_r by lia. f_equal. lia. }
        assert (2 ^ k' <= 2 ^ 30) by (apply Z.pow_le_mono_r; lia).
        assert (2 ^ (- e) * 2 ^ k' <= 2 ^ (- e) * 2 ^ 30)
          by (apply Z.mul_le_mono_nonneg_l; lia).
        lia. }
    change (2 ^ 30) with 1073741824 in Ht.
    set (t := IEEE.trunc_mag m e) in *. unfold IEEE.int_min, IEEE.int_max.
    destruct s; simpl cond_Zopp.
    + destruct (Z.leb_spec (-2147483648) (- t)); [ | lia].
      destruct (Z.leb_spec (- t) 2147483647); [ | lia]. eexists. reflexivity.
    + destruct (Z.leb_spec (-2147483648) t); [ | lia].
      destruct (Z.leb_spec t 2147483647); [ | lia]. eexists. reflexivity.
Qed.

(** The rate of a positive interval is at most 2^17, and its conversion to
    an [int] is defined. *)
Lemma positive_interval_defined (d : Z) :
  0 < d -> exists n, IEEE.to_int (bpm_of_delta d) = Some n.
Proof.
  intros Hd. pose proof (double_of_Z_normal d Hd) as Hbig.
  assert (Hdig : 1 <= Zdigits2 d) by (destruct d; simpl; lia).
  unfold bpm_of_delta.
  change (IEEE.double_of_Z 1000) with (S754_finite false 8796093022208000 (-43)).
  change (IEEE.double_of_Z 60) with (S754_finite false 8444249301319680 (-47)).
  destruct (IEEE.double_of_Z d) as [s | s | | s m e]; try contradiction.
  - destruct s; exists 0; reflexivity.
  - destruct Hbig as [H53 He].
    assert (Hn : SpecFloat.emin IEEE.dprec IEEE.demax <= e - -43 - IEEE.dprec)
      by (unfold SpecFloat.emin, IEEE.dprec, IEEE.demax; lia).
    pose proof (SFdiv_leading_bit IEEE.dprec IEEE.demax eq_refl s false m
                  8796093022208000 e (-43) H53 eq_refl Hn) as Hx.
    destruct (SFdiv _ _ (S754_finite s m e) _) as [sx | sx | | sx mx ex];
      simpl in Hx; try contradiction.
    + destruct sx; exists 0; reflexivity.
    + assert (Hk : SpecFloat.emin IEEE.dprec IEEE.demax <= 6 - -10
                   /\ 6 - -10 <= IEEE.demax - IEEE.dprec)
        by (unfold SpecFloat.emin, IEEE.dprec, IEEE.demax; lia).
      pose proof (SFdiv_at_most_pow2 IEEE.dprec IEEE.demax eq_refl 6 (-10) false sx
                    8444249301319680 mx (-47) ex eq_refl ltac:(lia) ltac:(lia)
                    (proj1 Hk) (proj2 Hk)) as Hy.
      change (6 - -10) with 16 in Hy.
      destruct (SFdiv _ _ _ (S754_finite sx mx ex)) as [sy | sy | | sy my ey];
        simpl in Hy; try contradiction.
      * destruct sy; exists 0; reflexivity.
      * destruct Hy as [Hey Hmy].
        unfold IEEE.float_of_double, IEEE.convert.
        apply (at_most_pow2_to_int 17); [lia | ].
        apply binary_round_at_most_pow2;
          unfold SpecFloat.emin, IEEE.fprec, IEEE.femax; try lia.
        replace (17 - ey) with (Z.succ (16 - ey)) by lia.
        rewrite Z.pow_succ_r by lia.
        assert (0 < 2 ^ (16 - ey)) by (apply Z.pow_pos_nonneg; lia). lia.
Qed.

(** With no time between two beats the rate is infinite, and C++ leaves
    its conversion to an [int] undefined. *)
Lemma zero_interval_undefined :
  bpm_of_delta 0 = S754_infinity false /\ bpm_text (bpm_of_delta 0) = FUndefined.
Proof. split; reflexivity. Qed.

(** X15: the beat interval survives the wrap-around of [millis()], and a
    rejected beat still moves the clock.  If the previous beat was stamped
    at time [t] and the next one is detected [d] ms later (0 < d < 2^31),
    the BPM is computed from exactly [d], whether or not the 32-bit clock
    wrapped in between; the beat is stamped with the second reading of the
    clock and its BPM becomes the instantaneous figure that is published,
    also when it fails the range test and is kept out of the average: the
    conversion (int)beatsPerMinute is then defined, and its result is the
    integer published on sensores/bpm. *)
Theorem beat_interval (i : LoopInput) (st : State) (t d : Z) :
  max30102_ok st = true -> in_beat i = true ->
  0 < d < 2147483648 ->
  lastBeat st = to_long t ->
  in_beat_ms i = u32 (t + d) ->
  let st' := fst (tick i st) in
  beatsPerMinute st' = bpm_of_delta d /\
  lastBeat st' = to_long (in_beat_ms' i) /\
  exists n, IEEE.to_int (bpm_of_delta d) = Some n /\
            payloads_on "sensores/bpm" (snd (tick i st)) = [[FInt n]].
Proof.
  intros Hok Hb Hd Hlast Hms st'. subst st'.
  destruct (tick_heart_state i st) as (_ & _ & H3 & H4 & _).
  rewrite Hok, Hb in *. simpl in *.
  assert (Hdelta : to_long (u32 (in_beat_ms i) - u32 (lastBeat st)) = d).
  { rewrite Hlast, Hms, u32_to_long. unfold to_long. rewrite u32_sub.
    unfold u32. rewrite Zminus_mod_idemp_l.
    replace (t + d - t) with d by lia.
    rewrite Z.mod_small by lia.
    destruct (Z.ltb_spec d 2147483648); lia. }
  assert (Hbpm : beatsPerMinute (fst (tick i st)) = bpm_of_delta d).
  { rewrite H4, on_beat_bpm, Hdelta. reflexivity. }
  split; [exact Hbpm | ]. split.
  - rewrite H3. unfold on_beat. destruct (bpm_accepted _); reflexivity.
  - destruct (positive_interval_defined d ltac:(lia)) as [n Hn].
    exists n. split; [exact Hn | ].
    destruct (heart_payloads i st Hok) as (_ & Hp & _).
    rewrite Hp, Hbpm. unfold bpm_text. rewrite Hn. reflexivity.
Qed.

Lemma beat_interval_witness :
  beatsPerMinute (fst (tick (beat_input 2000) near_wrap_state)) = bpm_of_delta 3000.
Proof.
  apply (beat_interval (beat_input 2000) near_wrap_state 4294966296 3000
           eq_refl eq_refl ltac:(lia) eq_refl eq_refl).
Defined.

(** ** Symmetries and edge readings of the motion classifier *)

Lemma binary_round_aux_opp (prec emax : Z) (s : bool) (m e : Z) (l : location) :
  binary_round_aux prec emax (negb s) m e l = SFopp (binary_round_aux prec emax s m e l).
Proof.
  unfold binary_round_aux.
  destruct (shr_fexp prec emax m e l) as [r1 e1].
  destruct (shr_fexp prec emax _ e1 loc_Exact) as [r2 e2].
  destruct (shr_m r2); simpl; try reflexivity.
  destruct (e2 <=? emax - prec); reflexivity.
Qed.

(** A conversion between the two formats commutes with the change of
    sign. *)
Lemma convert_opp (prec emax : Z) (z : spec_float) :
  IEEE.convert prec emax (SFopp z) = SFopp (IEEE.convert prec emax z).
Proof.
  destruct z as [s | s | | s m e]; simpl; try reflexivity.
  unfold binary_round. destruct (shl_align _ _ _) as [mz ez].
  apply binary_round_aux_opp.
Qed.

Lemma SFcompare_opp (a b : spec_float) :
  SFcompare (SFopp a) (SFopp b) = option_map CompOpp (SFcompare a b).
Proof.
  destruct a as [sa | sa | | sa ma ea], b as [sb | sb | | sb mb eb]; simpl;
    try reflexivity;
    try (destruct sa; reflexivity); try (destruct sb; reflexivity);
    try (destruct sa, sb; reflexivity).
  destruct sa, sb; simpl; try reflexivity;
    destruct (ea ?= eb); simpl; try reflexivity;
    rewrite ?CompOpp_involutive; reflexivity.
Qed.

Lemma SFltb_opp (a b : spec_float) : SFltb (SFopp a) (SFopp b) = SFltb b a.
Proof.
  unfold SFltb. rewrite SFcompare_opp, (SFcompare_antisym a b).
  destruct (SFcompare a b) as [[ | | ] | ]; reflexivity.
Qed.

Lemma SFabs_opp (z : spec_float) : SFabs (SFopp z) = SFabs z.
Proof. destruct z; reflexivity. Qed.

Lemma above_of_opp (z : spec_float) : z_above_half (SFopp z) = z_below_minus_half z.
Proof.
  unfold z_above_half, z_below_minus_half, IEEE.fgt, IEEE.flt, IEEE.double_of_float.
  rewrite convert_opp.
  change half with (SFopp (SFopp half)) at 1. apply SFltb_opp.
Qed.

Lemma below_of_opp (z : spec_float) : z_below_minus_half (SFopp z) = z_above_half z.
Proof.
  unfold z_above_half, z_below_minus_half, IEEE.fgt, IEEE.flt, IEEE.double_of_float.
  rewrite convert_opp. apply SFltb_opp.
Qed.

(** X19: turning the wristband over swaps the two definite labels.  For
    every reading, negating z turns "boca_arriba" into "boca_abajo" and
    back and leaves "indefinida" alone, while the signs of x and y have no
    influence on the label at all. *)
Theorem orientation_flips (x y z : spec_float) :
  orientacion x y (SFopp z) = flipped (orientacion x y z) /\
  orientacion (SFopp x) y z = orientacion x y z /\
  orientacion x (SFopp y) z = orientacion x y z.
Proof.
  split; [ | split].
  - pose proof (above_excludes_below (IEEE.double_of_float z)) as Hex.
    unfold orientacion, z_dominates. rewrite SFabs_opp, above_of_opp, below_of_opp.
    unfold z_above_half, z_below_minus_half.
    destruct (IEEE.fgt (SFabs z) (SFabs x) && IEEE.fgt (SFabs z) (SFabs y));
      [ | reflexivity].
    destruct (IEEE.fgt (IEEE.double_of_float z) half).
    + rewrite (Hex eq_refl). reflexivity.
    + destruct (IEEE.flt (IEEE.double_of_float z) (SFopp half)); reflexivity.
  - unfold orientacion, z_dominates. rewrite SFabs_opp. reflexivity.
  - unfold orientacion, z_dominates. rewrite SFabs_opp. reflexivity.
Qed.

Lemma SFadd_nan_r (prec emax : Z) (a : spec_float) : SFadd prec emax a S754_nan = S754_nan.
Proof. destruct a; reflexivity. Qed.

Lemma SFltb_nan_r (a : spec_float) : SFltb a S754_nan = false.
Proof. destruct a as [s | s | | s m e]; try destruct s; reflexivity. Qed.

Lemma SFleb_nan_r (a : spec_float) : SFleb a S754_nan = false.
Proof. destruct a as [s | s | | s m e]; try destruct s; reflexivity. Qed.

Lemma magnitud_nan (x y z : spec_float) :
  x = S754_nan \/ y = S754_nan \/ z = S754_nan -> magnitud x y z = S754_nan.
Proof.
  intros H. unfold magnitud, fadd, fmul.
  assert (Hs : SFadd IEEE.fprec IEEE.femax
                 (SFadd IEEE.fprec IEEE.femax (SFmul IEEE.fprec IEEE.femax x x)
                    (SFmul IEEE.fprec IEEE.femax y y))
                 (SFmul IEEE.fprec IEEE.femax z z) = S754_nan).
  { destruct H as [-> | [-> | ->]].
    - reflexivity.
    - change (SFmul IEEE.fprec IEEE.femax S754_nan S754_nan) with S754_nan.
      rewrite SFadd_nan_r. reflexivity.
    - apply SFadd_nan_r. }
  rewrite Hs. reflexivity.
Qed.

Lemma orientacion_nan (x y z : spec_float) :
  x = S754_nan \/ y = S754_nan \/ z = S754_nan -> orientacion x y z = "indefinida".
Proof.
  intros H. unfold orientacion.
  assert (Hd : z_dominates x y z = false); [ | rewrite Hd; reflexivity].
  unfold z_dominates, IEEE.fgt. destruct H as [-> | [-> | ->]].
  - reflexivity.
  - apply Bool.andb_false_r.
  - change (SFabs S754_nan) with S754_nan. rewrite SFltb_nan_r. reflexivity.
Qed.

(** What the accelerometer block publishes on the two label topics, the
    magnitude and the combined object. *)
Lemma accel_payloads (i : LoopInput) (st : State) :
  accel_ok st = true -> in_available i = true ->
  let mag := magnitud (in_x i) (in_y i) (in_z i) in
  payloads_on "sensores/accel_mag" (snd (tick i st)) = [[FFloat mag 3]] /\
  payloads_on "sensores/orientacion" (snd (tick i st))
    = [[FLit (orientacion (in_x i) (in_y i) (in_z i))]] /\
  payloads_on "sensores/movimiento" (snd (tick i st)) = [[FLit (movimiento mag)]].
Proof.
  intros Hok Hav mag. subst mag. rewrite tick_trace, !payloads_on_app.
  repeat split; silent_blocks; unfold read_mma8452q, publish_axis; cbn [accel_ok set_tick];
    rewrite Hok, Hav; by_cases.
Qed.

(** X20: a reading that is not a number.  When the accelerometer is
    healthy and has a sample of which one axis is a NaN, the tick still
    publishes: the magnitude is a NaN, the orientation is "indefinida",
    the movement is "NO", and an axis that is a NaN is withheld from its
    own topic; the sensor stays healthy. *)
Theorem nan_reading (i : LoopInput) (st : State) :
  accel_ok st = true -> in_available i = true ->
  in_x i = S754_nan \/ in_y i = S754_nan \/ in_z i = S754_nan ->
  payloads_on "sensores/accel_mag" (snd (tick i st)) = [[FFloat S754_nan 3]] /\
  payloads_on "sensores/orientacion" (snd (tick i st)) = [[FLit "indefinida"]] /\
  payloads_on "sensores/movimiento" (snd (tick i st)) = [[FLit "NO"]] /\
  (in_x i = S754_nan -> payloads_on "sensores/accel_x" (snd (tick i st)) = []) /\
  (in_y i = S754_nan -> payloads_on "sensores/accel_y" (snd (tick i st)) = []) /\
  (in_z i = S754_nan -> payloads_on "sensores/accel_z" (snd (tick i st)) = []) /\
  accel_ok (fst (tick i st)) = true.
Proof.
  intros Hok Hav Hnan.
  destruct (accel_payloads i st Hok Hav) as (Hmag & Hor & Hmov).
  destruct (out_of_range_axis_own_topic i st Hok Hav) as (Hx & Hy & Hz & Hflag).
  rewrite Hmag, Hor, Hmov, Hx, Hy, Hz, (magnitud_nan _ _ _ Hnan), (orientacion_nan _ _ _ Hnan).
  repeat split; try assumption; intros ->; reflexivity.
Qed.

Lemma nan_reading_witness :
  payloads_on "sensores/orientacion"
    (snd (tick (accel_input 3000 S754_nan (S754_zero false) (IEEE.float_of_Z 1))
            state_all_ok))
    = [[FLit "indefinida"]].
Proof.
  apply (nan_reading (accel_input 3000 S754_nan (S754_zero false) (IEEE.float_of_Z 1))
           state_all_ok eq_refl eq_refl).
  left. reflexivity.
Defined.
